(** * rolldown-plugin-unocss: the plugin of [src/index.ts], embedded and verified

    The plugin is glue between a host bundler (rolldown/tsdown) and the UnoCSS
    generator.  Everything it owns is modelled here as it is written:

    - the two closure variables [tokens] (a JavaScript [Set<string>]) and
      [cleanup] (an array of zero-argument callbacks) and the late-bound [uno]
      and [context], gathered in one record [World];
    - the three hooks [buildStart], [transform.handler] and [generateBundle],
      the helper [applyTransformers] and the context methods [getConfig],
      [invalidate] and [onInvalidate], written in a state-and-exception monad
      over [World].  An [await] is sequencing in that monad; what other
      handlers may do at the suspension points is the subject of the section
      on transforms in flight.

    What the plugin does not own (the config loader, the generator, the
    transformers of the resolved configuration, magic-string, the user's
    [onTransform] callback, the callbacks handed to [onInvalidate]) is a
    parameter: the class [Externals].  The collaborators have state of their
    own (closures, caches, the file system): the type [Heap], which every call
    of a collaborator reads and may change, so that two calls with the same
    arguments need not agree.  Every call may throw, and is recorded in the
    world's [log] when the plugin makes it, so that "is called", "exactly
    once" and "before" are statements about the log.

    A collaborator acts on the plugin's own state through what it is handed
    in the call:

    - a transformer is handed the buffer and [context], and with [context]
      the accumulator itself ([context.tokens] is the closure's Set, not a
      copy), the registry ([context.invalidate] runs it,
      [context.onInvalidate] extends it), the generator and the configuration.
      What its call leaves is the buffer, the write calls it made on the Set,
      the callbacks it registered and the collaborators' state; the callbacks
      it ran through [invalidate] act on that state like any other code of
      the collaborators;
    - [uno.generate(tokens)] is handed the accumulator itself, and leaves the
      write calls it made on it;
    - [onTransform] is handed the buffer; the loader, [createGenerator], the
      scan and a cleanup callback are handed values only.

    A call is one step: what a collaborator does with a reference after its
    call has returned is not part of this model.  The calls on the context
    that are made outside of a transformer's run ([invalidate],
    [onInvalidate]) are operations of their own, which a build may perform at
    any time. *)

From Stdlib Require Import Ascii.
From stdpp Require Import base list gmap strings.

Open Scope string_scope.
Open Scope list_scope.

Set Warnings "-clear-no-such-hyp".
Set Default Proof Using "Type".
Set Default Goal Selector "!".

(** ** JavaScript [Set<string>]

    A [Set] keeps its elements in insertion order and without duplicates;
    [add] of an element already present changes nothing, otherwise the element
    goes last.  [forEach] visits in insertion order.  [delete] and [clear] are
    not called by the plugin; they are what a holder of the Set can do to
    it. *)

Module JsSet.

Definition has (x : string) (s : list string) : bool := bool_decide (x ∈ s).

Definition add (x : string) (s : list string) : list string :=
  if has x s then s else s ++ [x].

Definition delete (x : string) (s : list string) : list string :=
  filter (λ y, y ≠ x) s.

Definition clear (s : list string) : list string := [].

Definition size (s : list string) : nat := length s.

Definition forEach {A : Type} (s : list string) (f : string → A → A) (a : A) : A :=
  foldl (λ acc x, f x acc) a s.

(** [src.forEach((t) => dst.add(t))] *)
Definition add_all (src dst : list string) : list string := forEach src add dst.

(** The calls that change a Set, and a Set after a sequence of them. *)
Inductive write :=
  | Add (x : string)
  | Delete (x : string)
  | Clear.

Definition apply (c : write) (s : list string) : list string :=
  match c with
  | Add x => add x s
  | Delete x => delete x s
  | Clear => clear s
  end.

Definition apply_all (cs : list write) (s : list string) : list string :=
  foldl (λ acc c, apply c acc) s cs.

Definition is_add (c : write) : Prop :=
  match c with Add _ => True | _ => False end.

End JsSet.

(** ** JavaScript values that are thrown, and calls that may throw *)

Inductive JsError :=
  | TypeError (msg : string)      (* raised by the language itself *)
  | Thrown (payload : string).    (* raised by an external collaborator *)

Inductive Result (A : Type) :=
  | Ok (a : A)
  | Throw (e : JsError).
Arguments Ok {A} a.
Arguments Throw {A} e.

Definition is_ok {A : Type} (r : Result A) : bool :=
  match r with Ok _ => true | Throw _ => false end.

(** ** Regular expressions, as far as the default filter needs them

    [/\.[jt]sx$/] is a sequence of one-character atoms (an escaped literal, a
    bracket class, two literals) followed by the end anchor.  [test] is
    [RegExp.prototype.test] without flags: the pattern may start at any
    position, and [$] holds at the end of the input only. *)

Module RegExp.

Inductive atom :=
  | Lit (c : ascii)
  | Class (cs : list ascii).

Record t := { atoms : list atom; anchored_end : bool }.

Definition atom_matches (a : atom) (c : ascii) : bool :=
  match a with
  | Lit d => bool_decide (c = d)
  | Class cs => bool_decide (c ∈ cs)
  end.

(** Match the atoms at the start of [s]; the rest of the input on success. *)
Fixpoint match_here (p : list atom) (s : string) : option string :=
  match p with
  | [] => Some s
  | a :: p' =>
      match s with
      | EmptyString => None
      | String c s' => if atom_matches a c then match_here p' s' else None
      end
  end.

Definition match_at (r : t) (s : string) : bool :=
  match match_here (atoms r) s with
  | Some rest => if anchored_end r then bool_decide (rest = "") else true
  | None => false
  end.

Fixpoint test (r : t) (s : string) : bool :=
  match_at r s ||
  match s with
  | EmptyString => false
  | String _ s' => test r s'
  end.

End RegExp.

(** [/\.[jt]sx$/] *)
Definition re_jsx_tsx : RegExp.t :=
  {| RegExp.atoms := [RegExp.Lit "."; RegExp.Class ["j"; "t"]; RegExp.Lit "s"; RegExp.Lit "x"]%char;
     RegExp.anchored_end := true |}.

(** rolldown's [HookFilter]: of its three optional parts the plugin only ever
    builds [id]; patterns other than a regular expression are carried along
    as the glob text the user wrote. *)
Inductive StringOrRegExp :=
  | PGlob (g : string)
  | PRegExp (r : RegExp.t).

Record HookFilter := {
  filter_id : option StringOrRegExp;
  filter_moduleType : option (list string);
  filter_code : option StringOrRegExp;
}.

(** ** Values exchanged with the externals *)

(** First argument of [uno.generate]: a source text to scan, or a token set. *)
Inductive GenerateInput :=
  | InCode (text : string)
  | InTokens (set : list string).

(** Second argument of [uno.generate] as the plugin builds it: [{ id, minify }].
    A missing field is [undefined], here [None]. *)
Record GenerateOptions := {
  go_id : option string;
  go_minify : option bool;
}.

(** The two fields of a generation result that the plugin reads. *)
Record GenerateResult := {
  css : string;
  matched : list string;
}.

(** What a call of [uno.generate] leaves: what it resolved to or threw, the
    write calls it made on a Set it was handed as input (a text cannot be
    written to), and the collaborators' state. *)
Record Generated (H : Type) := {
  gen_answer : Result GenerateResult;
  gen_writes : list JsSet.write;
  gen_heap : H;
}.
Arguments gen_answer {H} _.
Arguments gen_writes {H} _.
Arguments gen_heap {H} _.

(** What a transformer resolves to, when it resolves to an object:
    [{ highlightAnnotations?: HighlightAnnotation[] }]. *)
Record TransformResult (A : Type) := {
  highlightAnnotations : option (list A);
}.
Arguments highlightAnnotations {A} _.

(** The object [buildStart] stores in [context] (lines 134-146) and hands to
    every transformer, as its holder finds it at the time of a call: [uno]
    and the configuration that [getConfig] resolves to, fixed when the object
    is built; [tokens], which is the closure's Set with the elements it has
    now; and the closure's [cleanup] array, which [invalidate] runs and
    [onInvalidate] extends. *)
Record UnocssPluginContext (G U V : Type) := {
  ctx_uno : G;
  ctx_tokens : list string;
  ctx_config : U;
  ctx_cleanup : list V;
}.
Arguments ctx_uno {G U V} _.
Arguments ctx_tokens {G U V} _.
Arguments ctx_config {G U V} _.
Arguments ctx_cleanup {G U V} _.

(** What a call of [transformer.transform(code, id, context)] leaves: what it
    resolved to ([None] for [undefined]) or threw; the buffer, which it edits
    in place; the calls it made on [context.tokens] that change the Set, in
    order; the callbacks it handed to [context.onInvalidate], in order; and
    the collaborators' state, which includes whatever the callbacks did that
    it ran through [context.invalidate]. *)
Record Transformed (MS A V H : Type) := {
  tr_answer : Result (option (TransformResult A));
  tr_code : MS;
  tr_writes : list JsSet.write;
  tr_registered : list V;
  tr_heap : H;
}.
Arguments tr_answer {MS A V H} _.
Arguments tr_code {MS A V H} _.
Arguments tr_writes {MS A V H} _.
Arguments tr_registered {MS A V H} _.
Arguments tr_heap {MS A V H} _.

Record SourceMapOptions := { hires : bool }.

(** ** The external collaborators *)

Class Externals := {
  UserConfig : Type;
  Generator : Type;
  SourceCodeTransformer : Type;
  MagicString : Type;
  SourceMap : Type;
  HighlightAnnotation : Type;
  OnTransform : Type;
  VoidFunction : Type;
  (** the state the collaborators keep between calls *)
  Heap : Type;
  (** [process.cwd()] *)
  process_cwd : string;
  (** [loadConfig(root, inlineConfig)], projected on [config] *)
  loadConfig : string → option UserConfig → Heap → Result UserConfig * Heap;
  (** [createGenerator(config)] *)
  createGenerator : UserConfig → Heap → Result Generator * Heap;
  (** [uno.config.transformers], fixed when the generator is built *)
  config_transformers : Generator → option (list SourceCodeTransformer);
  (** [uno.generate(input, options)] *)
  generate : Generator → GenerateInput → option GenerateOptions → Heap → Generated Heap;
  (** [transformer.idFilter], a predicate on the identifier *)
  idFilter : SourceCodeTransformer → option (string → bool);
  (** [transformer.transform(code, id, context)]; [context] is [None] while
      the variable is unassigned *)
  transform :
    SourceCodeTransformer → MagicString → string →
    option (UnocssPluginContext Generator UserConfig VoidFunction) → Heap →
    Transformed MagicString HighlightAnnotation VoidFunction Heap;
  (** [new MagicString(code)], [ms.toString()], [ms.generateMap(options)] *)
  ms_new : string → MagicString;
  ms_toString : MagicString → string;
  ms_generateMap : MagicString → SourceMapOptions → SourceMap;
  (** [onTransform(id, ms, annotations)]: may edit the buffer too, and hands
      it back as it left it when it returns *)
  call_onTransform :
    OnTransform → string → MagicString → list HighlightAnnotation → Heap →
    Result MagicString * Heap;
  (** [c()] for a registered cleanup callback *)
  call_cleanup : VoidFunction → Heap → Result unit * Heap;
}.

Section Plugin.
Context `{X : Externals}.

(** ** Options and their destructuring (lines 11-54 and 82-90) *)

Record UnoCSSPluginOptions := {
  opt_minify : option bool;
  opt_root : option string;
  opt_filter : option HookFilter;
  opt_fileName : option string;
  opt_config : option UserConfig;
  opt_generateCSS : option bool;
  opt_onTransform : option OnTransform;
}.

(** [{}] *)
Definition no_options : UnoCSSPluginOptions :=
  {| opt_minify := None; opt_root := None; opt_filter := None; opt_fileName := None;
     opt_config := None; opt_generateCSS := None; opt_onTransform := None |}.

(** The constants bound by the destructuring at the top of [unocss]. *)
Record Bindings := {
  root : string;
  minify : option bool;
  hook_filter : HookFilter;
  fileName : string;
  inlineConfig : option UserConfig;
  generateCSS : bool;
  onTransform : option OnTransform;
}.

(** [{ id: /\.[jt]sx$/ }] *)
Definition default_filter : HookFilter :=
  {| filter_id := Some (PRegExp re_jsx_tsx); filter_moduleType := None; filter_code := None |}.

(** A destructuring default applies exactly when the property is [undefined];
    [minify], [config] and [onTransform] are bound without a default. *)
Definition destructure (options : UnoCSSPluginOptions) : Bindings :=
  {| root := default process_cwd (opt_root options);
     minify := opt_minify options;
     hook_filter := default default_filter (opt_filter options);
     fileName := default "uno.css" (opt_fileName options);
     inlineConfig := opt_config options;
     generateCSS := default true (opt_generateCSS options);
     onTransform := opt_onTransform options |}.

(** ** The plugin's state *)

Record EmittedAsset := {
  asset_source : string;
  asset_fileName : string;
}.

(** One entry per call that a hook or a context method makes on a
    collaborator. *)
Inductive Event :=
  | EvLoadConfig (root : string) (inline : option UserConfig)
  | EvCreateGenerator (config : UserConfig)
  | EvTransform (t : SourceCodeTransformer) (code : MagicString) (id : string)
  | EvOnTransform (id : string) (code : MagicString) (annotations : list HighlightAnnotation)
  | EvGenerate (input : GenerateInput) (options : option GenerateOptions)
  | EvCleanup (c : VoidFunction).

Record World := {
  uno : option Generator;                 (* [let uno], unassigned until buildStart *)
  context : option (Generator * UserConfig);
    (* [let context]: the [uno] and the [config] its object was built with *)
  tokens : list string;                   (* [const tokens = new Set<string>()] *)
  cleanup : list VoidFunction;            (* [const cleanup: VoidFunction[] = []] *)
  emitted : list EmittedAsset;            (* the host's output set, fed by [this.emitFile] *)
  log : list Event;
  heap : Heap;                            (* what the collaborators keep *)
}.

(** The world [unocss(options)] returns into: nothing assigned, nothing
    collected, the collaborators in some state. *)
Definition initial (h : Heap) : World :=
  {| uno := None; context := None; tokens := []; cleanup := []; emitted := []; log := [];
     heap := h |}.

Definition set_uno (g : Generator) (w : World) : World :=
  {| uno := Some g; context := context w; tokens := tokens w; cleanup := cleanup w;
     emitted := emitted w; log := log w; heap := heap w |}.
Definition set_context (c : Generator * UserConfig) (w : World) : World :=
  {| uno := uno w; context := Some c; tokens := tokens w; cleanup := cleanup w;
     emitted := emitted w; log := log w; heap := heap w |}.
Definition set_tokens (s : list string) (w : World) : World :=
  {| uno := uno w; context := context w; tokens := s; cleanup := cleanup w;
     emitted := emitted w; log := log w; heap := heap w |}.
Definition set_cleanup (c : list VoidFunction) (w : World) : World :=
  {| uno := uno w; context := context w; tokens := tokens w; cleanup := c;
     emitted := emitted w; log := log w; heap := heap w |}.
Definition set_emitted (a : list EmittedAsset) (w : World) : World :=
  {| uno := uno w; context := context w; tokens := tokens w; cleanup := cleanup w;
     emitted := a; log := log w; heap := heap w |}.
Definition set_log (l : list Event) (w : World) : World :=
  {| uno := uno w; context := context w; tokens := tokens w; cleanup := cleanup w;
     emitted := emitted w; log := l; heap := heap w |}.
Definition set_heap (h : Heap) (w : World) : World :=
  {| uno := uno w; context := context w; tokens := tokens w; cleanup := cleanup w;
     emitted := emitted w; log := log w; heap := h |}.

(** The context object as its holder finds it in a world: [context.tokens]
    is the closure's Set and [invalidate] and [onInvalidate] close over the
    closure's [cleanup]; [None] while [context] is unassigned. *)
Definition the_context (w : World)
    : option (UnocssPluginContext Generator UserConfig VoidFunction) :=
  match context w with
  | Some (g, config) =>
      Some {| ctx_uno := g; ctx_tokens := tokens w; ctx_config := config;
              ctx_cleanup := cleanup w |}
  | None => None
  end.

(** ** The monad of the hooks: state, and exceptions that keep the state *)

Definition M (A : Type) : Type := World → Result A * World.

#[global] Instance M_ret : MRet M := λ A a w, (Ok a, w).

#[global] Instance M_bind : MBind M := λ A B f m w,
  match m w with
  | (Ok a, w') => f a w'
  | (Throw e, w') => (Throw e, w')
  end.

Definition throw {A : Type} (e : JsError) : M A := λ w, (Throw e, w).

Definition gets {A : Type} (f : World → A) : M A := λ w, (Ok (f w), w).

Definition modify (f : World → World) : M unit := λ w, (Ok tt, f w).

(** The world with more entries in its log, and nothing else changed. *)
Definition logged (l : list Event) (w : World) : World := set_log (log w ++ l) w.

(** A call of a collaborator that is handed values only: logged when it is
    made, whatever it answers; it leaves the collaborators' state changed. *)
Definition call {A : Type} (ev : Event) (f : Heap → Result A * Heap) : M A :=
  λ w, ((f (heap w)).1, set_heap (f (heap w)).2 (logged [ev] w)).

(** Reading a property of [uno]: a [TypeError] while [uno] is unassigned. *)
Definition the_uno (property : string) : M Generator := λ w,
  match uno w with
  | Some g => (Ok g, w)
  | None =>
      throw (TypeError ("Cannot read properties of undefined (reading '" +:+ property +:+ "')")) w
  end.

(** [uno.generate(input, options)].  When the input is the accumulator, the
    generator holds the Set itself for the time of the call: the writes it
    made are in the Set when the call is over. *)
Definition call_generate (u : Generator) (input : GenerateInput)
    (options : option GenerateOptions) : M GenerateResult := λ w,
  let r := generate u input options (heap w) in
  (gen_answer r,
   set_heap (gen_heap r)
     (match input with
      | InTokens _ =>
          set_tokens (JsSet.apply_all (gen_writes r) (tokens w))
            (logged [EvGenerate input options] w)
      | InCode _ => logged [EvGenerate input options] w
      end)).

(** ** [applyTransformers] (lines 107-125) *)

(** What [transform(code, id, context)] answers in a world. *)
Definition transform_in (t : SourceCodeTransformer) (code : MagicString) (id : string)
    (w : World) : Transformed MagicString HighlightAnnotation VoidFunction Heap :=
  transform t code id (the_context w) (heap w).

(** The world once a transformer's call is over: its writes are in the Set
    and its callbacks in the registry, which it reaches through [context]
    only. *)
Definition absorb (r : Transformed MagicString HighlightAnnotation VoidFunction Heap)
    (w : World) : World :=
  set_heap (tr_heap r)
    (match context w with
     | Some _ =>
         set_cleanup (cleanup w ++ tr_registered r)
           (set_tokens (JsSet.apply_all (tr_writes r) (tokens w)) w)
     | None => w
     end).

(** [await transform(code, id, context)] *)
Definition call_transform (t : SourceCodeTransformer) (code : MagicString) (id : string)
    : M (MagicString * option (TransformResult HighlightAnnotation)) := λ w,
  let r := transform_in t code id w in
  (match tr_answer r with
   | Ok result => Ok (tr_code r, result)
   | Throw e => Throw e
   end,
   absorb r (logged [EvTransform t code id] w)).

(** The body of [for (const { idFilter, transform } of list)], with the
    buffer and the [annotations] array as they stand. *)
Fixpoint transformers_loop (l : list SourceCodeTransformer) (code : MagicString)
    (id : string) (annotations : list HighlightAnnotation)
    : M (MagicString * list HighlightAnnotation) :=
  match l with
  | [] => mret (code, annotations)
  | t :: rest =>
      if match idFilter t with Some f => negb (f id) | None => false end
      then transformers_loop rest code id annotations            (* continue *)
      else
        '(code', result) ← call_transform t code id;
        let _annotations := result ≫= highlightAnnotations in
        let annotations' :=
          match _annotations with
          | Some a => annotations ++ a                            (* push(..._annotations) *)
          | None => annotations
          end in
        transformers_loop rest code' id annotations'
  end.

Definition applyTransformers (code : MagicString) (id : string)
    : M (MagicString * list HighlightAnnotation) :=
  u ← the_uno "config";
  match config_transformers u with                               (* const list *)
  | None | Some [] => mret (code, [])                            (* !list?.length *)
  | Some l => transformers_loop l code id []
  end.

(** ** The hooks (lines 127-194) *)

Definition buildStart (b : Bindings) : M unit :=
  config ← call (EvLoadConfig (root b) (inlineConfig b)) (loadConfig (root b) (inlineConfig b));
  g ← call (EvCreateGenerator config) (createGenerator config);
  modify (set_uno g);;
  modify (set_context (g, config)).

(** Methods of the context object. *)
Definition getConfig (c : UnocssPluginContext Generator UserConfig VoidFunction)
    : M UserConfig :=
  mret (ctx_config c).

(** [cleanup.forEach((c) => c())] *)
Fixpoint forEach_call (cs : list VoidFunction) : M unit :=
  match cs with
  | [] => mret tt
  | c :: rest => call (EvCleanup c) (call_cleanup c);; forEach_call rest
  end.

Definition invalidate : M unit :=
  cs ← gets cleanup;
  forEach_call cs.

Definition onInvalidate (fn : VoidFunction) : M unit :=
  modify (λ w, set_cleanup (cleanup w ++ [fn]) w).

Record TransformOutput := {
  out_code : string;
  out_map : SourceMap;
}.

Definition handler (b : Bindings) (code id : string) : M TransformOutput :=
  let ms := ms_new code in
  '(ms, annotations) ← applyTransformers ms id;
  ms ← match onTransform b with
       | Some f => call (EvOnTransform id ms annotations) (call_onTransform f id ms annotations)
       | None => mret ms
       end;
  let finalCode := ms_toString ms in
  u ← the_uno "generate";
  let options := Some {| go_id := Some id; go_minify := minify b |} in
  r ← call_generate u (InCode finalCode) options;
  (if bool_decide (0 < JsSet.size (matched r))
   then modify (λ w, set_tokens (JsSet.add_all (matched r) (tokens w)) w)
   else mret tt);;
  mret {| out_code := finalCode; out_map := ms_generateMap ms {| hires := true |} |}.

(** [this.emitFile({ type: 'asset', source, fileName })] *)
Definition emitFile (source name : string) : M unit :=
  modify (λ w, set_emitted (emitted w ++ [{| asset_source := source; asset_fileName := name |}]) w).

Definition generateBundle (b : Bindings) : M unit :=
  if negb (generateCSS b) then mret tt
  else
    u ← the_uno "generate";
    ts ← gets tokens;
    r ← call_generate u (InTokens ts) None;
    emitFile (css r) (fileName b).

(** ** The plugin object *)

Record Plugin := {
  name : string;
  plugin_buildStart : M unit;
  transform_filter : HookFilter;
  transform_handler : string → string → M TransformOutput;
  plugin_generateBundle : M unit;
}.

(** [unocss(options = {})] *)
Definition unocss (options : option UnoCSSPluginOptions) : Plugin :=
  let b := destructure (default no_options options) in
  {| name := "tsdown-unocss-plugin";
     plugin_buildStart := buildStart b;
     transform_filter := hook_filter b;
     transform_handler := handler b;
     plugin_generateBundle := generateBundle b |}.

End Plugin.

(** ** Reading the log *)

Section Observations.
Context `{X : Externals}.

(** The texts handed to the generator for scanning, in call order. *)
Definition scan_inputs (l : list Event) : list string :=
  omap (λ ev, match ev with EvGenerate (InCode text) _ => Some text | _ => None end) l.

(** The token sets handed to the generator for CSS generation, in call order. *)
Definition css_inputs (l : list Event) : list (list string) :=
  omap (λ ev, match ev with EvGenerate (InTokens s) _ => Some s | _ => None end) l.

(** The argument triples of the calls of [onTransform], in call order. *)
Definition onTransform_calls (l : list Event)
    : list (string * MagicString * list HighlightAnnotation) :=
  omap (λ ev, match ev with EvOnTransform id ms a => Some (id, ms, a) | _ => None end) l.

(** The cleanup callbacks invoked, in call order. *)
Definition cleanup_calls (l : list Event) : list VoidFunction :=
  omap (λ ev, match ev with EvCleanup c => Some c | _ => None end) l.

Definition is_transform_call (ev : Event) : Prop :=
  match ev with EvTransform _ _ _ => True | _ => False end.

(** ** The handler in phases

    Lines 152-164, everything up to and including the scan, and lines 166-177,
    the synchronous tail that inserts and returns.  [handler] is their
    composition (lemma [handler_phases]); the phases give names to "the buffer
    that is scanned" and "the set a file's scan produces". *)

(** Lines 158-160: the callback, when one was supplied. *)
Definition callback_step (b : Bindings) (id : string) (ms : MagicString)
    (annotations : list HighlightAnnotation) : M MagicString :=
  match onTransform b with
  | Some f => call (EvOnTransform id ms annotations) (call_onTransform f id ms annotations)
  | None => mret ms
  end.

Definition prescan (b : Bindings) (code id : string) : M MagicString :=
  '(ms, annotations) ← applyTransformers (ms_new code) id;
  callback_step b id ms annotations.

Definition scan_options (b : Bindings) (id : string) : option GenerateOptions :=
  Some {| go_id := Some id; go_minify := minify b |}.

Definition scan (b : Bindings) (id : string) (ms : MagicString) : M GenerateResult :=
  u ← the_uno "generate";
  call_generate u (InCode (ms_toString ms)) (scan_options b id).

Definition scan_event (b : Bindings) (id : string) (ms : MagicString) : Event :=
  EvGenerate (InCode (ms_toString ms)) (scan_options b id).

(** The object the handler returns for a final buffer. *)
Definition output_of (ms : MagicString) : TransformOutput :=
  {| out_code := ms_toString ms; out_map := ms_generateMap ms {| hires := true |} |}.

(** Lines 166-177: insert what was matched, return. *)
Definition collect (ms : MagicString) (r : GenerateResult) : M TransformOutput :=
  (if bool_decide (0 < JsSet.size (matched r))
   then modify (λ w, set_tokens (JsSet.add_all (matched r) (tokens w)) w)
   else mret tt);;
  mret (output_of ms).

(** The matched set that the scan of one file produces when its transform
    starts in world [w]. *)
Definition matched_set (b : Bindings) (w : World) (file : string * string)
    : Result (list string) :=
  match (prescan b file.1 file.2 ≫= scan b file.2) w with
  | (Ok r, _) => Ok (matched r)
  | (Throw e, _) => Throw e
  end.

(** ** [applyTransformers], from the words of the specification

    "Apply every registered pre-scan transformer, in list order, to the
    buffer": first keep the transformers whose identifier filter accepts the
    file, then run them one after the other, each on the buffer its
    predecessor left and in the world its predecessor left, and concatenate
    what they annotate. *)

Definition accepts (id : string) (t : SourceCodeTransformer) : bool :=
  match idFilter t with
  | Some f => f id
  | None => true
  end.

Definition registered (g : Generator) : list SourceCodeTransformer :=
  default [] (config_transformers g).

Definition annotations_of (r : option (TransformResult HighlightAnnotation))
    : list HighlightAnnotation :=
  match r with
  | Some {| highlightAnnotations := Some a |} => a
  | _ => []
  end.

(** The calls made, each with the buffer it is given; stops after a throw. *)
Fixpoint sequential_calls (ts : list SourceCodeTransformer)
    (code : MagicString) (id : string) (w : World)
    : list (SourceCodeTransformer * MagicString) :=
  match ts with
  | [] => []
  | t :: rest =>
      (t, code) ::
      match tr_answer (transform_in t code id w) with
      | Ok _ =>
          sequential_calls rest (tr_code (transform_in t code id w)) id
            (absorb (transform_in t code id w) w)
      | Throw _ => []
      end
  end.

(** The last buffer and what each transformer annotated, or the first throw. *)
Fixpoint sequential_result (ts : list SourceCodeTransformer)
    (code : MagicString) (id : string) (w : World)
    : Result (MagicString * list (list HighlightAnnotation)) :=
  match ts with
  | [] => Ok (code, [])
  | t :: rest =>
      match tr_answer (transform_in t code id w) with
      | Ok r =>
          match sequential_result rest (tr_code (transform_in t code id w)) id
                  (absorb (transform_in t code id w) w) with
          | Ok (final, per_transformer) => Ok (final, annotations_of r :: per_transformer)
          | Throw e => Throw e
          end
      | Throw e => Throw e
      end
  end.

(** The world the calls leave, but for the log: what every transformer
    called, the one that threw included, wrote and registered. *)
Fixpoint sequential_world (ts : list SourceCodeTransformer)
    (code : MagicString) (id : string) (w : World) : World :=
  match ts with
  | [] => w
  | t :: rest =>
      match tr_answer (transform_in t code id w) with
      | Ok _ =>
          sequential_world rest (tr_code (transform_in t code id w)) id
            (absorb (transform_in t code id w) w)
      | Throw _ => absorb (transform_in t code id w) w
      end
  end.

Definition spec_applyTransformers (g : Generator) (code : MagicString) (id : string)
    (w : World) : Result (MagicString * list HighlightAnnotation) * World :=
  let invoked := filter (λ t, accepts id t = true) (registered g) in
  (match sequential_result invoked code id w with
   | Ok (final, per_transformer) => Ok (final, concat per_transformer)
   | Throw e => Throw e
   end,
   logged ((λ c, EvTransform c.1 c.2 id) <$> sequential_calls invoked code id w)
     (sequential_world invoked code id w)).

(** Summary of [cleanup.forEach((c) => c())] from a state of the
    collaborators: the answer, the callbacks that get called, which stop at
    the first one that throws, and the state they leave.  Lemma
    [forEach_call_run] shows that [forEach_call] does exactly this. *)
Fixpoint cleanup_outcome (cs : list VoidFunction) (h : Heap)
    : Result unit * list VoidFunction * Heap :=
  match cs with
  | [] => (Ok tt, [], h)
  | c :: rest =>
      match call_cleanup c h with
      | (Ok _, h') =>
          ((cleanup_outcome rest h').1.1, c :: (cleanup_outcome rest h').1.2,
           (cleanup_outcome rest h').2)
      | (Throw e, h') => (Throw e, [c], h')
      end
  end.

(** ** A build as the host drives it *)

Inductive Operation :=
  | OpBuildStart
  | OpTransform (code id : string)
  | OpGenerateBundle
  | OpInvalidate
  | OpOnInvalidate (fn : VoidFunction).

Definition perform (b : Bindings) (op : Operation) : M unit :=
  match op with
  | OpBuildStart => buildStart b
  | OpTransform code id => handler b code id;; mret tt
  | OpGenerateBundle => generateBundle b
  | OpInvalidate => invalidate
  | OpOnInvalidate fn => onInvalidate fn
  end.

(** The world after a sequence of operations, whether or not some threw. *)
Definition run (b : Bindings) (ops : list Operation) (w : World) : World :=
  foldl (λ w op, (perform b op w).2) w ops.

(** The transform hook fired for each file of a list, in the order given. *)
Fixpoint transform_all (b : Bindings) (files : list (string * string))
    : M (list TransformOutput) :=
  match files with
  | [] => mret []
  | file :: rest =>
      out ← handler b file.1 file.2;
      outs ← transform_all b rest;
      mret (out :: outs)
  end.

(** What the scans of such a run produce, file by file: each file's matched
    set in the world its predecessors left. *)
Fixpoint scans_of (b : Bindings) (files : list (string * string)) (w : World)
    : list (Result (list string)) :=
  match files with
  | [] => []
  | file :: rest => matched_set b w file :: scans_of b rest (handler b file.1 file.2 w).2
  end.

(** ** Transforms in flight

    The handler suspends at each [await]; the host may run other handlers in
    between.  What a handler does between two suspensions is one step: local
    work, and at most one call of a collaborator at its end.  A [Task] is a
    handler suspended: inside the loop of [applyTransformers] awaiting a
    transformer that has been called, awaiting [onTransform], or awaiting the
    scan.  It holds what the handler's local variables hold. *)

Inductive Task :=
  | InLoop (rest : list SourceCodeTransformer) (code : MagicString)
      (annotations : list HighlightAnnotation)
  | AfterCallback (ms : MagicString)
  | AfterScan (ms : MagicString) (r : GenerateResult).

(** Line 164, up to the suspension. *)
Definition to_scan (b : Bindings) (id : string) (ms : MagicString) : M Task :=
  r ← scan b id ms;
  mret (AfterScan ms r).

(** Lines 158-164: with a callback, up to its call; without, up to the scan. *)
Definition after_loop (b : Bindings) (id : string) (ms : MagicString)
    (annotations : list HighlightAnnotation) : M Task :=
  match onTransform b with
  | Some f =>
      ms' ← call (EvOnTransform id ms annotations) (call_onTransform f id ms annotations);
      mret (AfterCallback ms')
  | None => to_scan b id ms
  end.

(** The loop from where it stands up to the next call of a transformer, or
    out of the loop and on when no transformer is left. *)
Fixpoint next_call (b : Bindings) (id : string) (l : list SourceCodeTransformer)
    (code : MagicString) (annotations : list HighlightAnnotation) : M Task :=
  match l with
  | [] => after_loop b id code annotations
  | t :: rest =>
      if match idFilter t with Some f => negb (f id) | None => false end
      then next_call b id rest code annotations
      else
        '(code', result) ← call_transform t code id;
        mret (InLoop rest code'
                (match result ≫= highlightAnnotations with
                 | Some a => annotations ++ a
                 | None => annotations
                 end))
  end.

(** The host calls the handler: it runs to its first suspension. *)
Definition enter (b : Bindings) (code id : string) : M Task :=
  u ← the_uno "config";
  match config_transformers u with
  | None | Some [] => after_loop b id (ms_new code) []
  | Some l => next_call b id l (ms_new code) []
  end.

(** A suspended handler resumes: it runs to its next suspension, or to its
    end, where it returns. *)
Definition resume (b : Bindings) (id : string) (task : Task)
    : M (Task + TransformOutput) :=
  match task with
  | InLoop rest code annotations =>
      task' ← next_call b id rest code annotations; mret (inl task')
  | AfterCallback ms => task' ← to_scan b id ms; mret (inl task')
  | AfterScan ms r => out ← collect ms r; mret (inr out)
  end.

(** A handler resumed again and again with nothing in between. *)
Fixpoint finish (fuel : nat) (b : Bindings) (id : string) (task : Task)
    : M (option TransformOutput) :=
  match fuel with
  | 0 => mret None
  | S fuel' =>
      next ← resume b id task;
      match next with
      | inl task' => finish fuel' b id task'
      | inr out => mret (Some out)
      end
  end.

(** What a suspended handler has left to do, as the source has it: the rest
    of the loop and what follows it, or what follows the callback, or the
    tail. *)
Definition remainder (b : Bindings) (id : string) (task : Task) : M TransformOutput :=
  match task with
  | InLoop rest code annotations =>
      '(ms, annotations') ← transformers_loop rest code id annotations;
      ms' ← callback_step b id ms annotations';
      r ← scan b id ms';
      collect ms' r
  | AfterCallback ms => r ← scan b id ms; collect ms r
  | AfterScan ms r => collect ms r
  end.

(** The steps a suspended handler has left at most. *)
Definition steps_left (task : Task) : nat :=
  match task with
  | InLoop rest _ _ => length rest + 3
  | AfterCallback _ => 2
  | AfterScan _ _ => 1
  end.

Inductive Action :=
  | Called (file : string * string)     (* the host calls the handler for a file *)
  | Resumed (i : nat).                  (* the [i]-th handler in flight resumes *)

Record Flight := {
  world : World;
  in_flight : list (string * string * Task);
  completed : list (string * string * list string);
    (* the files whose handler has returned, each with what its scan matched *)
}.

Definition idle (w : World) : Flight := {| world := w; in_flight := []; completed := [] |}.

Definition act (b : Bindings) (st : Flight) (a : Action) : Flight :=
  match a with
  | Called file =>
      match enter b file.1 file.2 (world st) with
      | (Ok task, w') =>
          {| world := w'; in_flight := in_flight st ++ [(file, task)];
             completed := completed st |}
      | (Throw _, w') =>
          {| world := w'; in_flight := in_flight st; completed := completed st |}
      end
  | Resumed i =>
      match in_flight st !! i with
      | Some (file, task) =>
          match resume b file.2 task (world st) with
          | (Ok (inl task'), w') =>
              {| world := w'; in_flight := <[i := (file, task')]> (in_flight st);
                 completed := completed st |}
          | (Ok (inr _), w') =>
              {| world := w'; in_flight := delete i (in_flight st);
                 completed :=
                   completed st ++
                   [(file, match task with AfterScan _ r => matched r | _ => [] end)] |}
          | (Throw _, w') =>
              {| world := w'; in_flight := delete i (in_flight st);
                 completed := completed st |}
          end
      | None => st
      end
  end.

Definition schedule (b : Bindings) (actions : list Action) (st : Flight) : Flight :=
  foldl (act b) st actions.

(** ** Collaborators that leave the accumulator alone *)

(** A transformer that makes no write call on [context.tokens]. *)
Definition keeps_tokens (t : SourceCodeTransformer) : Prop :=
  ∀ code id ctx h, tr_writes (transform t code id ctx h) = [].

(** A suspended handler whose remaining transformers are such. *)
Definition task_keeps (task : Task) : Prop :=
  match task with
  | InLoop rest _ _ => Forall keeps_tokens rest
  | _ => True
  end.

(** A transformer whose only write calls on [context.tokens] are [add]. *)
Definition only_adds (t : SourceCodeTransformer) : Prop :=
  ∀ code id ctx h, Forall JsSet.is_add (tr_writes (transform t code id ctx h)).

(** A generator that makes no write call on a Set it is given, or none but
    [add]. *)
Definition generator_keeps (g : Generator) : Prop :=
  ∀ s options h, gen_writes (generate g (InTokens s) options h) = [].

Definition generator_only_adds (g : Generator) : Prop :=
  ∀ s options h, Forall JsSet.is_add (gen_writes (generate g (InTokens s) options h)).

(** The generators that [buildStart] can assign, the loader and
    [createGenerator] returning in some state of the collaborators. *)
Definition buildable (b : Bindings) (g : Generator) : Prop :=
  ∃ h config h',
    (loadConfig (root b) (inlineConfig b) h).1 = Ok config ∧
    (createGenerator config h').1 = Ok g.

(** Two worlds that differ at most in the accumulator. *)
Definition same_but_tokens (w1 w2 : World) : Prop :=
  set_tokens [] w1 = set_tokens [] w2.



End Observations.

Section Builds.
Context `{X : Externals}.

(** ** Whole builds *)

(** [buildStart] assigns [uno] and, without suspending in between, a
    [context] that carries that same generator. *)
Definition assigned_together (w : World) : Prop :=
  match uno w, context w with
  | Some g, Some c => c.1 = g
  | None, None => True
  | _, _ => False
  end.

(** The calls of [uno.generate], with both arguments, in call order. *)
Definition generate_calls (l : list Event) : list (GenerateInput * option GenerateOptions) :=
  omap (λ ev, match ev with EvGenerate input options => Some (input, options) | _ => None end) l.

(** Where a token comes from, read off a log: a generator that a logged
    [createGenerator] call can build matches it in a text that a logged scan
    was given. *)
Definition matched_by_a_scan (l : list Event) (t : string) : Prop :=
  ∃ config g text options r h h',
    EvCreateGenerator config ∈ l ∧ (createGenerator config h).1 = Ok g ∧
    EvGenerate (InCode text) options ∈ l ∧
    gen_answer (generate g (InCode text) options h') = Ok r ∧
    t ∈ matched r.

(** The generator in use was built by a logged call, and every token held
    was matched by a logged scan. *)
Definition accounted (w : World) : Prop :=
  (∀ g, uno w = Some g →
        ∃ config h, EvCreateGenerator config ∈ log w ∧ (createGenerator config h).1 = Ok g) ∧
  (∀ t, t ∈ tokens w → matched_by_a_scan (log w) t).

(** The generate-bundle hooks among the operations of a build. *)
Definition generateBundles (ops : list Operation) : list Operation :=
  filter (λ op, match op with OpGenerateBundle => true | _ => false end = true) ops.

(** One build: the build-start hook, the transform hook for each file, the
    generate-bundle hook. *)
Definition build (b : Bindings) (files : list (string * string)) : M unit :=
  buildStart b;; transform_all b files;; generateBundle b.

End Builds.

(** ** A concrete set of collaborators

    A toy generator, enough to run the hooks: the scan matches the words of
    the text (split at spaces), CSS generation writes one empty rule per
    token, and both add the tokens of the configuration's safelist to what
    they are given, the way UnoCSS does.  The transformers show the ways a
    transformer can behave, the use of each property of [context] among them.
    The state the collaborators keep is a list of notes, which one cleanup
    callback reads and writes.  Used for examples only. *)

Module Demo.

Inductive transformer :=
  | VariantGroup    (* rewrites the first "hover:(a b)" into "hover:a hover:b" *)
  | TsxOnly         (* filtered to .jsx/.tsx identifiers; resolves to undefined *)
  | Broken          (* throws *)
  | Leak            (* context.tokens.add("leak") *)
  | Wipe            (* filtered to "two.jsx"; context.tokens.clear() *)
  | Mirror          (* appends the tokens that context.tokens holds to the text *)
  | Hook.           (* context.onInvalidate(a callback) *)

Record buffer := { original : string; current : string }.

Record annotation := { offset : nat; len : nat; className : string }.

Inductive callback :=
  | Append (suffix : string)
  | Reject.

Inductive cleaner :=
  | Flush (n : nat)
  | Crash           (* throws *)
  | Fuse.           (* returns once, and throws from then on *)

Record config := {
  cfg_transformers : option (list transformer);
  cfg_safelist : list string;
}.

(** [{ transformers }] *)
Definition configured (ts : option (list transformer)) : config :=
  {| cfg_transformers := ts; cfg_safelist := [] |}.

(** [{ safelist }] *)
Definition safelisted (l : list string) : config :=
  {| cfg_transformers := None; cfg_safelist := l |}.

Fixpoint drop_chars (n : nat) (s : string) : string :=
  match n, s with
  | S n', String _ s' => drop_chars n' s'
  | _, _ => s
  end.

Fixpoint expand (s : string) : string :=
  if String.prefix "hover:(a b)" s then "hover:a hover:b" +:+ drop_chars 11 s
  else match s with
       | EmptyString => EmptyString
       | String c s' => String c (expand s')
       end.

(** The words of a text, split at spaces. *)
Fixpoint words_from (word : string) (s : string) : list string :=
  match s with
  | EmptyString => if bool_decide (word = "") then [] else [word]
  | String c s' =>
      if bool_decide (c = " "%char)
      then (if bool_decide (word = "") then [] else [word]) ++ words_from "" s'
      else words_from (word +:+ String c "") s'
  end.

Definition scan_words (text : string) : list string :=
  JsSet.add_all (words_from "" text) [].

Definition rules (s : list string) : string :=
  foldr (λ t acc, "." +:+ t +:+ "{}" +:+ acc) "" s.

Definition toy_generate (g : config) (input : GenerateInput)
    (options : option GenerateOptions) (h : list string) : Generated (list string) :=
  match input with
  | InCode text =>
      let found := JsSet.add_all (cfg_safelist g) (scan_words text) in
      {| gen_answer :=
           if bool_decide (text = "throw") then Throw (Thrown "scan failed")
           else Ok {| css := rules found; matched := found |};
         gen_writes := [];
         gen_heap := h |}
  | InTokens s =>
      let all := JsSet.add_all (cfg_safelist g) s in
      {| gen_answer := Ok {| css := rules all; matched := all |};
         gen_writes := JsSet.Add <$> cfg_safelist g;
         gen_heap := h |}
  end.

Definition toy_idFilter (t : transformer) : option (string → bool) :=
  match t with
  | TsxOnly => Some (RegExp.test re_jsx_tsx)
  | Wipe => Some (λ id, bool_decide (id = "two.jsx"))
  | _ => None
  end.

(** A call that leaves everything but the buffer as it found it. *)
Definition quiet (answer : Result (option (TransformResult annotation))) (ms : buffer)
    (h : list string) : Transformed buffer annotation cleaner (list string) :=
  {| tr_answer := answer; tr_code := ms; tr_writes := []; tr_registered := []; tr_heap := h |}.

Definition toy_transform (t : transformer) (ms : buffer) (id : string)
    (ctx : option (UnocssPluginContext config config cleaner)) (h : list string)
    : Transformed buffer annotation cleaner (list string) :=
  match t with
  | VariantGroup =>
      quiet (Ok (Some {| highlightAnnotations :=
                           Some [{| offset := 0; len := 7; className := "hover:a" |};
                                 {| offset := 8; len := 7; className := "hover:b" |}] |}))
        {| original := original ms; current := expand (current ms) |} h
  | TsxOnly => quiet (Ok None) ms h
  | Broken => quiet (Throw (Thrown "transformer failed")) ms h
  | Leak =>
      {| tr_answer := Ok None; tr_code := ms; tr_writes := [JsSet.Add "leak"];
         tr_registered := []; tr_heap := h |}
  | Wipe =>
      {| tr_answer := Ok None; tr_code := ms; tr_writes := [JsSet.Clear];
         tr_registered := []; tr_heap := h |}
  | Mirror =>
      quiet (Ok None)
        {| original := original ms;
           current :=
             foldl (λ text t, text +:+ " " +:+ t) (current ms)
               (match ctx with Some c => ctx_tokens c | None => [] end) |} h
  | Hook =>
      {| tr_answer := Ok None; tr_code := ms; tr_writes := [];
         tr_registered := [Flush 0]; tr_heap := h |}
  end.

Definition toy_call_onTransform (f : callback) (id : string) (ms : buffer)
    (annotations : list annotation) (h : list string) : Result buffer * list string :=
  match f with
  | Append suffix => (Ok {| original := original ms; current := current ms +:+ suffix |}, h)
  | Reject => (Throw (Thrown "callback failed"), h)
  end.

Definition toy_call_cleanup (c : cleaner) (h : list string) : Result unit * list string :=
  match c with
  | Flush _ => (Ok tt, h)
  | Crash => (Throw (Thrown "cleanup failed"), h)
  | Fuse =>
      if bool_decide ("blown" ∈ h) then (Throw (Thrown "fuse blown"), h)
      else (Ok tt, h ++ ["blown"])
  end.

#[local] Instance externals : Externals :=
  {| UserConfig := config;
     Generator := config;
     SourceCodeTransformer := transformer;
     MagicString := buffer;
     SourceMap := string * string;
     HighlightAnnotation := annotation;
     OnTransform := callback;
     VoidFunction := cleaner;
     Heap := list string;
     process_cwd := "/work";
     loadConfig := λ root inline h, (Ok (default (configured None) inline), h);
     createGenerator := λ config h, (Ok config, h);
     config_transformers := cfg_transformers;
     generate := toy_generate;
     idFilter := toy_idFilter;
     transform := toy_transform;
     ms_new := λ code, {| original := code; current := code |};
     ms_toString := current;
     ms_generateMap := λ ms _, (original ms, current ms);
     call_onTransform := toy_call_onTransform;
     call_cleanup := toy_call_cleanup |}.

(** The world [unocss()] returns into, the collaborators having noted
    nothing. *)
Definition fresh : World (X := externals) := initial (X := externals) [].

(** The world as [buildStart] leaves it for a configuration, but for the
    log. *)
Definition started_with (c : config) : World (X := externals) :=
  set_context (X := externals) (c, c) (set_uno (X := externals) c fresh).

Definition started (ts : option (list transformer)) : World (X := externals) :=
  started_with (configured ts).

(** [{ onTransform: f }] and [{ generateCSS: false }] *)
Definition options_with_callback (f : callback) : UnoCSSPluginOptions (X := externals) :=
  {| opt_minify := None; opt_root := None; opt_filter := None; opt_fileName := None;
     opt_config := None; opt_generateCSS := None; opt_onTransform := Some f |}.

Definition options_without_css : UnoCSSPluginOptions (X := externals) :=
  {| opt_minify := None; opt_root := None; opt_filter := None; opt_fileName := None;
     opt_config := None; opt_generateCSS := Some false; opt_onTransform := None |}.

Definition with_callback (f : callback) : Bindings (X := externals) :=
  destructure (options_with_callback f).

Definition without_css : Bindings (X := externals) :=
  destructure options_without_css.

(** [unocss()] *)
Definition plain : Bindings (X := externals) := destructure (X := externals) no_options.

(** A world some way into a build: generator assigned, with tokens and
    cleanup callbacks collected. *)
Definition midway (ts : option (list transformer)) (found : list string)
    (registry : list cleaner) : World (X := externals) :=
  set_cleanup (X := externals) registry (set_tokens (X := externals) found (started ts)).

(** Two source files with their identifiers. *)
Definition file1 : string * string := ("a b", "one.tsx").
Definition file2 : string * string := ("c hover:(a b)", "two.jsx").

(** What the toy scan finds in a file once [VariantGroup] has run. *)
Definition found_in (file : string * string) : list string :=
  scan_words (expand file.1).

(** [{ config: { transformers } }], and every path-like option supplied *)
Definition options_with_config (ts : list transformer) : UnoCSSPluginOptions (X := externals) :=
  {| opt_minify := None; opt_root := None; opt_filter := None; opt_fileName := None;
     opt_config := Some (configured (Some ts)); opt_generateCSS := None;
     opt_onTransform := None |}.

Definition with_config (ts : list transformer) : Bindings (X := externals) :=
  destructure (options_with_config ts).

Definition options_supplied : UnoCSSPluginOptions (X := externals) :=
  {| opt_minify := Some true; opt_root := Some "/app";
     opt_filter := Some {| filter_id := Some (PGlob "**/*.vue"); filter_moduleType := None;
                           filter_code := None |};
     opt_fileName := Some "styles.css"; opt_config := None; opt_generateCSS := None;
     opt_onTransform := None |}.

(** Other options, the same [fileName] and [generateCSS] *)
Definition options_same_asset : UnoCSSPluginOptions (X := externals) :=
  {| opt_minify := Some false; opt_root := None; opt_filter := None;
     opt_fileName := Some "styles.css"; opt_config := Some (configured (Some [VariantGroup]));
     opt_generateCSS := Some true; opt_onTransform := Some Reject |}.

(** [{ fileName }] alone, and [{ root }] alone *)
Definition options_named (n : string) : UnoCSSPluginOptions (X := externals) :=
  {| opt_minify := None; opt_root := None; opt_filter := None; opt_fileName := Some n;
     opt_config := None; opt_generateCSS := None; opt_onTransform := None |}.

Definition options_rooted (r : string) : UnoCSSPluginOptions (X := externals) :=
  {| opt_minify := None; opt_root := Some r; opt_filter := None; opt_fileName := None;
     opt_config := None; opt_generateCSS := None; opt_onTransform := None |}.

(** Collaborators whose loader fails outside "/work" and whose generator
    cannot be built from a configuration that starts with [Broken]. *)
Definition strict_loadConfig (root : string) (inline : option config) (h : list string)
    : Result config * list string :=
  if bool_decide (root = "/work") then (Ok (default (configured None) inline), h)
  else (Throw (Thrown "no configuration"), h).

Definition strict_createGenerator (c : config) (h : list string)
    : Result config * list string :=
  match cfg_transformers c with
  | Some (Broken :: _) => (Throw (Thrown "bad transformer"), h)
  | _ => (Ok c, h)
  end.

#[local] Instance strict : Externals :=
  {| UserConfig := config;
     Generator := config;
     SourceCodeTransformer := transformer;
     MagicString := buffer;
     SourceMap := string * string;
     HighlightAnnotation := annotation;
     OnTransform := callback;
     VoidFunction := cleaner;
     Heap := list string;
     process_cwd := "/work";
     loadConfig := strict_loadConfig;
     createGenerator := strict_createGenerator;
     config_transformers := cfg_transformers;
     generate := toy_generate;
     idFilter := toy_idFilter;
     transform := toy_transform;
     ms_new := λ code, {| original := code; current := code |};
     ms_toString := current;
     ms_generateMap := λ ms _, (original ms, current ms);
     call_onTransform := toy_call_onTransform;
     call_cleanup := toy_call_cleanup |}.

(** [{ root }] and [{ config: { transformers } }] for the strict collaborators *)
Definition strict_at (root : string) (ts : option (list transformer))
    : Bindings (X := strict) :=
  destructure (X := strict)
    (@Build_UnoCSSPluginOptions strict None (Some root) None None (Some (configured ts)) None None).

End Demo.

(** * Facts *)

(** ** [Set<string>] *)

Module JsSetFacts.
Import JsSet.

Lemma add_present (x : string) (s : list string) : x ∈ s → add x s = s.
Proof. intros Hin. unfold add, has. by rewrite bool_decide_eq_true_2. Qed.

Lemma add_absent (x : string) (s : list string) : x ∉ s → add x s = s ++ [x].
Proof. intros Hout. unfold add, has. by rewrite bool_decide_eq_false_2. Qed.

Lemma elem_of_add (y x : string) (s : list string) : y ∈ add x s ↔ y = x ∨ y ∈ s.
Proof.
  destruct (decide (x ∈ s)) as [Hin|Hout].
  - rewrite add_present by done. naive_solver.
  - rewrite add_absent by done. set_solver.
Qed.

Lemma add_prefix (x : string) (s : list string) : s `prefix_of` add x s.
Proof.
  destruct (decide (x ∈ s)) as [Hin|Hout].
  - by rewrite add_present.
  - rewrite add_absent by done. by apply prefix_app_r.
Qed.

Lemma add_NoDup (x : string) (s : list string) : NoDup s → NoDup (add x s).
Proof.
  intros Hs. destruct (decide (x ∈ s)) as [Hin|Hout].
  - by rewrite add_present.
  - rewrite add_absent by done. apply NoDup_app. split_and!; [done| |apply NoDup_singleton].
    intros y Hy ->%list_elem_of_singleton. done.
Qed.

Lemma add_all_nil (dst : list string) : add_all [] dst = dst.
Proof. reflexivity. Qed.

Lemma add_all_cons (x : string) (src dst : list string) :
  add_all (x :: src) dst = add_all src (add x dst).
Proof. reflexivity. Qed.

Lemma elem_of_add_all (y : string) (src dst : list string) :
  y ∈ add_all src dst ↔ y ∈ src ∨ y ∈ dst.
Proof.
  revert dst. induction src as [|x src IH]; intros dst.
  - rewrite add_all_nil. set_solver.
  - rewrite add_all_cons, IH, elem_of_add. set_solver.
Qed.

Lemma add_all_prefix (src dst : list string) : dst `prefix_of` add_all src dst.
Proof.
  revert dst. induction src as [|x src IH]; intros dst.
  - by rewrite add_all_nil.
  - rewrite add_all_cons. etrans; [apply add_prefix | apply IH].
Qed.

Lemma add_all_NoDup (src dst : list string) : NoDup dst → NoDup (add_all src dst).
Proof.
  revert dst. induction src as [|x src IH]; intros dst Hdst.
  - by rewrite add_all_nil.
  - rewrite add_all_cons. by apply IH, add_NoDup.
Qed.

Lemma add_all_included (src dst : list string) : src ⊆ dst → add_all src dst = dst.
Proof.
  revert dst. induction src as [|x src IH]; intros dst Hsub; [done|].
  rewrite add_all_cons, add_present by set_solver. apply IH. set_solver.
Qed.

Lemma add_all_to_set (src dst : list string) :
  (list_to_set (add_all src dst) : gset string) = list_to_set dst ∪ list_to_set src.
Proof.
  apply set_eq. intros y.
  rewrite elem_of_union, !elem_of_list_to_set, elem_of_add_all. tauto.
Qed.

Lemma apply_all_nil (s : list string) : apply_all [] s = s.
Proof. reflexivity. Qed.

Lemma apply_all_cons (c : write) (cs : list write) (s : list string) :
  apply_all (c :: cs) s = apply_all cs (apply c s).
Proof. reflexivity. Qed.

Lemma apply_NoDup (c : write) (s : list string) : NoDup s → NoDup (apply c s).
Proof.
  intros Hs. destruct c as [x|x|]; cbn [apply].
  - by apply add_NoDup.
  - by apply NoDup_filter.
  - apply NoDup_nil_2.
Qed.

Lemma apply_all_NoDup (cs : list write) (s : list string) : NoDup s → NoDup (apply_all cs s).
Proof.
  revert s. induction cs as [|c cs IH]; intros s Hs; [done|].
  rewrite apply_all_cons. by apply IH, apply_NoDup.
Qed.

(** Writes that are all [add] remove nothing and reorder nothing. *)
Lemma apply_all_adds_prefix (cs : list write) (s : list string) :
  Forall is_add cs → s `prefix_of` apply_all cs s.
Proof.
  intros Hadds. revert s. induction Hadds as [|c cs Hc _ IH]; intros s; [done|].
  rewrite apply_all_cons. destruct c as [x| |]; [|done..].
  etrans; [apply add_prefix|apply IH].
Qed.

Lemma apply_all_adds (xs : list string) (s : list string) :
  apply_all (Add <$> xs) s = add_all xs s.
Proof.
  revert s. induction xs as [|x xs IH]; intros s; [done|].
  cbn [fmap list_fmap]. by rewrite apply_all_cons, add_all_cons, IH.
Qed.

End JsSetFacts.

(** ** The default filter *)

Section DefaultFilter.






End DefaultFilter.

(** ** The monad and the log *)

Section MonadFacts.
Context `{X : Externals}.

Lemma bind_run {A B : Type} (m : M A) (f : A → M B) (w : World) :
  (m ≫= f) w =
  match m w with
  | (Ok a, w') => f a w'
  | (Throw e, w') => (Throw e, w')
  end.
Proof. reflexivity. Qed.

Lemma logged_nil (w : World) : logged [] w = w.
Proof. destruct w. unfold logged, set_log. simpl. by rewrite app_nil_r. Qed.

Lemma logged_logged (l1 l2 : list Event) (w : World) :
  logged l2 (logged l1 w) = logged (l1 ++ l2) w.
Proof. unfold logged, set_log. simpl. by rewrite app_assoc. Qed.

Lemma log_logged (l : list Event) (w : World) : log (logged l w) = log w ++ l.
Proof. reflexivity. Qed.

Lemma set_heap_logged (h : Heap) (l : list Event) (w : World) :
  set_heap h (logged l w) = logged l (set_heap h w).
Proof. reflexivity. Qed.

Lemma set_tokens_logged (s : list string) (l : list Event) (w : World) :
  set_tokens s (logged l w) = logged l (set_tokens s w).
Proof. reflexivity. Qed.

Lemma set_tokens_same (w : World) : set_tokens (tokens w) w = w.
Proof. by destruct w. Qed.

Lemma set_heap_same (w : World) : set_heap (heap w) w = w.
Proof. by destruct w. Qed.

Lemma set_tokens_set_tokens (s1 s2 : list string) (w : World) :
  set_tokens s2 (set_tokens s1 w) = set_tokens s2 w.
Proof. reflexivity. Qed.

Lemma the_uno_assigned (property : string) (g : Generator) (w : World) :
  uno w = Some g → the_uno property w = (Ok g, w).
Proof. intros Hg. unfold the_uno. by rewrite Hg. Qed.

Lemma set_heap_set_heap (h1 h2 : Heap) (l1 l2 : list Event) (w : World) :
  set_heap h2 (logged l2 (set_heap h1 (logged l1 w))) = set_heap h2 (logged (l1 ++ l2) w).
Proof. unfold logged, set_log, set_heap. cbn. by rewrite app_assoc. Qed.

(** A call of a collaborator that is handed values only, component by
    component. *)
Lemma call_run {A : Type} (ev : Event) (f : Heap → Result A * Heap) (w : World) :
  call ev f w = ((f (heap w)).1, set_heap (f (heap w)).2 (logged [ev] w)).
Proof. reflexivity. Qed.

End MonadFacts.

(** ** The transformers, one after the other *)

Section ApplyTransformers.
Context `{X : Externals}.

Lemma transform_in_logged (t : SourceCodeTransformer) (code : MagicString) (id : string)
    (l : list Event) (w : World) :
  transform_in t code id (logged l w) = transform_in t code id w.
Proof. reflexivity. Qed.

Lemma absorb_logged (r : Transformed MagicString HighlightAnnotation VoidFunction Heap)
    (l : list Event) (w : World) :
  absorb r (logged l w) = logged l (absorb r w).
Proof. unfold absorb. cbn [context logged set_log]. by destruct (context w). Qed.

(** What a transformer's call leaves of each part of the world. *)
Lemma absorb_parts (r : Transformed MagicString HighlightAnnotation VoidFunction Heap)
    (w : World) :
  uno (absorb r w) = uno w ∧ context (absorb r w) = context w ∧
  emitted (absorb r w) = emitted w ∧ log (absorb r w) = log w ∧
  heap (absorb r w) = tr_heap r ∧
  tokens (absorb r w) =
    match context w with
    | Some _ => JsSet.apply_all (tr_writes r) (tokens w)
    | None => tokens w
    end ∧
  cleanup (absorb r w) =
    match context w with
    | Some _ => cleanup w ++ tr_registered r
    | None => cleanup w
    end.
Proof. unfold absorb. destruct (context w) eqn:Hc; cbn; by rewrite ?Hc. Qed.

Lemma sequential_calls_logged (ts : list SourceCodeTransformer) (code : MagicString)
    (id : string) (l : list Event) (w : World) :
  sequential_calls ts code id (logged l w) = sequential_calls ts code id w.
Proof.
  revert code w. induction ts as [|t ts IH]; intros code w; [done|].
  cbn [sequential_calls]. rewrite transform_in_logged, absorb_logged.
  by destruct (tr_answer _); rewrite ?IH.
Qed.

Lemma sequential_result_logged (ts : list SourceCodeTransformer) (code : MagicString)
    (id : string) (l : list Event) (w : World) :
  sequential_result ts code id (logged l w) = sequential_result ts code id w.
Proof.
  revert code w. induction ts as [|t ts IH]; intros code w; [done|].
  cbn [sequential_result]. rewrite transform_in_logged, absorb_logged.
  by destruct (tr_answer _); rewrite ?IH.
Qed.

Lemma sequential_world_logged (ts : list SourceCodeTransformer) (code : MagicString)
    (id : string) (l : list Event) (w : World) :
  sequential_world ts code id (logged l w) = logged l (sequential_world ts code id w).
Proof.
  revert code w. induction ts as [|t ts IH]; intros code w; [done|].
  cbn [sequential_world]. rewrite transform_in_logged, absorb_logged.
  by destruct (tr_answer _); rewrite ?IH.
Qed.

Lemma filter_accepts_cons (id : string) (t : SourceCodeTransformer) (l : list SourceCodeTransformer) :
  filter (λ t, accepts id t = true) (t :: l) =
  if accepts id t then t :: filter (λ t, accepts id t = true) l
  else filter (λ t, accepts id t = true) l.
Proof.
  rewrite filter_cons. destruct (accepts id t); by case_decide.
Qed.

Lemma loop_skips_or_calls (id : string) (t : SourceCodeTransformer) :
  match idFilter t with Some f => negb (f id) | None => false end = negb (accepts id t).
Proof. unfold accepts. by destruct (idFilter t). Qed.

Lemma call_transform_run (t : SourceCodeTransformer) (code : MagicString) (id : string)
    (w : World) :
  call_transform t code id w =
  (match tr_answer (transform_in t code id w) with
   | Ok result => Ok (tr_code (transform_in t code id w), result)
   | Throw e => Throw e
   end,
   logged [EvTransform t code id] (absorb (transform_in t code id w) w)).
Proof. unfold call_transform. by rewrite absorb_logged. Qed.

Lemma transformers_loop_spec (l : list SourceCodeTransformer) (code : MagicString)
    (id : string) (annotations : list HighlightAnnotation) (w : World) :
  transformers_loop l code id annotations w =
  (match sequential_result (filter (λ t, accepts id t = true) l) code id w with
   | Ok (final, per_transformer) => Ok (final, annotations ++ concat per_transformer)
   | Throw e => Throw e
   end,
   logged ((λ c, EvTransform c.1 c.2 id) <$>
             sequential_calls (filter (λ t, accepts id t = true) l) code id w)
     (sequential_world (filter (λ t, accepts id t = true) l) code id w)).
Proof.
  revert code annotations w.
  induction l as [|t l IH]; intros code annotations w.
  - simpl. by rewrite app_nil_r, logged_nil.
  - cbn [transformers_loop]. rewrite loop_skips_or_calls, filter_accepts_cons.
    destruct (accepts id t); cbn [negb].
    + rewrite bind_run, call_transform_run.
      cbn [sequential_result sequential_calls sequential_world].
      destruct (tr_answer (transform_in t code id w)) as [r|e].
      * rewrite IH, sequential_result_logged, sequential_calls_logged, sequential_world_logged.
        destruct (sequential_result _ _ id _) as [[final per]|e]; cbn [fmap list_fmap concat].
        -- rewrite logged_logged. f_equal. f_equal.
           destruct r as [[[a|]]|]; simpl; by rewrite <-?app_assoc, ?app_nil_r.
        -- by rewrite logged_logged.
      * done.
    + apply IH.
Qed.

Lemma applyTransformers_run (g : Generator) (code : MagicString) (id : string) (w : World) :
  uno w = Some g →
  applyTransformers code id w = spec_applyTransformers g code id w.
Proof.
  intros Hg. unfold applyTransformers, spec_applyTransformers, registered.
  rewrite bind_run. unfold the_uno. rewrite Hg. cbn [fst snd].
  destruct (config_transformers g) as [[|t l]|]; cbn [from_option Datatypes.id].
  - rewrite filter_nil. simpl. by rewrite logged_nil.
  - rewrite transformers_loop_spec.
    by destruct (sequential_result _ code id) as [[final per]|e].
  - rewrite filter_nil. simpl. by rewrite logged_nil.
Qed.

Lemma applyTransformers_unassigned (code : MagicString) (id : string) (w : World) :
  uno w = None →
  applyTransformers code id w =
  (Throw (TypeError "Cannot read properties of undefined (reading 'config')"), w).
Proof. intros Hg. unfold applyTransformers. rewrite bind_run. unfold the_uno. by rewrite Hg. Qed.

(** What the calls leave of each part of the world. *)
Lemma sequential_world_parts (ts : list SourceCodeTransformer) (code : MagicString)
    (id : string) (w : World) :
  uno (sequential_world ts code id w) = uno w ∧
  context (sequential_world ts code id w) = context w ∧
  emitted (sequential_world ts code id w) = emitted w ∧
  log (sequential_world ts code id w) = log w ∧
  cleanup w `prefix_of` cleanup (sequential_world ts code id w).
Proof.
  revert code w. induction ts as [|t ts IH]; intros code w; [done|].
  cbn [sequential_world].
  destruct (absorb_parts (transform_in t code id w) w) as (Hu & Hc & He & Hl & _ & _ & Hcl).
  assert (cleanup w `prefix_of` cleanup (absorb (transform_in t code id w) w)) as Hpre.
  { rewrite Hcl. destruct (context w); [by apply prefix_app_r|done]. }
  destruct (tr_answer _); [|done].
  destruct (IH (tr_code (transform_in t code id w)) (absorb (transform_in t code id w) w))
    as (-> & -> & -> & -> & Hpre').
  split_and!; [done..|]. by etrans.
Qed.

Lemma sequential_world_nothing_called (code : MagicString) (id : string) (w : World) :
  sequential_world [] code id w = w.
Proof. reflexivity. Qed.

(** Transformers that make no write call leave the accumulator as it is;
    transformers whose write calls are all [add] leave what it held in
    place. *)
Lemma sequential_world_keeps (ts : list SourceCodeTransformer) (code : MagicString)
    (id : string) (w : World) :
  Forall keeps_tokens ts → tokens (sequential_world ts code id w) = tokens w.
Proof.
  intros Hts. revert code w. induction Hts as [|t ts Ht _ IH]; intros code w; [done|].
  cbn [sequential_world].
  destruct (absorb_parts (transform_in t code id w) w) as (_ & _ & _ & _ & _ & Htok & _).
  assert (tokens (absorb (transform_in t code id w) w) = tokens w) as Hsame.
  { rewrite Htok. unfold transform_in. rewrite Ht. by destruct (context w). }
  destruct (tr_answer _); [|done]. by rewrite IH.
Qed.

Lemma sequential_world_only_adds (ts : list SourceCodeTransformer) (code : MagicString)
    (id : string) (w : World) :
  Forall only_adds ts → tokens w `prefix_of` tokens (sequential_world ts code id w).
Proof.
  intros Hts. revert code w. induction Hts as [|t ts Ht _ IH]; intros code w; [done|].
  cbn [sequential_world].
  destruct (absorb_parts (transform_in t code id w) w) as (_ & _ & _ & _ & _ & Htok & _).
  assert (tokens w `prefix_of` tokens (absorb (transform_in t code id w) w)) as Hpre.
  { rewrite Htok. destruct (context w); [|done].
    apply JsSetFacts.apply_all_adds_prefix, Ht. }
  destruct (tr_answer _); [|done]. etrans; [done|apply IH].
Qed.

Lemma sequential_world_NoDup (ts : list SourceCodeTransformer) (code : MagicString)
    (id : string) (w : World) :
  NoDup (tokens w) → NoDup (tokens (sequential_world ts code id w)).
Proof.
  revert code w. induction ts as [|t ts IH]; intros code w Hw; [done|].
  cbn [sequential_world].
  destruct (absorb_parts (transform_in t code id w) w) as (_ & _ & _ & _ & _ & Htok & _).
  assert (NoDup (tokens (absorb (transform_in t code id w) w))) as Hnd.
  { rewrite Htok. destruct (context w); [|done]. by apply JsSetFacts.apply_all_NoDup. }
  destruct (tr_answer _); [|done]. by apply IH.
Qed.

Lemma Forall_filter_accepts (P : SourceCodeTransformer → Prop) (id : string)
    (ts : list SourceCodeTransformer) :
  Forall P ts → Forall P (filter (λ t, accepts id t = true) ts).
Proof.
  rewrite !Forall_forall. intros Hts t [_ Hin]%list_elem_of_filter. by apply Hts.
Qed.

End ApplyTransformers.

(** ** One run of the handler *)

Section Handler.
Context `{X : Externals}.

Lemma callback_step_run (b : Bindings) (id : string) (ms : MagicString)
    (annotations : list HighlightAnnotation) (w : World) :
  callback_step b id ms annotations w =
  match onTransform b with
  | Some f =>
      ((call_onTransform f id ms annotations (heap w)).1,
       set_heap (call_onTransform f id ms annotations (heap w)).2
         (logged [EvOnTransform id ms annotations] w))
  | None => (Ok ms, w)
  end.
Proof. unfold callback_step. by destruct (onTransform b). Qed.

(** The callback reaches the collaborators' state and the log, nothing
    else. *)
Lemma callback_step_parts (b : Bindings) (id : string) (ms : MagicString)
    (annotations : list HighlightAnnotation) (w : World) :
  uno (callback_step b id ms annotations w).2 = uno w ∧
  context (callback_step b id ms annotations w).2 = context w ∧
  tokens (callback_step b id ms annotations w).2 = tokens w ∧
  cleanup (callback_step b id ms annotations w).2 = cleanup w ∧
  emitted (callback_step b id ms annotations w).2 = emitted w ∧
  log (callback_step b id ms annotations w).2 =
    log w ++ match onTransform b with
             | Some _ => [EvOnTransform id ms annotations]
             | None => []
             end.
Proof.
  rewrite callback_step_run. destruct (onTransform b); cbn; by rewrite ?app_nil_r.
Qed.

Lemma scan_run (b : Bindings) (g : Generator) (id : string) (ms : MagicString) (w : World) :
  uno w = Some g →
  scan b id ms w =
  (gen_answer (generate g (InCode (ms_toString ms)) (scan_options b id) (heap w)),
   set_heap (gen_heap (generate g (InCode (ms_toString ms)) (scan_options b id) (heap w)))
     (logged [scan_event b id ms] w)).
Proof. intros Hg. unfold scan. rewrite bind_run. unfold the_uno. by rewrite Hg. Qed.

Lemma scan_unassigned (b : Bindings) (id : string) (ms : MagicString) (w : World) :
  uno w = None →
  scan b id ms w =
  (Throw (TypeError "Cannot read properties of undefined (reading 'generate')"), w).
Proof. intros Hg. unfold scan. rewrite bind_run. unfold the_uno. by rewrite Hg. Qed.

(** The scan reaches the collaborators' state and the log, nothing else. *)
Lemma scan_parts (b : Bindings) (id : string) (ms : MagicString) (w : World) :
  uno (scan b id ms w).2 = uno w ∧
  context (scan b id ms w).2 = context w ∧
  tokens (scan b id ms w).2 = tokens w ∧
  cleanup (scan b id ms w).2 = cleanup w ∧
  emitted (scan b id ms w).2 = emitted w ∧
  log (scan b id ms w).2 =
    log w ++ match uno w with Some _ => [scan_event b id ms] | None => [] end.
Proof.
  destruct (uno w) as [g|] eqn:Hg.
  - rewrite (scan_run b g) by done. cbn. by rewrite Hg.
  - rewrite scan_unassigned by done. cbn. by rewrite Hg, app_nil_r.
Qed.

Lemma insert_matched_run (r : GenerateResult) (w : World) :
  (if bool_decide (0 < JsSet.size (matched r))
   then modify (λ w, set_tokens (JsSet.add_all (matched r) (tokens w)) w)
   else mret tt) w = (Ok tt, set_tokens (JsSet.add_all (matched r) (tokens w)) w).
Proof.
  case_bool_decide as Hsize; [done|].
  destruct (matched r) as [|t ts]; [|simpl in Hsize; lia].
  by rewrite JsSetFacts.add_all_nil, set_tokens_same.
Qed.

Lemma collect_run (ms : MagicString) (r : GenerateResult) (w : World) :
  collect ms r w = (Ok (output_of ms), set_tokens (JsSet.add_all (matched r) (tokens w)) w).
Proof. unfold collect. by rewrite bind_run, insert_matched_run. Qed.

(** The handler is its three phases, one after the other. *)
Lemma handler_phases (b : Bindings) (code id : string) (w : World) :
  handler b code id w = (ms ← prescan b code id; r ← scan b id ms; collect ms r) w.
Proof.
  unfold handler, prescan, callback_step. rewrite !bind_run.
  destruct (applyTransformers (ms_new code) id w) as [[[ms1 anns]|e] w1]; [|done].
  assert (∀ (ms2 : MagicString) (w2 : World),
    (u ← the_uno "generate";
     r ← call_generate u (InCode (ms_toString ms2))
            (Some {| go_id := Some id; go_minify := minify b |});
     (if bool_decide (0 < JsSet.size (matched r))
      then modify (λ w, set_tokens (JsSet.add_all (matched r) (tokens w)) w)
      else mret tt);;
     mret {| out_code := ms_toString ms2; out_map := ms_generateMap ms2 {| hires := true |} |}) w2 =
    (r ← scan b id ms2; collect ms2 r) w2) as Htail.
  { intros ms2 w2. unfold scan, scan_options. rewrite !bind_run.
    destruct (the_uno "generate" w2) as [[u|e] w3]; [|done].
    rewrite bind_run.
    by destruct (call_generate _ _ _ w3) as [[r|e] w4]. }
  destruct (onTransform b) as [f|].
  - rewrite bind_run. destruct (call _ _ w1) as [[ms2|e] w2]; [apply Htail|done].
  - apply Htail.
Qed.

Lemma handler_phases_run (b : Bindings) (code id : string) (w : World) :
  handler b code id w =
  match prescan b code id w with
  | (Ok ms, w1) =>
      match scan b id ms w1 with
      | (Ok r, w2) => (Ok (output_of ms), set_tokens (JsSet.add_all (matched r) (tokens w2)) w2)
      | (Throw e, w2) => (Throw e, w2)
      end
  | (Throw e, w1) => (Throw e, w1)
  end.
Proof.
  rewrite handler_phases, bind_run.
  destruct (prescan b code id w) as [[ms|e] w1]; [|done].
  rewrite bind_run. destruct (scan b id ms w1) as [[r|e] w2]; [|done].
  apply collect_run.
Qed.

Lemma prescan_run (b : Bindings) (code id : string) (w : World) :
  prescan b code id w =
  match applyTransformers (ms_new code) id w with
  | (Ok (ms1, annotations), w1) => callback_step b id ms1 annotations w1
  | (Throw e, w1) => (Throw e, w1)
  end.
Proof.
  unfold prescan. rewrite bind_run.
  by destruct (applyTransformers (ms_new code) id w) as [[[ms1 annotations]|e] w1].
Qed.

Lemma handler_unassigned (b : Bindings) (code id : string) (w : World) :
  uno w = None →
  handler b code id w =
  (Throw (TypeError "Cannot read properties of undefined (reading 'config')"), w).
Proof.
  intros Hg. unfold handler, applyTransformers. rewrite !bind_run. unfold the_uno. by rewrite Hg.
Qed.

(** What [applyTransformers] leaves of each part of the world. *)
Lemma applyTransformers_parts (code : MagicString) (id : string) (w : World) :
  uno (applyTransformers code id w).2 = uno w ∧
  context (applyTransformers code id w).2 = context w ∧
  emitted (applyTransformers code id w).2 = emitted w ∧
  cleanup w `prefix_of` cleanup (applyTransformers code id w).2 ∧
  ∃ evs, log (applyTransformers code id w).2 = log w ++ evs ∧ Forall is_transform_call evs.
Proof.
  destruct (uno w) as [g|] eqn:Hg.
  - rewrite (applyTransformers_run g) by done. unfold spec_applyTransformers. cbn [snd].
    destruct (sequential_world_parts (filter (λ t, accepts id t = true) (registered g)) code id w)
      as (Hu & Hc & He & Hl & Hcl).
    cbn [uno context emitted cleanup logged set_log].
    split_and!; [congruence..|done|]. eexists. split.
    + rewrite log_logged, Hl. done.
    + apply Forall_fmap, Forall_true. by intros [t ms].
  - rewrite applyTransformers_unassigned by done. cbn [snd].
    split_and!; [congruence..|done|]. exists []. by rewrite app_nil_r.
Qed.

Lemma applyTransformers_ok_assigned (code : MagicString) (id : string) (w : World)
    (res : MagicString * list HighlightAnnotation) (w1 : World) :
  applyTransformers code id w = (Ok res, w1) → ∃ g, uno w = Some g.
Proof.
  destruct (uno w) as [g|] eqn:Hg; [by exists g|].
  by rewrite applyTransformers_unassigned.
Qed.

(** The accumulator after [applyTransformers], for transformers that leave
    it alone, or that only add to it. *)
Lemma applyTransformers_keeps (g : Generator) (code : MagicString) (id : string) (w : World) :
  uno w = Some g → Forall keeps_tokens (registered g) →
  tokens (applyTransformers code id w).2 = tokens w.
Proof.
  intros Hg Hkeep. rewrite (applyTransformers_run g) by done. unfold spec_applyTransformers.
  cbn [snd logged set_log tokens]. by apply sequential_world_keeps, Forall_filter_accepts.
Qed.

Lemma applyTransformers_only_adds (g : Generator) (code : MagicString) (id : string)
    (w : World) :
  uno w = Some g → Forall only_adds (registered g) →
  tokens w `prefix_of` tokens (applyTransformers code id w).2.
Proof.
  intros Hg Hadds. rewrite (applyTransformers_run g) by done. unfold spec_applyTransformers.
  cbn [snd logged set_log tokens]. by apply sequential_world_only_adds, Forall_filter_accepts.
Qed.

Lemma applyTransformers_NoDup (code : MagicString) (id : string) (w : World) :
  NoDup (tokens w) → NoDup (tokens (applyTransformers code id w).2).
Proof.
  intros Hw. destruct (uno w) as [g|] eqn:Hg.
  - rewrite (applyTransformers_run g) by done. unfold spec_applyTransformers.
    cbn [snd logged set_log tokens]. by apply sequential_world_NoDup.
  - by rewrite applyTransformers_unassigned.
Qed.

(** The parts of the world after the phases before the scan. *)
Lemma prescan_parts (b : Bindings) (code id : string) (w : World) :
  uno (prescan b code id w).2 = uno w ∧
  context (prescan b code id w).2 = context w ∧
  emitted (prescan b code id w).2 = emitted w ∧
  tokens (prescan b code id w).2 = tokens (applyTransformers (ms_new code) id w).2 ∧
  cleanup (prescan b code id w).2 = cleanup (applyTransformers (ms_new code) id w).2.
Proof.
  rewrite prescan_run.
  destruct (applyTransformers_parts (ms_new code) id w) as (Hu & Hc & He & _ & _).
  destruct (applyTransformers (ms_new code) id w) as [[[ms1 anns]|e] w1]; cbn [snd] in *; [|done].
  destruct (callback_step_parts b id ms1 anns w1) as (-> & -> & -> & -> & -> & _). done.
Qed.

(** The parts of a run of the handler that returned. *)
Lemma handler_ok_inv (b : Bindings) (code id : string) (w : World)
    (out : TransformOutput) (w' : World) :
  handler b code id w = (Ok out, w') →
  ∃ g ms1 annotations w1 ms2 w2 r,
    uno w = Some g ∧
    applyTransformers (ms_new code) id w = (Ok (ms1, annotations), w1) ∧
    callback_step b id ms1 annotations w1 = (Ok ms2, w2) ∧
    gen_answer (generate g (InCode (ms_toString ms2)) (scan_options b id) (heap w2)) = Ok r ∧
    out = output_of ms2 ∧
    w' = set_tokens (JsSet.add_all (matched r) (tokens w2))
           (set_heap (gen_heap (generate g (InCode (ms_toString ms2)) (scan_options b id) (heap w2)))
              (logged [scan_event b id ms2] w2)).
Proof.
  destruct (uno w) as [g|] eqn:Hg; [|by rewrite handler_unassigned].
  rewrite handler_phases_run, prescan_run.
  pose proof (applyTransformers_parts (ms_new code) id w) as (Hu & _).
  destruct (applyTransformers (ms_new code) id w) as [[[ms1 annotations]|e] w1] eqn:Happly;
    cbn [snd] in Hu; [|done].
  pose proof (callback_step_parts b id ms1 annotations w1) as (Hu2 & _).
  destruct (callback_step b id ms1 annotations w1) as [[ms2|e] w2] eqn:Hcb;
    cbn [snd] in Hu2; [|done].
  rewrite (scan_run b g) by congruence.
  destruct (gen_answer _) as [r|e] eqn:Hscan; [|done].
  intros [= <- <-]. by exists g, ms1, annotations, w1, ms2, w2, r.
Qed.

(** The parts of the world after a run of the handler, returned or not:
    the handler's own doing is the insertion of what a scan matched, behind
    what the transformers left. *)
Lemma handler_parts (b : Bindings) (code id : string) (w : World) :
  uno (handler b code id w).2 = uno w ∧
  context (handler b code id w).2 = context w ∧
  emitted (handler b code id w).2 = emitted w ∧
  cleanup (handler b code id w).2 = cleanup (applyTransformers (ms_new code) id w).2 ∧
  ∃ found,
    tokens (handler b code id w).2 =
      JsSet.add_all found (tokens (applyTransformers (ms_new code) id w).2) ∧
    (is_ok (handler b code id w).1 = false → found = []).
Proof.
  rewrite handler_phases_run.
  destruct (prescan_parts b code id w) as (Hu & Hc & He & Ht & Hcl).
  destruct (prescan b code id w) as [[ms|e] w1]; cbn [snd] in *.
  - destruct (scan_parts b id ms w1) as (Hu2 & Hc2 & Ht2 & Hcl2 & He2 & _).
    destruct (scan b id ms w1) as [[r|e] w2]; cbn [fst snd] in *.
    + cbn [uno context emitted cleanup tokens set_tokens].
      split_and!; [congruence..|]. exists (matched r). split; [congruence|done].
    + split_and!; [congruence..|]. exists []. split; [cbn; congruence|done].
  - split_and!; [congruence..|]. exists []. split; [cbn; congruence|done].
Qed.

(** The log of a run: the transformer calls, then the callback if one was
    supplied, then the scan; each only if what comes before it returned. *)
Lemma handler_log (b : Bindings) (code id : string) (w : World) :
  log (handler b code id w).2 =
  log (applyTransformers (ms_new code) id w).2 ++
  match applyTransformers (ms_new code) id w with
  | (Ok (ms1, annotations), w1) =>
      match onTransform b with
      | Some _ => [EvOnTransform id ms1 annotations]
      | None => []
      end ++
      match callback_step b id ms1 annotations w1 with
      | (Ok ms2, _) => [scan_event b id ms2]
      | (Throw _, _) => []
      end
  | (Throw _, _) => []
  end.
Proof.
  rewrite handler_phases_run, prescan_run.
  pose proof (applyTransformers_parts (ms_new code) id w) as (Hu & _).
  destruct (applyTransformers (ms_new code) id w) as [[[ms1 annotations]|e] w1] eqn:Happly;
    cbn [snd] in *; [|by rewrite app_nil_r].
  destruct (applyTransformers_ok_assigned _ _ _ _ _ Happly) as [g Hg].
  destruct (callback_step_parts b id ms1 annotations w1) as (Hu2 & _ & _ & _ & _ & Hl).
  destruct (callback_step b id ms1 annotations w1) as [[ms2|e] w2]; cbn [snd] in *.
  - destruct (scan_parts b id ms2 w2) as (_ & _ & _ & _ & _ & Hl2).
    assert (uno w2 = Some g) as Hg2 by congruence. rewrite Hg2 in Hl2.
    destruct (scan b id ms2 w2) as [[r|e] w3]; cbn [snd log set_tokens] in *;
      by rewrite Hl2, Hl, <-app_assoc.
  - by rewrite Hl, app_nil_r.
Qed.

End Handler.

(** ** The transform step *)

Section TransformStep.
Context `{X : Externals}.

(** *** What the log of one handler run contains *)

Lemma scan_inputs_app (l1 l2 : list Event) :
  scan_inputs (l1 ++ l2) = scan_inputs l1 ++ scan_inputs l2.
Proof. apply omap_app. Qed.

Lemma onTransform_calls_app (l1 l2 : list Event) :
  onTransform_calls (l1 ++ l2) = onTransform_calls l1 ++ onTransform_calls l2.
Proof. apply omap_app. Qed.

Lemma transform_calls_only (id : string) (calls : list (SourceCodeTransformer * MagicString)) :
  Forall is_transform_call ((λ c, EvTransform c.1 c.2 id) <$> calls).
Proof. apply Forall_fmap, Forall_true. by intros [t ms]. Qed.

Lemma scan_inputs_transform_calls (evs : list Event) :
  Forall is_transform_call evs → scan_inputs evs = [].
Proof. induction 1 as [|[] evs Hev _ IH]; by simpl in *. Qed.

Lemma onTransform_calls_transform_calls (evs : list Event) :
  Forall is_transform_call evs → onTransform_calls evs = [].
Proof. induction 1 as [|[] evs Hev _ IH]; by simpl in *. Qed.

(** *** The sequential run *)

Lemma sequential_calls_accepted (ts : list SourceCodeTransformer) (code : MagicString)
    (id : string) (w : World) :
  (sequential_calls ts code id w).*1 `prefix_of` ts.
Proof.
  revert code w. induction ts as [|t ts IH]; intros code w; [done|].
  cbn [sequential_calls fmap list_fmap fst]. apply prefix_cons.
  destruct (tr_answer (transform_in t code id w)); [apply IH|apply prefix_nil].
Qed.

Lemma sequential_calls_all (ts : list SourceCodeTransformer) (code : MagicString)
    (id : string) (w : World) :
  is_ok (sequential_result ts code id w) = true →
  (sequential_calls ts code id w).*1 = ts.
Proof.
  revert code w. induction ts as [|t ts IH]; intros code w; [done|].
  cbn [sequential_calls sequential_result fmap list_fmap fst].
  destruct (tr_answer (transform_in t code id w)) as [r|e]; [|done].
  intros Hok. f_equal. apply IH.
  by destruct (sequential_result ts _ id _) as [[]|].
Qed.

(** A transformer that throws where its predecessors have returned: its
    call is the last. *)
Lemma sequential_stops_at_throw (before after : list SourceCodeTransformer)
    (t : SourceCodeTransformer) (code buf : MagicString) (id : string)
    (per : list (list HighlightAnnotation)) (e : JsError) (w : World) :
  sequential_result before code id w = Ok (buf, per) →
  tr_answer (transform_in t buf id (sequential_world before code id w)) = Throw e →
  sequential_result (before ++ t :: after) code id w = Throw e ∧
  sequential_calls (before ++ t :: after) code id w =
    sequential_calls before code id w ++ [(t, buf)] ∧
  sequential_world (before ++ t :: after) code id w =
    absorb (transform_in t buf id (sequential_world before code id w))
      (sequential_world before code id w).
Proof.
  revert code per w. induction before as [|t' before IH]; intros code per w.
  - intros [= -> _] Hthrow. cbn in *. by rewrite Hthrow.
  - cbn [sequential_result sequential_calls sequential_world app].
    destruct (tr_answer (transform_in t' code id w)) as [r|e']; [|done].
    destruct (sequential_result before _ id _) as [[buf' per']|e'] eqn:Hrest; [|done].
    intros [= -> _] Hthrow. by destruct (IH _ per' _ Hrest Hthrow) as (-> & -> & ->).
Qed.

(** C5.  [applyTransformers] does what the specification describes: it keeps
    the registered transformers whose identifier filter accepts the file (a
    transformer without a filter accepts every file), calls them one after the
    other in list order, each on the buffer and in the world its predecessor
    left, and returns the concatenation, in that order, of the highlight
    annotations they returned.  A rejected transformer is never called and
    contributes nothing; when no call throws, every accepted transformer is
    called exactly once. *)
Theorem applyTransformers_in_list_order (g : Generator) (code : MagicString) (id : string)
    (w : World) :
  uno w = Some g →
  let invoked := filter (λ t, accepts id t = true) (registered g) in
  let calls := sequential_calls invoked code id w in
  applyTransformers code id w =
    ((spec_applyTransformers g code id w).1,
     logged ((λ c, EvTransform c.1 c.2 id) <$> calls) (sequential_world invoked code id w)) ∧
  log (applyTransformers code id w).2 = log w ++ ((λ c, EvTransform c.1 c.2 id) <$> calls) ∧
  calls.*1 `prefix_of` invoked ∧
  (∀ t, t ∈ calls.*1 → t ∈ registered g ∧ accepts id t = true) ∧
  (∀ final annotations,
     (applyTransformers code id w).1 = Ok (final, annotations) →
     calls.*1 = invoked ∧
     ∃ per_transformer,
       sequential_result invoked code id w = Ok (final, per_transformer) ∧
       annotations = concat per_transformer).
Proof.
  intros Hg invoked calls. split_and!.
  - by rewrite (applyTransformers_run g).
  - subst calls invoked. rewrite (applyTransformers_run g) by done.
    unfold spec_applyTransformers. cbn [snd]. rewrite log_logged.
    by destruct (sequential_world_parts (filter (λ t, accepts id t = true) (registered g))
                   code id w) as (_ & _ & _ & -> & _).
  - apply sequential_calls_accepted.
  - intros t Ht.
    assert (t ∈ invoked) as Hin.
    { eapply elem_of_prefix; [done|]. apply sequential_calls_accepted. }
    by apply list_elem_of_filter in Hin as [? ?].
  - intros final annotations. rewrite (applyTransformers_run g) by done.
    unfold spec_applyTransformers. cbn [fst snd]. fold invoked.
    destruct (sequential_result invoked code id w) as [[final' per]|e] eqn:Hres; [|done].
    intros [= <- <-]. split.
    + apply sequential_calls_all. by rewrite Hres.
    + by exists per.
Qed.

(** C1.  When the handler returns, the text it handed to the generator for
    scanning is the buffer materialized after every transformer and the
    optional [onTransform] have edited it, the scan is the only one of this
    run, and the [code] it returns is that same string. *)
Theorem handler_scans_the_text_it_returns (b : Bindings) (code id : string) (w : World)
    (out : TransformOutput) (w' : World) :
  handler b code id w = (Ok out, w') →
  ∃ ms1 annotations w1 ms2 w2,
    applyTransformers (ms_new code) id w = (Ok (ms1, annotations), w1) ∧
    callback_step b id ms1 annotations w1 = (Ok ms2, w2) ∧
    scan_inputs (log w') = scan_inputs (log w) ++ [ms_toString ms2] ∧
    out_code out = ms_toString ms2.
Proof.
  intros Hrun. pose proof (handler_log b code id w) as Hlog. rewrite Hrun in Hlog.
  apply handler_ok_inv in Hrun
    as (g & ms1 & annotations & w1 & ms2 & w2 & r & Hg & Happly & Hcb & Hscan & -> & Hw').
  exists ms1, annotations, w1, ms2, w2. split_and!; [done..| |done].
  destruct (applyTransformers_parts (ms_new code) id w) as (_ & _ & _ & _ & evs & Hevs & Hcalls).
  rewrite Happly, Hcb in Hlog. rewrite Happly in Hevs. cbn [snd] in Hlog, Hevs.
  rewrite Hlog, Hevs, !scan_inputs_app, (scan_inputs_transform_calls evs) by done.
  rewrite app_nil_r. by destruct (onTransform b).
Qed.

(** C3.  In a run of the handler whose transformers have all returned, a
    supplied [onTransform] is called exactly once; every transformer call of
    the run precedes it and nothing but the scan follows it; it receives the
    file identifier, the buffer as the transformers left it and the annotation
    list that [applyTransformers] returned, which is the concatenation of what
    every invoked transformer annotated; and the text scanned afterwards is
    the buffer the callback handed back. *)
Theorem onTransform_once_after_transformers_before_scan (b : Bindings) (f : OnTransform)
    (code id : string) (w : World) (ms1 : MagicString)
    (annotations : list HighlightAnnotation) (w1 : World) :
  onTransform b = Some f →
  applyTransformers (ms_new code) id w = (Ok (ms1, annotations), w1) →
  ∃ evs after,
    log w1 = log w ++ evs ∧
    Forall is_transform_call evs ∧
    log (handler b code id w).2 = log w ++ evs ++ [EvOnTransform id ms1 annotations] ++ after ∧
    after = match (call_onTransform f id ms1 annotations (heap w1)).1 with
            | Ok ms2 => [scan_event b id ms2]
            | Throw _ => []
            end ∧
    onTransform_calls (log (handler b code id w).2) =
      onTransform_calls (log w) ++ [(id, ms1, annotations)] ∧
    ∃ g per_transformer,
      uno w = Some g ∧
      w1 = logged evs
             (sequential_world (filter (λ t, accepts id t = true) (registered g))
                (ms_new code) id w) ∧
      sequential_result (filter (λ t, accepts id t = true) (registered g))
        (ms_new code) id w = Ok (ms1, per_transformer) ∧
      annotations = concat per_transformer.
Proof.
  intros Hf Happly.
  destruct (applyTransformers_ok_assigned _ _ _ _ _ Happly) as [g Hg].
  pose proof (handler_log b code id w) as Hlog.
  rewrite Happly, Hf, callback_step_run, Hf in Hlog. cbn [fst snd] in Hlog.
  rewrite (applyTransformers_run g) in Happly by done.
  unfold spec_applyTransformers in Happly.
  destruct (sequential_result _ (ms_new code) id w) as [[final per]|e] eqn:Hres; [|done].
  injection Happly as -> <- <-.
  set (invoked := filter (λ t, accepts id t = true) (registered g)) in *.
  set (evs := (λ c, EvTransform c.1 c.2 id) <$> sequential_calls invoked (ms_new code) id w) in *.
  assert (log (logged evs (sequential_world invoked (ms_new code) id w)) = log w ++ evs) as Hl1.
  { rewrite log_logged.
    by destruct (sequential_world_parts invoked (ms_new code) id w) as (_ & _ & _ & -> & _). }
  assert (Forall is_transform_call evs) as Hevs by apply transform_calls_only.
  rewrite Hl1 in Hlog. cbn [heap logged set_log] in Hlog |- *.
  eexists evs, _. split_and!; [done|done| |reflexivity| |].
  - by rewrite Hlog, <-!app_assoc.
  - rewrite Hlog, !onTransform_calls_app, (onTransform_calls_transform_calls evs) by done.
    cbn [onTransform_calls omap list_omap app]. rewrite app_nil_r.
    destruct (call_onTransform f id _ (concat per) _) as [[ms2|e] h']; cbn; by rewrite ?app_nil_r.
  - by exists g, per.
Qed.

(** C6, as the code has it.  A throw by a transformer, by [onTransform] or
    by the scan is the handler's throw: the handler answers with the exception
    and with nothing else (no code, no source map).  The handler itself has
    then inserted nothing: the accumulator and the registry are as the
    transformers that were called left them, the rest of the plugin's state is
    as before; so the accumulator is as before when the transformers invoked
    for the file make no write call on [context.tokens]. *)
Theorem failed_transform_leaves_no_result_and_no_tokens (b : Bindings) (code id : string)
    (w : World) :
  (∀ g before t after buf per e,
     uno w = Some g →
     filter (λ t, accepts id t = true) (registered g) = before ++ t :: after →
     sequential_result before (ms_new code) id w = Ok (buf, per) →
     tr_answer (transform_in t buf id (sequential_world before (ms_new code) id w)) = Throw e →
     (handler b code id w).1 = Throw e) ∧
  (∀ ms1 annotations w1 f e,
     applyTransformers (ms_new code) id w = (Ok (ms1, annotations), w1) →
     onTransform b = Some f →
     (call_onTransform f id ms1 annotations (heap w1)).1 = Throw e →
     (handler b code id w).1 = Throw e) ∧
  (∀ g ms2 w2 e,
     uno w = Some g →
     prescan b code id w = (Ok ms2, w2) →
     gen_answer (generate g (InCode (ms_toString ms2)) (scan_options b id) (heap w2)) = Throw e →
     (handler b code id w).1 = Throw e) ∧
  (∀ e w',
     handler b code id w = (Throw e, w') →
     tokens w' = tokens (applyTransformers (ms_new code) id w).2 ∧
     cleanup w' = cleanup (applyTransformers (ms_new code) id w).2 ∧
     emitted w' = emitted w ∧ uno w' = uno w ∧ context w' = context w ∧
     (∀ g, uno w = Some g →
           Forall keeps_tokens (filter (λ t, accepts id t = true) (registered g)) →
           tokens w' = tokens w)).
Proof.
  split_and!.
  - intros g before t after buf per e Hg Hinvoked Hbefore Hthrow.
    rewrite handler_phases_run, prescan_run, (applyTransformers_run g) by done.
    unfold spec_applyTransformers. rewrite Hinvoked.
    by destruct (sequential_stops_at_throw before after t (ms_new code) buf id per e w
                   Hbefore Hthrow) as (-> & _ & _).
  - intros ms1 annotations w1 f e Happly Hf Hthrow.
    rewrite handler_phases_run, prescan_run, Happly, callback_step_run, Hf.
    by rewrite Hthrow.
  - intros g ms2 w2 e Hg Hpre Hthrow.
    rewrite handler_phases_run, Hpre.
    assert (uno w2 = Some g) as Hg2.
    { destruct (prescan_parts b code id w) as (Hu & _). rewrite Hpre in Hu. cbn [snd] in Hu.
      congruence. }
    by rewrite (scan_run b g), Hthrow.
  - intros e w' Hrun.
    destruct (handler_parts b code id w) as (Hu & Hc & He & Hcl & found & Ht & Hnone).
    rewrite Hrun in Hu, Hc, He, Hcl, Ht, Hnone. cbn [fst snd is_ok] in *.
    rewrite (Hnone eq_refl), JsSetFacts.add_all_nil in Ht.
    split_and!; [done..|].
    intros g Hg Hkeep. rewrite Ht, (applyTransformers_run g) by done.
    unfold spec_applyTransformers. cbn [snd logged set_log tokens].
    by apply sequential_world_keeps.
Qed.

End TransformStep.

(** ** The hooks one by one *)

Section Hooks.
Context `{X : Externals}.

Lemma buildStart_run (b : Bindings) (w : World) :
  buildStart b w =
  match (loadConfig (root b) (inlineConfig b) (heap w)).1 with
  | Ok config =>
      match (createGenerator config (loadConfig (root b) (inlineConfig b) (heap w)).2).1 with
      | Ok g =>
          (Ok tt,
           set_context (g, config)
             (set_uno g
                (set_heap
                   (createGenerator config (loadConfig (root b) (inlineConfig b) (heap w)).2).2
                   (logged [EvLoadConfig (root b) (inlineConfig b); EvCreateGenerator config] w))))
      | Throw e =>
          (Throw e,
           set_heap (createGenerator config (loadConfig (root b) (inlineConfig b) (heap w)).2).2
             (logged [EvLoadConfig (root b) (inlineConfig b); EvCreateGenerator config] w))
      end
  | Throw e =>
      (Throw e,
       set_heap (loadConfig (root b) (inlineConfig b) (heap w)).2
         (logged [EvLoadConfig (root b) (inlineConfig b)] w))
  end.
Proof.
  unfold buildStart. rewrite bind_run, call_run.
  destruct (loadConfig (root b) (inlineConfig b) (heap w)) as [[config|e] h1]; cbn [fst snd]; [|done].
  rewrite bind_run, call_run. cbn [heap set_heap logged set_log].
  fold (logged [EvLoadConfig (root b) (inlineConfig b)] w).
  destruct (createGenerator config h1) as [[g|e] h2]; cbn [fst snd].
  - change (set_heap h2 (logged [EvCreateGenerator config]
              (set_heap h1 (logged [EvLoadConfig (root b) (inlineConfig b)] w))))
      with (set_heap h2 (logged [EvCreateGenerator config]
              (set_heap h1 (logged [EvLoadConfig (root b) (inlineConfig b)] w)))).
    rewrite bind_run. cbn [modify]. by rewrite set_heap_set_heap.
  - by rewrite set_heap_set_heap.
Qed.

(** [buildStart] reaches [uno], [context], the collaborators' state and the
    log, nothing else. *)
Lemma buildStart_frame (b : Bindings) (w : World) :
  tokens (buildStart b w).2 = tokens w ∧
  cleanup (buildStart b w).2 = cleanup w ∧
  emitted (buildStart b w).2 = emitted w.
Proof.
  rewrite buildStart_run. destruct (loadConfig _ _ _).1 as [config|e]; [|done].
  by destruct (createGenerator config _).1.
Qed.

Lemma buildStart_log (b : Bindings) (w : World) :
  ∃ l, log (buildStart b w).2 = log w ++ EvLoadConfig (root b) (inlineConfig b) :: l ∧
       (∀ input options, EvGenerate input options ∉ l).
Proof.
  rewrite buildStart_run. destruct (loadConfig _ _ _).1 as [config|e].
  - exists [EvCreateGenerator config]. split; [by destruct (createGenerator config _).1|].
    intros input options [=]%list_elem_of_singleton.
  - exists []. split; [done|]. by intros input options ?%elem_of_nil.
Qed.

(** The generator that [buildStart] leaves assigned is the one it found or
    one it could build. *)
Lemma buildStart_uno (b : Bindings) (w : World) (g : Generator) :
  uno (buildStart b w).2 = Some g → uno w = Some g ∨ buildable b g.
Proof.
  rewrite buildStart_run. destruct (loadConfig _ _ _).1 as [config|e] eqn:Hload; [|by left].
  destruct (createGenerator config _).1 as [g'|e] eqn:Hcreate; [|by left].
  intros [= <-]. right. by eexists _, config, _.
Qed.

Lemma forEach_call_run (cs : list VoidFunction) (w : World) :
  forEach_call cs w =
  ((cleanup_outcome cs (heap w)).1.1,
   set_heap (cleanup_outcome cs (heap w)).2
     (logged (EvCleanup <$> (cleanup_outcome cs (heap w)).1.2) w)).
Proof.
  revert w. induction cs as [|c cs IH]; intros w.
  - simpl. by rewrite logged_nil, set_heap_same.
  - cbn [forEach_call cleanup_outcome]. rewrite bind_run, call_run.
    destruct (call_cleanup c (heap w)) as [[[]|e] h1]; cbn [fst snd]; [|done].
    rewrite IH. cbn [fst snd fmap list_fmap heap set_heap].
    by rewrite set_heap_set_heap.
Qed.

Lemma invalidate_run (w : World) :
  invalidate w =
  ((cleanup_outcome (cleanup w) (heap w)).1.1,
   set_heap (cleanup_outcome (cleanup w) (heap w)).2
     (logged (EvCleanup <$> (cleanup_outcome (cleanup w) (heap w)).1.2) w)).
Proof. unfold invalidate. rewrite bind_run. apply forEach_call_run. Qed.

Lemma cleanup_outcome_prefix (cs : list VoidFunction) (h : Heap) :
  (cleanup_outcome cs h).1.2 `prefix_of` cs.
Proof.
  revert h. induction cs as [|c cs IH]; intros h; [done|]. cbn [cleanup_outcome].
  destruct (call_cleanup c h) as [[[]|e] h1]; cbn [fst snd]; apply prefix_cons;
    [apply IH|apply prefix_nil].
Qed.

(** Callbacks that return in whatever state they are called all get
    called. *)
Lemma cleanup_outcome_all (cs : list VoidFunction) (h : Heap) :
  Forall (λ c, ∀ h, (call_cleanup c h).1 = Ok tt) cs →
  (cleanup_outcome cs h).1 = (Ok tt, cs).
Proof.
  intros Hall. revert h. induction Hall as [|c cs Hc _ IH]; intros h; [done|].
  cbn [cleanup_outcome]. specialize (Hc h).
  destruct (call_cleanup c h) as [[[]|e] h1]; cbn [fst] in Hc; [|done].
  cbn [fst snd]. by rewrite IH.
Qed.

Lemma cleanup_outcome_returns (cs : list VoidFunction) (h : Heap) :
  (cleanup_outcome cs h).1.1 = Ok tt → (cleanup_outcome cs h).1.2 = cs.
Proof.
  revert h. induction cs as [|c cs IH]; intros h; [done|]. cbn [cleanup_outcome].
  destruct (call_cleanup c h) as [[[]|e] h1]; cbn [fst snd]; [|done].
  intros Hrest. f_equal. by apply IH.
Qed.

(** The callbacks before [c] returning and [c] throwing in the state they
    left, [c] is the last one called. *)
Lemma cleanup_outcome_stops (before after : list VoidFunction) (c : VoidFunction)
    (e : JsError) (h : Heap) :
  (cleanup_outcome before h).1.1 = Ok tt →
  (call_cleanup c (cleanup_outcome before h).2).1 = Throw e →
  cleanup_outcome (before ++ c :: after) h =
  (Throw e, before ++ [c], (call_cleanup c (cleanup_outcome before h).2).2).
Proof.
  revert h. induction before as [|c' before IH]; intros h.
  - cbn. intros _ Hthrow. by destruct (call_cleanup c h) as [[[]|e'] h1]; simplify_eq/=.
  - cbn [app cleanup_outcome].
    destruct (call_cleanup c' h) as [[[]|e'] h1]; cbn [fst snd]; [|done].
    intros Hok Hthrow. by rewrite (IH h1).
Qed.

(** A walk of the registry that throws has stopped at a callback that
    threw where the ones before it had returned. *)
Lemma cleanup_outcome_throws (cs : list VoidFunction) (h : Heap) (e : JsError) :
  (cleanup_outcome cs h).1.1 = Throw e →
  ∃ before c after,
    cs = before ++ c :: after ∧
    (cleanup_outcome cs h).1.2 = before ++ [c] ∧
    (cleanup_outcome before h).1.1 = Ok tt ∧
    (call_cleanup c (cleanup_outcome before h).2).1 = Throw e.
Proof.
  revert h. induction cs as [|c cs IH]; intros h; [done|]. cbn [cleanup_outcome].
  destruct (call_cleanup c h) as [[[]|e'] h1] eqn:Hc; cbn [fst snd].
  - intros (before & c' & after & -> & Hcalled & Hok & Hthrow)%IH.
    exists (c :: before), c', after. cbn [app cleanup_outcome]. rewrite Hc. cbn [fst snd].
    by rewrite Hcalled.
  - intros [= ->]. exists [], c, cs. cbn. by rewrite Hc.
Qed.

Lemma generateBundle_disabled (b : Bindings) (w : World) :
  generateCSS b = false → generateBundle b w = (Ok tt, w).
Proof. intros Hoff. unfold generateBundle. by rewrite Hoff. Qed.

Lemma generateBundle_run (b : Bindings) (g : Generator) (w : World) :
  generateCSS b = true →
  uno w = Some g →
  generateBundle b w =
  match gen_answer (generate g (InTokens (tokens w)) None (heap w)) with
  | Ok r =>
      (Ok tt,
       set_emitted (emitted w ++ [{| asset_source := css r; asset_fileName := fileName b |}])
         (set_heap (gen_heap (generate g (InTokens (tokens w)) None (heap w)))
            (set_tokens
               (JsSet.apply_all (gen_writes (generate g (InTokens (tokens w)) None (heap w)))
                  (tokens w))
               (logged [EvGenerate (InTokens (tokens w)) None] w))))
  | Throw e =>
      (Throw e,
       set_heap (gen_heap (generate g (InTokens (tokens w)) None (heap w)))
         (set_tokens
            (JsSet.apply_all (gen_writes (generate g (InTokens (tokens w)) None (heap w)))
               (tokens w))
            (logged [EvGenerate (InTokens (tokens w)) None] w)))
  end.
Proof.
  intros Hon Hg. unfold generateBundle. rewrite Hon. cbn [negb].
  rewrite bind_run. unfold the_uno. rewrite Hg. rewrite bind_run. cbn [gets].
  rewrite bind_run. unfold call_generate.
  by destruct (gen_answer (generate g (InTokens (tokens w)) None (heap w))) as [r|e].
Qed.

Lemma generateBundle_unassigned (b : Bindings) (w : World) :
  generateCSS b = true →
  uno w = None →
  generateBundle b w =
  (Throw (TypeError "Cannot read properties of undefined (reading 'generate')"), w).
Proof.
  intros Hon Hg. unfold generateBundle. rewrite Hon. cbn [negb].
  rewrite bind_run. unfold the_uno. by rewrite Hg.
Qed.

(** What [generateBundle] leaves of each part of the world. *)
Lemma generateBundle_parts (b : Bindings) (w : World) :
  uno (generateBundle b w).2 = uno w ∧
  context (generateBundle b w).2 = context w ∧
  cleanup (generateBundle b w).2 = cleanup w ∧
  log (generateBundle b w).2 =
    log w ++ (if generateCSS b && bool_decide (is_Some (uno w))
              then [EvGenerate (InTokens (tokens w)) None] else []) ∧
  tokens (generateBundle b w).2 =
    match uno w with
    | Some g =>
        if generateCSS b
        then JsSet.apply_all (gen_writes (generate g (InTokens (tokens w)) None (heap w)))
               (tokens w)
        else tokens w
    | None => tokens w
    end.
Proof.
  destruct (generateCSS b) eqn:Hon; cbn [andb].
  - destruct (uno w) as [g|] eqn:Hg.
    + rewrite (generateBundle_run b g), bool_decide_eq_true_2 by done.
      by destruct (gen_answer _).
    + rewrite generateBundle_unassigned, bool_decide_eq_false_2, app_nil_r; [done| |done..].
      by intros [? ?].
  - rewrite generateBundle_disabled, app_nil_r by done. cbn [snd].
    split_and!; [done..|]. by destruct (uno w).
Qed.

Lemma generateBundle_emitted (b : Bindings) (g : Generator) (w : World) :
  generateCSS b = true →
  uno w = Some g →
  emitted (generateBundle b w).2 =
  emitted w ++
  match gen_answer (generate g (InTokens (tokens w)) None (heap w)) with
  | Ok r => [{| asset_source := css r; asset_fileName := fileName b |}]
  | Throw _ => []
  end.
Proof.
  intros Hon Hg. rewrite (generateBundle_run b g) by done.
  destruct (gen_answer _); cbn; by rewrite ?app_nil_r.
Qed.

Lemma transform_run (b : Bindings) (code id : string) (w : World) :
  perform b (OpTransform code id) w =
  (match (handler b code id w).1 with Ok _ => Ok tt | Throw e => Throw e end,
   (handler b code id w).2).
Proof.
  cbn [perform]. rewrite bind_run. by destruct (handler b code id w) as [[out|e] w'].
Qed.

(** What each operation leaves of the registry: what it held, and behind it
    what [onInvalidate] was given, by the operation itself or by the
    transformers of a transform. *)
Lemma perform_cleanup_prefix (b : Bindings) (op : Operation) (w : World) :
  cleanup w `prefix_of` cleanup (perform b op w).2.
Proof.
  destruct op as [|code id| | |fn].
  - cbn [perform]. by destruct (buildStart_frame b w) as (_ & -> & _).
  - rewrite transform_run. cbn [snd].
    destruct (handler_parts b code id w) as (_ & _ & _ & -> & _).
    by destruct (applyTransformers_parts (ms_new code) id w) as (_ & _ & _ & Hpre & _).
  - cbn [perform]. by destruct (generateBundle_parts b w) as (_ & _ & -> & _).
  - cbn [perform]. by rewrite invalidate_run.
  - cbn. by apply prefix_app_r.
Qed.

Lemma run_snoc (b : Bindings) (ops : list Operation) (op : Operation) (w : World) :
  run b (ops ++ [op]) w = (perform b op (run b ops w)).2.
Proof. unfold run. by rewrite foldl_app. Qed.

Lemma run_cleanup_prefix (b : Bindings) (ops : list Operation) (w : World) :
  cleanup w `prefix_of` cleanup (run b ops w).
Proof.
  induction ops as [|op ops IH] using rev_ind; [done|].
  rewrite run_snoc. etrans; [apply IH|apply perform_cleanup_prefix].
Qed.

(** The generator in use along a build is the one found at its start or one
    that [buildStart] could build. *)
Lemma perform_uno (b : Bindings) (op : Operation) (w : World) (g : Generator) :
  uno (perform b op w).2 = Some g → uno w = Some g ∨ buildable b g.
Proof.
  destruct op as [|code id| | |fn].
  - apply buildStart_uno.
  - rewrite transform_run. cbn [snd].
    destruct (handler_parts b code id w) as (-> & _). by left.
  - cbn [perform]. destruct (generateBundle_parts b w) as (-> & _). by left.
  - cbn [perform]. rewrite invalidate_run. by left.
  - by left.
Qed.

Lemma run_uno (b : Bindings) (ops : list Operation) (w : World) (g : Generator) :
  uno (run b ops w) = Some g → uno w = Some g ∨ buildable b g.
Proof.
  revert g. induction ops as [|op ops IH] using rev_ind; intros g; [by left|].
  rewrite run_snoc. intros [Hg|Hg]%perform_uno; [by apply IH|by right].
Qed.

(** The accumulator never holds a token twice. *)
Lemma perform_tokens_NoDup (b : Bindings) (op : Operation) (w : World) :
  NoDup (tokens w) → NoDup (tokens (perform b op w).2).
Proof.
  intros Hw. destruct op as [|code id| | |fn].
  - cbn [perform]. by destruct (buildStart_frame b w) as (-> & _).
  - rewrite transform_run. cbn [snd].
    destruct (handler_parts b code id w) as (_ & _ & _ & _ & found & -> & _).
    by apply JsSetFacts.add_all_NoDup, applyTransformers_NoDup.
  - cbn [perform]. destruct (generateBundle_parts b w) as (_ & _ & _ & _ & ->).
    destruct (uno w); [|done]. destruct (generateCSS b); [|done].
    by apply JsSetFacts.apply_all_NoDup.
  - cbn [perform]. by rewrite invalidate_run.
  - done.
Qed.

Lemma run_tokens_NoDup (b : Bindings) (ops : list Operation) (w : World) :
  NoDup (tokens w) → NoDup (tokens (run b ops w)).
Proof.
  intros Hw. induction ops as [|op ops IH] using rev_ind; [done|].
  rewrite run_snoc. by apply perform_tokens_NoDup.
Qed.

(** With transformers and a generator whose write calls on the accumulator
    are all [add], an operation leaves what the accumulator held in place. *)
Lemma handler_tokens_prefix (b : Bindings) (code id : string) (w : World) :
  (∀ g, uno w = Some g → Forall only_adds (registered g)) →
  tokens w `prefix_of` tokens (handler b code id w).2.
Proof.
  intros Hadds.
  destruct (handler_parts b code id w) as (_ & _ & _ & _ & found & -> & _).
  etrans; [|apply JsSetFacts.add_all_prefix].
  destruct (uno w) as [g|] eqn:Hg.
  - by apply (applyTransformers_only_adds g), Hadds.
  - by rewrite applyTransformers_unassigned.
Qed.

Lemma perform_tokens_prefix (b : Bindings) (op : Operation) (w : World) :
  (∀ g, uno w = Some g → Forall only_adds (registered g) ∧ generator_only_adds g) →
  tokens w `prefix_of` tokens (perform b op w).2.
Proof.
  intros Hadds. destruct op as [|code id| | |fn].
  - cbn [perform]. by destruct (buildStart_frame b w) as (-> & _).
  - rewrite transform_run. cbn [snd]. apply handler_tokens_prefix.
    intros g Hg. by apply Hadds.
  - cbn [perform]. destruct (generateBundle_parts b w) as (_ & _ & _ & _ & ->).
    destruct (uno w) as [g|] eqn:Hg; [|done]. destruct (generateCSS b); [|done].
    apply JsSetFacts.apply_all_adds_prefix. by apply (Hadds g).
  - cbn [perform]. by rewrite invalidate_run.
  - done.
Qed.

Lemma run_tokens_prefix (b : Bindings) (ops : list Operation) (w : World) :
  (∀ g, uno w = Some g ∨ buildable b g →
        Forall only_adds (registered g) ∧ generator_only_adds g) →
  tokens w `prefix_of` tokens (run b ops w).
Proof.
  intros Hadds. induction ops as [|op ops IH] using rev_ind; [done|].
  rewrite run_snoc. etrans; [apply IH|]. apply perform_tokens_prefix.
  intros g Hg. by apply Hadds, (run_uno b ops).
Qed.

End Hooks.

(** ** The accumulator, the registry, the finalize step, the defaults *)

Section FinalizeAndDefaults.
Context `{X : Externals}.

Lemma css_inputs_app (l1 l2 : list Event) :
  css_inputs (l1 ++ l2) = css_inputs l1 ++ css_inputs l2.
Proof. apply omap_app. Qed.

Lemma cleanup_calls_app (l1 l2 : list Event) :
  cleanup_calls (l1 ++ l2) = cleanup_calls l1 ++ cleanup_calls l2.
Proof. apply omap_app. Qed.

Lemma cleanup_calls_fmap (cs : list VoidFunction) : cleanup_calls (EvCleanup <$> cs) = cs.
Proof. induction cs as [|c cs IH]; [done|]. simpl. by f_equal. Qed.

Lemma css_inputs_cleanup (cs : list VoidFunction) : css_inputs (EvCleanup <$> cs) = [].
Proof. by induction cs. Qed.

Lemma css_inputs_transform_calls (evs : list Event) :
  Forall is_transform_call evs → css_inputs evs = [].
Proof. induction 1 as [|[] evs Hev _ IH]; by simpl in *. Qed.

(** A run of the handler makes no CSS-generation call. *)
Lemma handler_css_inputs (b : Bindings) (code id : string) (w : World) :
  css_inputs (log (handler b code id w).2) = css_inputs (log w).
Proof.
  rewrite handler_log.
  destruct (applyTransformers_parts (ms_new code) id w) as (_ & _ & _ & _ & evs & -> & Hevs).
  rewrite !css_inputs_app, (css_inputs_transform_calls evs), app_nil_r by done.
  destruct (applyTransformers (ms_new code) id w) as [[[ms1 annotations]|e] w1];
    [|by rewrite app_nil_r].
  rewrite css_inputs_app.
  destruct (onTransform b), (callback_step b id ms1 annotations w1) as [[ms2|e] w2];
    by rewrite app_nil_r.
Qed.

Lemma perform_css_inputs (b : Bindings) (op : Operation) (w : World) :
  op ≠ OpGenerateBundle → css_inputs (log (perform b op w).2) = css_inputs (log w).
Proof.
  intros Hop. destruct op as [|code id| | |fn]; [| |done| |].
  - cbn [perform]. rewrite buildStart_run.
    destruct (loadConfig _ _ _).1 as [config|e]; [destruct (createGenerator config _).1|];
      cbn [snd log set_context set_uno set_heap]; by rewrite log_logged, css_inputs_app, app_nil_r.
  - rewrite transform_run. apply handler_css_inputs.
  - cbn [perform]. rewrite invalidate_run. cbn [snd log set_heap].
    by rewrite log_logged, css_inputs_app, css_inputs_cleanup, app_nil_r.
  - done.
Qed.

Lemma generateBundle_css_inputs (b : Bindings) (w : World) :
  css_inputs (log (generateBundle b w).2) =
  css_inputs (log w) ++
  (if generateCSS b && bool_decide (is_Some (uno w)) then [tokens w] else []).
Proof.
  destruct (generateBundle_parts b w) as (_ & _ & _ & -> & _). rewrite css_inputs_app.
  by destruct (generateCSS b && bool_decide (is_Some (uno w))).
Qed.

(** A file that no registered transformer accepts: nothing is called. *)
Lemma applyTransformers_none_accepted (g : Generator) (code : MagicString) (id : string)
    (w : World) :
  uno w = Some g →
  Forall (λ t, accepts id t = false) (registered g) →
  applyTransformers code id w = (Ok (code, []), w).
Proof.
  intros Hg Hnone. rewrite (applyTransformers_run g) by done. unfold spec_applyTransformers.
  assert (filter (λ t, accepts id t = true) (registered g) = []) as ->.
  { induction Hnone as [|t ts Ht _ IH]; [done|]. rewrite filter_cons_False; [done|].
    by rewrite Ht. }
  cbn. by rewrite logged_nil.
Qed.

(** Where no transformer is handed the accumulator, no operation but the
    finalize step reads it: the operation runs the same whatever it holds. *)
Lemma perform_ignores_tokens (b : Bindings) (op : Operation) (s : list string) (w : World) :
  op ≠ OpGenerateBundle →
  (∀ code id g, op = OpTransform code id → uno w = Some g →
                Forall (λ t, accepts id t = false) (registered g)) →
  (perform b op (set_tokens s w)).1 = (perform b op w).1 ∧
  same_but_tokens (perform b op (set_tokens s w)).2 (perform b op w).2.
Proof.
  intros Hop Hnone. unfold same_but_tokens. destruct op as [|code id| | |fn]; [| |done| |].
  - cbn [perform]. rewrite !buildStart_run. cbn [heap set_tokens].
    destruct (loadConfig _ _ _).1 as [config|e]; [destruct (createGenerator config _).1|]; done.
  - rewrite !transform_run. cbn [fst snd].
    destruct (uno w) as [g|] eqn:Hg; [|by rewrite !handler_unassigned].
    specialize (Hnone code id g eq_refl eq_refl).
    rewrite !handler_phases_run, !prescan_run.
    rewrite !(applyTransformers_none_accepted g) by done.
    rewrite !callback_step_run. cbn [heap set_tokens].
    destruct (onTransform b) as [f|].
    + destruct (call_onTransform f id (ms_new code) [] (heap w)) as [[ms2|e] h2]; cbn [fst snd];
        [|done].
      rewrite !(scan_run b g) by done. cbn [heap set_heap logged set_log set_tokens].
      by destruct (gen_answer _).
    + rewrite !(scan_run b g) by done. cbn [heap set_heap logged set_log set_tokens].
      by destruct (gen_answer _).
  - cbn [perform]. rewrite !invalidate_run. by cbn [cleanup heap set_tokens fst snd].
  - done.
Qed.

(** C7, as the code has it.  Adding a token that is present changes
    nothing, and so does adding any set of tokens that are all present.  What
    the handler does to the accumulator itself is an insertion behind what
    the transformers of the run left, whether the run returns or throws; so
    with transformers whose write calls on [context.tokens] are all [add] the
    accumulator found by a run is a prefix of the one it leaves, and so it is
    along any sequence of the plugin's operations when the generator's write
    calls are all [add] too: nothing is removed or reordered.  No token comes
    to be held twice, whatever the collaborators do.  The plugin hands the
    accumulator to every transformer; apart from that, every operation other
    than the finalize step runs the same whatever the accumulator holds, and
    none of them makes a CSS-generation call; the finalize step makes at most
    one such call and hands it the whole accumulator. *)
Theorem accumulator_idempotent_monotone_read_at_finalize :
  (∀ (x : string) (s : list string), x ∈ s → JsSet.add x s = s) ∧
  (∀ src dst : list string, src ⊆ dst → JsSet.add_all src dst = dst) ∧
  (∀ (b : Bindings) (code id : string) (w : World),
     tokens (applyTransformers (ms_new code) id w).2 `prefix_of`
       tokens (handler b code id w).2) ∧
  (∀ (b : Bindings) (code id : string) (w : World),
     (∀ g, uno w = Some g → Forall only_adds (registered g)) →
     tokens w `prefix_of` tokens (handler b code id w).2) ∧
  (∀ (b : Bindings) (ops : list Operation) (w : World),
     (∀ g, uno w = Some g ∨ buildable b g →
           Forall only_adds (registered g) ∧ generator_only_adds g) →
     tokens w `prefix_of` tokens (run b ops w)) ∧
  (∀ (b : Bindings) (ops : list Operation) (w : World),
     NoDup (tokens w) → NoDup (tokens (run b ops w))) ∧
  (∀ (b : Bindings) (op : Operation) (s : list string) (w : World),
     op ≠ OpGenerateBundle →
     (∀ code id g, op = OpTransform code id → uno w = Some g →
                   Forall (λ t, accepts id t = false) (registered g)) →
     (perform b op (set_tokens s w)).1 = (perform b op w).1 ∧
     same_but_tokens (perform b op (set_tokens s w)).2 (perform b op w).2) ∧
  (∀ (b : Bindings) (op : Operation) (w : World),
     op ≠ OpGenerateBundle →
     css_inputs (log (perform b op w).2) = css_inputs (log w)) ∧
  (∀ (b : Bindings) (w : World),
     css_inputs (log (generateBundle b w).2) =
     css_inputs (log w) ++
     (if generateCSS b && bool_decide (is_Some (uno w)) then [tokens w] else [])).
Proof.
  split_and!.
  - apply JsSetFacts.add_present.
  - apply JsSetFacts.add_all_included.
  - intros b code id w.
    destruct (handler_parts b code id w) as (_ & _ & _ & _ & found & -> & _).
    apply JsSetFacts.add_all_prefix.
  - apply handler_tokens_prefix.
  - apply run_tokens_prefix.
  - apply run_tokens_NoDup.
  - apply perform_ignores_tokens.
  - apply perform_css_inputs.
  - apply generateBundle_css_inputs.
Qed.

(** C9, as the code has it.  The registry only grows, and [invalidate] walks
    it in order.  [onInvalidate fn] appends [fn] and changes nothing else; no
    operation of the plugin, and so no sequence of them, leaves a registry of
    which the earlier one is not a prefix; [invalidate] leaves the registry as
    it is and calls callbacks in registration order, none twice.  A call of
    [invalidate] that returns has called every callback registered so far
    exactly once; one that throws has stopped at the first callback that
    threw, and has called no callback registered after it. *)
Theorem cleanup_registry_append_only_invoked_in_order :
  (∀ (fn : VoidFunction) (w : World),
     onInvalidate fn w = (Ok tt, set_cleanup (cleanup w ++ [fn]) w)) ∧
  (∀ (b : Bindings) (op : Operation) (w : World),
     cleanup w `prefix_of` cleanup (perform b op w).2) ∧
  (∀ (b : Bindings) (ops : list Operation) (w : World),
     cleanup w `prefix_of` cleanup (run b ops w)) ∧
  (∀ w : World,
     cleanup (invalidate w).2 = cleanup w ∧
     ∃ called,
       called `prefix_of` cleanup w ∧
       log (invalidate w).2 = log w ++ (EvCleanup <$> called) ∧
       cleanup_calls (log (invalidate w).2) = cleanup_calls (log w) ++ called ∧
       ((invalidate w).1 = Ok tt → called = cleanup w) ∧
       (∀ e, (invalidate w).1 = Throw e →
             ∃ before c after,
               cleanup w = before ++ c :: after ∧
               called = before ++ [c] ∧
               (cleanup_outcome before (heap w)).1.1 = Ok tt ∧
               (call_cleanup c (cleanup_outcome before (heap w)).2).1 = Throw e)).
Proof.
  split_and!.
  - done.
  - apply perform_cleanup_prefix.
  - apply run_cleanup_prefix.
  - intros w. rewrite invalidate_run. cbn [fst snd]. split; [done|].
    exists (cleanup_outcome (cleanup w) (heap w)).1.2. split_and!.
    + apply cleanup_outcome_prefix.
    + done.
    + cbn [log set_heap]. by rewrite log_logged, cleanup_calls_app, cleanup_calls_fmap.
    + apply cleanup_outcome_returns.
    + intros e. apply cleanup_outcome_throws.
Qed.

(** C4.  [generateBundle] emits if and only if [generateCSS] is on.  Off: it
    returns at once and the world is the one it found (nothing emitted, no call
    made), whatever the accumulator holds.  On, with the generator assigned:
    it makes exactly one call, CSS generation on the accumulator as it stands
    (empty or not); it returns exactly when that call returns, and then it has
    emitted exactly one asset, named [fileName], whose source is the [css] of
    the answer (nothing is emitted for a call that throws).  An emission
    implies that [generateCSS] is on. *)
Theorem generateBundle_emits_iff_generateCSS (b : Bindings) (w : World) :
  (generateCSS b = false → generateBundle b w = (Ok tt, w)) ∧
  (∀ g, generateCSS b = true → uno w = Some g →
     log (generateBundle b w).2 = log w ++ [EvGenerate (InTokens (tokens w)) None] ∧
     emitted (generateBundle b w).2 =
       emitted w ++
       match gen_answer (generate g (InTokens (tokens w)) None (heap w)) with
       | Ok r => [{| asset_source := css r; asset_fileName := fileName b |}]
       | Throw _ => []
       end ∧
     ((generateBundle b w).1 = Ok tt ↔
      is_ok (gen_answer (generate g (InTokens (tokens w)) None (heap w))) = true)) ∧
  (emitted (generateBundle b w).2 ≠ emitted w → generateCSS b = true).
Proof.
  split_and!.
  - apply generateBundle_disabled.
  - intros g Hon Hg. rewrite (generateBundle_emitted b g) by done.
    rewrite (generateBundle_run b g) by done.
    destruct (gen_answer _); cbn [fst snd log emitted set_emitted set_heap set_tokens is_ok];
      by split_and!.
  - intros Hemit. destruct (generateCSS b) eqn:Hon; [done|].
    by rewrite generateBundle_disabled in Hemit.
Qed.

(** C10.  With no transformer registered (the list absent or empty) and no
    [onTransform], [applyTransformers] answers the empty annotation list and
    leaves buffer and world as they are, and the handler scans the input text
    itself; when that scan returns, the handler returns the input text as
    [code], character for character, and every matched token is in the
    accumulator; when it throws, so does the handler.  ([toString] of a fresh
    buffer is its text: magic-string.) *)
Theorem handler_identity_without_transformers (b : Bindings) (g : Generator)
    (code id : string) (w : World) :
  (∀ s, ms_toString (ms_new s) = s) →
  uno w = Some g →
  config_transformers g = None ∨ config_transformers g = Some [] →
  onTransform b = None →
  applyTransformers (ms_new code) id w = (Ok (ms_new code, []), w) ∧
  scan_inputs (log (handler b code id w).2) = scan_inputs (log w) ++ [code] ∧
  match gen_answer (generate g (InCode code) (scan_options b id) (heap w)) with
  | Ok r =>
      (∃ out, (handler b code id w).1 = Ok out ∧ out_code out = code) ∧
      tokens (handler b code id w).2 = JsSet.add_all (matched r) (tokens w) ∧
      (∀ t, t ∈ matched r → t ∈ tokens (handler b code id w).2)
  | Throw e => (handler b code id w).1 = Throw e
  end.
Proof.
  intros Hfresh Hg Hlist Hcb.
  assert (applyTransformers (ms_new code) id w = (Ok (ms_new code, []), w)) as Happly.
  { apply (applyTransformers_none_accepted g); [done|].
    unfold registered. by destruct Hlist as [-> | ->]. }
  split_and!.
  - done.
  - rewrite handler_log, Happly, callback_step_run, Hcb. cbn [snd app].
    unfold scan_event. rewrite Hfresh. by rewrite scan_inputs_app.
  - rewrite handler_phases_run, prescan_run, Happly, callback_step_run, Hcb.
    rewrite (scan_run b g), Hfresh by done.
    destruct (gen_answer _) as [r|e]; [|done].
    cbn [fst snd tokens set_tokens set_heap logged set_log]. split_and!.
    + eexists. split; [done|]. apply Hfresh.
    + done.
    + intros t Ht. apply JsSetFacts.elem_of_add_all. by left.
Qed.


End FinalizeAndDefaults.

(** ** Order of the files *)

Section Order.
Context `{X : Externals}.

(** The handler on a file whose scan produces [found]: it returns, having
    inserted [found] behind what the transformers left. *)
Lemma handler_of_matched (b : Bindings) (w : World) (file : string * string)
    (found : list string) :
  matched_set b w file = Ok found →
  ∃ out w',
    handler b file.1 file.2 w = (Ok out, w') ∧
    tokens w' = JsSet.add_all found (tokens (applyTransformers (ms_new file.1) file.2 w).2).
Proof.
  unfold matched_set. rewrite bind_run, handler_phases_run.
  destruct (prescan_parts b file.1 file.2 w) as (_ & _ & _ & Ht & _).
  destruct (prescan b file.1 file.2 w) as [[ms|e] w1]; cbn [snd] in Ht; [|done].
  destruct (scan_parts b file.2 ms w1) as (_ & _ & Ht2 & _).
  destruct (scan b file.2 ms w1) as [[r|e] w2]; cbn [snd] in Ht2; [|done].
  intros [= <-]. eexists _, _. split; [done|]. cbn [tokens set_tokens]. congruence.
Qed.

(** The accumulator after the files of a list, in the order of the list. *)
Lemma transform_all_run (b : Bindings) (g : Generator) (M : string * string → list string)
    (files : list (string * string)) (w : World) :
  uno w = Some g →
  Forall keeps_tokens (registered g) →
  scans_of b files w = (λ file, Ok (M file)) <$> files →
  ∃ outs w',
    transform_all b files w = (Ok outs, w') ∧
    length outs = length files ∧
    tokens w' = foldl (λ acc file, JsSet.add_all (M file) acc) (tokens w) files.
Proof.
  intros Hg Hkeep. revert w Hg. induction files as [|file files IH]; intros w Hg Hscans.
  - by exists [], w.
  - cbn [scans_of fmap list_fmap] in Hscans. injection Hscans as Hscan Hrest.
    destruct (handler_of_matched b w file (M file) Hscan) as (out & w1 & Hrun & Ht).
    rewrite (applyTransformers_keeps g) in Ht by done.
    rewrite Hrun in Hrest. cbn [snd] in Hrest.
    destruct (IH w1) as (outs & w' & Hall & Hlen & Htokens); [|done|].
    { destruct (handler_parts b file.1 file.2 w) as (Hu & _). rewrite Hrun in Hu.
      cbn [snd] in Hu. congruence. }
    exists (out :: outs), w'. cbn [transform_all]. rewrite bind_run, Hrun, bind_run, Hall.
    split_and!; [done|by rewrite !length_cons, Hlen|]. cbn [foldl]. by rewrite Htokens, Ht.
Qed.

Lemma add_all_fold_to_set {A : Type} (M : A → list string) (xs : list A) (s : list string) :
  (list_to_set (foldl (λ acc x, JsSet.add_all (M x) acc) s xs) : gset string) =
  list_to_set s ∪ ⋃ ((λ x, list_to_set (M x)) <$> xs).
Proof.
  revert s. induction xs as [|x xs IH]; intros s.
  - simpl. set_solver.
  - cbn [foldl fmap list_fmap union_list foldr]. rewrite IH, JsSetFacts.add_all_to_set.
    set_solver.
Qed.

Lemma union_list_perm (Ms Ms' : list (gset string)) : Ms ≡ₚ Ms' → ⋃ Ms = ⋃ Ms'.
Proof.
  intros Hperm. apply set_eq. intros t. rewrite !elem_of_union_list.
  by setoid_rewrite Hperm.
Qed.

(** *** A handler in steps *)

Lemma to_scan_run (b : Bindings) (id : string) (ms : MagicString) (w : World) :
  to_scan b id ms w =
  (match (scan b id ms w).1 with Ok r => Ok (AfterScan ms r) | Throw e => Throw e end,
   (scan b id ms w).2).
Proof. unfold to_scan. rewrite bind_run. by destruct (scan b id ms w) as [[r|e] w']. Qed.

Lemma after_loop_run (b : Bindings) (id : string) (ms : MagicString)
    (annotations : list HighlightAnnotation) (w : World) :
  after_loop b id ms annotations w =
  match onTransform b with
  | Some _ =>
      (match (callback_step b id ms annotations w).1 with
       | Ok ms' => Ok (AfterCallback ms')
       | Throw e => Throw e
       end,
       (callback_step b id ms annotations w).2)
  | None => to_scan b id ms w
  end.
Proof.
  unfold after_loop, callback_step. destruct (onTransform b) as [f|]; [|done].
  rewrite bind_run. by destruct (call _ _ w) as [[ms'|e] w'].
Qed.

(** Running on from after the loop is the callback, the scan and the tail. *)
Lemma after_loop_remainder (b : Bindings) (id : string) (ms : MagicString)
    (annotations : list HighlightAnnotation) (w : World) :
  (task ← after_loop b id ms annotations; remainder b id task) w =
  (ms' ← callback_step b id ms annotations; r ← scan b id ms'; collect ms' r) w.
Proof.
  rewrite !bind_run, after_loop_run. unfold callback_step.
  destruct (onTransform b) as [f|].
  - by destruct (call _ _ w) as [[ms'|e] w'].
  - rewrite to_scan_run. cbn [mret M_ret]. rewrite bind_run.
    by destruct (scan b id ms w) as [[r|e] w'].
Qed.

(** Running on from inside the loop is the rest of the loop and what
    follows it. *)
Lemma next_call_remainder (b : Bindings) (id : string) (l : list SourceCodeTransformer)
    (code : MagicString) (annotations : list HighlightAnnotation) (w : World) :
  (task ← next_call b id l code annotations; remainder b id task) w =
  remainder b id (InLoop l code annotations) w.
Proof.
  revert code annotations w. induction l as [|t l IH]; intros code annotations w.
  - cbn [next_call remainder transformers_loop]. by rewrite after_loop_remainder.
  - cbn [next_call remainder transformers_loop] in *.
    destruct (match idFilter t with Some f => negb (f id) | None => false end); [apply IH|].
    rewrite !bind_run.
    by destruct (call_transform t code id w) as [[[code' result]|e] w'].
Qed.

Lemma handler_remainder (b : Bindings) (code id : string) (w : World) :
  handler b code id w = (task ← enter b code id; remainder b id task) w.
Proof.
  rewrite handler_phases. unfold enter, prescan, applyTransformers. rewrite !bind_run.
  destruct (the_uno "config" w) as [[u|e] w0]; [|done].
  destruct (config_transformers u) as [[|t l]|].
  - rewrite <-(bind_run (after_loop b id (ms_new code) []) (remainder b id) w0).
    rewrite after_loop_remainder. cbn [mret M_ret]. by rewrite !bind_run.
  - rewrite <-(bind_run (next_call b id (t :: l) (ms_new code) []) (remainder b id) w0).
    rewrite next_call_remainder. cbn [remainder]. rewrite !bind_run.
    by destruct (transformers_loop (t :: l) (ms_new code) id [] w0) as [[[ms anns]|e] w1].
  - rewrite <-(bind_run (after_loop b id (ms_new code) []) (remainder b id) w0).
    rewrite after_loop_remainder. cbn [mret M_ret]. by rewrite !bind_run.
Qed.

Lemma after_loop_steps (b : Bindings) (id : string) (ms : MagicString)
    (annotations : list HighlightAnnotation) (w : World) (task : Task) (w' : World) :
  after_loop b id ms annotations w = (Ok task, w') → (steps_left task ≤ 2)%nat.
Proof.
  rewrite after_loop_run. destruct (onTransform b).
  - destruct (callback_step b id ms annotations w).1; intros [= <- _]; cbn; lia.
  - rewrite to_scan_run. destruct (scan b id ms w).1; intros [= <- _]; cbn; lia.
Qed.

Lemma next_call_steps (b : Bindings) (id : string) (l : list SourceCodeTransformer)
    (code : MagicString) (annotations : list HighlightAnnotation) (w : World)
    (task : Task) (w' : World) :
  next_call b id l code annotations w = (Ok task, w') →
  (steps_left task < steps_left (InLoop l code annotations))%nat.
Proof.
  revert code annotations w. induction l as [|t l IH]; intros code annotations w.
  - cbn [next_call]. intros Hloop%after_loop_steps. cbn. lia.
  - cbn [next_call].
    destruct (match idFilter t with Some f => negb (f id) | None => false end).
    + intros Hnext%IH. cbn in *. lia.
    + rewrite bind_run.
      destruct (call_transform t code id w) as [[[code' result]|e] w1]; [|done].
      intros [= <- _]. cbn. lia.
Qed.

(** A suspended handler resumed often enough, with nothing in between, does
    what it has left to do. *)
Lemma finish_remainder (b : Bindings) (id : string) (fuel : nat) (task : Task) (w : World) :
  (steps_left task ≤ fuel)%nat →
  finish fuel b id task w =
  (match (remainder b id task w).1 with Ok out => Ok (Some out) | Throw e => Throw e end,
   (remainder b id task w).2).
Proof.
  revert task w. induction fuel as [|fuel IH]; intros task w Hfuel.
  { destruct task; cbn in Hfuel; lia. }
  cbn [finish]. rewrite bind_run. destruct task as [l code annotations|ms|ms r].
  - rewrite <-next_call_remainder. cbn [resume]. rewrite !bind_run.
    destruct (next_call b id l code annotations w) as [[task'|e] w'] eqn:Hnext; [|done].
    cbn [mret M_ret]. apply IH. apply next_call_steps in Hnext. lia.
  - cbn [resume remainder]. rewrite !bind_run, to_scan_run.
    destruct (scan b id ms w) as [[r|e] w']; cbn [fst snd mret M_ret]; [|done].
    rewrite IH by (cbn in *; lia). done.
  - cbn [resume remainder]. rewrite bind_run, collect_run. done.
Qed.

(** *** The accumulator in flight *)

Lemma call_transform_keeps (t : SourceCodeTransformer) (code : MagicString) (id : string)
    (w : World) :
  keeps_tokens t →
  tokens (call_transform t code id w).2 = tokens w ∧
  uno (call_transform t code id w).2 = uno w.
Proof.
  intros Ht. rewrite call_transform_run. cbn [snd tokens uno logged set_log].
  destruct (absorb_parts (transform_in t code id w) w) as (-> & _ & _ & _ & _ & -> & _).
  unfold transform_in. rewrite Ht. by destruct (context w).
Qed.

Lemma to_scan_keeps (b : Bindings) (id : string) (ms : MagicString) (w : World) :
  tokens (to_scan b id ms w).2 = tokens w ∧ uno (to_scan b id ms w).2 = uno w ∧
  ∀ task w', to_scan b id ms w = (Ok task, w') → task_keeps task.
Proof.
  rewrite to_scan_run. cbn [snd].
  destruct (scan_parts b id ms w) as (Hu & _ & Ht & _).
  split_and!; [done..|]. by destruct (scan b id ms w).1; intros task w' [= <- _].
Qed.

Lemma after_loop_keeps (b : Bindings) (id : string) (ms : MagicString)
    (annotations : list HighlightAnnotation) (w : World) :
  tokens (after_loop b id ms annotations w).2 = tokens w ∧
  uno (after_loop b id ms annotations w).2 = uno w ∧
  ∀ task w', after_loop b id ms annotations w = (Ok task, w') → task_keeps task.
Proof.
  rewrite after_loop_run. destruct (onTransform b); [|apply to_scan_keeps].
  cbn [snd]. destruct (callback_step_parts b id ms annotations w) as (Hu & _ & Ht & _).
  split_and!; [done..|].
  by destruct (callback_step b id ms annotations w).1; intros task w' [= <- _].
Qed.

Lemma next_call_keeps (b : Bindings) (id : string) (l : list SourceCodeTransformer)
    (code : MagicString) (annotations : list HighlightAnnotation) (w : World) :
  Forall keeps_tokens l →
  tokens (next_call b id l code annotations w).2 = tokens w ∧
  uno (next_call b id l code annotations w).2 = uno w ∧
  ∀ task w', next_call b id l code annotations w = (Ok task, w') → task_keeps task.
Proof.
  intros Hl. revert code annotations w.
  induction Hl as [|t l Ht Hl IH]; intros code annotations w; [apply after_loop_keeps|].
  cbn [next_call].
  destruct (match idFilter t with Some f => negb (f id) | None => false end); [apply IH|].
  rewrite bind_run. destruct (call_transform_keeps t code id w Ht) as (Htok & Hu).
  destruct (call_transform t code id w) as [[[code' result]|e] w1]; cbn [snd] in *;
    (split_and!; [done..|]); [|done].
  by intros task w' [= <- _].
Qed.

Lemma enter_keeps (b : Bindings) (g : Generator) (code id : string) (w : World) :
  uno w = Some g →
  Forall keeps_tokens (registered g) →
  tokens (enter b code id w).2 = tokens w ∧
  uno (enter b code id w).2 = uno w ∧
  ∀ task w', enter b code id w = (Ok task, w') → task_keeps task.
Proof.
  intros Hg Hkeep. unfold enter. rewrite bind_run, (the_uno_assigned _ g) by done.
  unfold registered in Hkeep.
  destruct (config_transformers g) as [[|t l]|]; [apply after_loop_keeps| |apply after_loop_keeps].
  by apply next_call_keeps.
Qed.

Lemma resume_keeps (b : Bindings) (id : string) (task : Task) (w : World) :
  task_keeps task →
  uno (resume b id task w).2 = uno w ∧
  match resume b id task w with
  | (Ok (inl task'), w') => task_keeps task' ∧ tokens w' = tokens w
  | (Ok (inr _), w') =>
      ∃ ms r, task = AfterScan ms r ∧ tokens w' = JsSet.add_all (matched r) (tokens w)
  | (Throw _, w') => tokens w' = tokens w
  end.
Proof.
  intros Htask. destruct task as [l code annotations|ms|ms r]; cbn [resume].
  - rewrite bind_run. destruct (next_call_keeps b id l code annotations w Htask)
      as (Ht & Hu & Hnext).
    destruct (next_call b id l code annotations w) as [[task'|e] w'] eqn:Hrun; cbn [snd] in *;
      [|done].
    split; [done|]. split; [by eapply Hnext|done].
  - rewrite bind_run. destruct (to_scan_keeps b id ms w) as (Ht & Hu & Hnext).
    destruct (to_scan b id ms w) as [[task'|e] w'] eqn:Hrun; cbn [snd] in *; [|done].
    split; [done|]. split; [by eapply Hnext|done].
  - rewrite bind_run, collect_run. cbn. split; [done|]. by exists ms, r.
Qed.

(** The accumulator after any schedule: what it held, and what the scans of
    the completed files matched, added in completion order. *)
Lemma schedule_tokens (b : Bindings) (g : Generator) (actions : list Action) (st : Flight) :
  uno (world st) = Some g →
  Forall keeps_tokens (registered g) →
  Forall (λ x, task_keeps x.2) (in_flight st) →
  ∃ newly,
    completed (schedule b actions st) = completed st ++ newly ∧
    tokens (world (schedule b actions st)) =
      foldl (λ acc x, JsSet.add_all x.2 acc) (tokens (world st)) newly.
Proof.
  intros Hg Hkeep. revert st Hg. induction actions as [|a actions IH]; intros st Hg Hflight.
  - exists []. by rewrite app_nil_r.
  - unfold schedule. cbn [foldl]. fold (schedule b actions (act b st a)).
    destruct a as [file|i]; cbn [act].
    + destruct (enter_keeps b g file.1 file.2 (world st) Hg Hkeep) as (Ht & Hu & Hnext).
      destruct (enter b file.1 file.2 (world st)) as [[task|e] w'] eqn:Hrun; cbn [snd] in *.
      * edestruct (IH {| world := w'; in_flight := in_flight st ++ [(file, task)];
                         completed := completed st |}) as (newly & Hc & Htok).
        -- cbn. congruence.
        -- cbn. apply Forall_app. split; [done|]. constructor; [|done]. by eapply Hnext.
        -- exists newly. cbn in *. by rewrite Hc, Htok, Ht.
      * edestruct (IH {| world := w'; in_flight := in_flight st; completed := completed st |})
          as (newly & Hc & Htok); [cbn; congruence|done|].
        exists newly. cbn in *. by rewrite Hc, Htok, Ht.
    + destruct (in_flight st !! i) as [[file task]|] eqn:Hi; [|by apply IH].
      assert (task_keeps task) as Htask.
      { by apply (Forall_lookup_1 _ _ _ _ Hflight Hi). }
      destruct (resume_keeps b file.2 task (world st) Htask) as (Hu & Hres).
      destruct (resume b file.2 task (world st)) as [[[task'|out]|e] w'] eqn:Hrun;
        cbn [snd] in *.
      * destruct Hres as (Htask' & Ht).
        edestruct (IH {| world := w'; in_flight := <[i:=(file, task')]> (in_flight st);
                         completed := completed st |}) as (newly & Hc & Htok).
        -- cbn. congruence.
        -- cbn. by apply Forall_insert.
        -- exists newly. cbn in *. by rewrite Hc, Htok, Ht.
      * destruct Hres as (ms & r & -> & Ht).
        edestruct (IH {| world := w'; in_flight := delete i (in_flight st);
                         completed := completed st ++ [(file, matched r)] |})
          as (newly & Hc & Htok).
        -- cbn. congruence.
        -- cbn. by apply Forall_delete.
        -- exists ((file, matched r) :: newly). cbn in *.
           by rewrite Hc, Htok, Ht, <-app_assoc.
      * edestruct (IH {| world := w'; in_flight := delete i (in_flight st);
                         completed := completed st |}) as (newly & Hc & Htok).
        -- cbn. congruence.
        -- cbn. by apply Forall_delete.
        -- exists newly. cbn in *. by rewrite Hc, Htok, Hres.
Qed.

(** *** The handler as a task *)

Lemma nothing_in_flight (b : Bindings) (n : nat) (w : World)
    (done : list (string * string * list string)) :
  foldl (act b) {| world := w; in_flight := []; completed := done |} (replicate n (Resumed 0)) =
  {| world := w; in_flight := []; completed := done |}.
Proof. induction n as [|n IH]; [done|]. exact IH. Qed.

Lemma alone_in_flight (b : Bindings) (file : string * string) (n : nat) (task : Task)
    (w : World) (done : list (string * string * list string)) :
  world (schedule b (replicate n (Resumed 0))
           {| world := w; in_flight := [(file, task)]; completed := done |}) =
  (finish n b file.2 task w).2.
Proof.
  revert task w. induction n as [|n IH]; intros task w; [done|].
  cbn [replicate]. unfold schedule. cbn [foldl act in_flight world completed lookup list_lookup].
  cbn [finish]. rewrite bind_run.
  destruct (resume b file.2 task w) as [[[task'|out]|e] w']; cbn [mret M_ret].
  - apply IH.
  - cbn [delete list_delete]. by rewrite nothing_in_flight.
  - cbn [delete list_delete]. by rewrite nothing_in_flight.
Qed.

Lemma enter_steps (b : Bindings) (g : Generator) (code id : string) (w : World)
    (task : Task) (w' : World) :
  uno w = Some g →
  enter b code id w = (Ok task, w') →
  (steps_left task ≤ length (registered g) + 3)%nat.
Proof.
  intros Hg. unfold enter. rewrite bind_run, (the_uno_assigned _ g) by done.
  unfold registered.
  destruct (config_transformers g) as [[|t l]|]; cbn [from_option Datatypes.id].
  - intros Hloop%after_loop_steps. lia.
  - intros Hnext%next_call_steps. cbn in *. lia.
  - intros Hloop%after_loop_steps. lia.
Qed.

(** The handler is a task resumed with nothing else in between. *)
Lemma handler_uninterrupted (b : Bindings) (g : Generator) (file : string * string)
    (n : nat) (w : World) :
  uno w = Some g →
  (length (registered g) + 3 ≤ n)%nat →
  world (schedule b (Called file :: replicate n (Resumed 0)) (idle w)) =
    (handler b file.1 file.2 w).2.
Proof.
  intros Hg Hn. rewrite handler_remainder, bind_run.
  unfold schedule. cbn [foldl act idle world in_flight completed app].
  destruct (enter b file.1 file.2 w) as [[task|e] w'] eqn:Henter.
  - pose proof (alone_in_flight b file n task w' []) as Halone. unfold schedule in Halone.
    rewrite Halone, finish_remainder; [done|].
    apply (enter_steps b g) in Henter; [lia|done].
  - by rewrite nothing_in_flight.
Qed.

(** C2, as the code has it.  For distinct files whose scans produce the
    pairwise disjoint sets [M file], and a generator whose transformers make
    no write call on [context.tokens], the accumulator ends as what it held
    before together with the union of the sets, which does not mention any
    order: so it is when the files are transformed one after the other in any
    order; and so it is after any interleaving of the handlers' steps in which
    the transforms that completed are those of the given files, each once,
    whatever the order of completion.  A handler run without interruption is
    one such interleaving.  (Neither the distinctness of the files nor the
    disjointness of the sets is needed for it.) *)
Theorem accumulator_is_union_in_any_order (b : Bindings) (g : Generator) (w : World)
    (files : list (string * string)) (M : string * string → list string) :
  uno w = Some g →
  Forall keeps_tokens (registered g) →
  NoDup files →
  (∀ f1 f2, f1 ∈ files → f2 ∈ files → f1 ≠ f2 → M f1 ## M f2) →
  (∀ order, order ≡ₚ files →
     scans_of b order w = (λ file, Ok (M file)) <$> order →
     ∃ outs w',
       transform_all b order w = (Ok outs, w') ∧
       length outs = length files ∧
       (list_to_set (tokens w') : gset string) =
         list_to_set (tokens w) ∪ ⋃ ((λ file, list_to_set (M file)) <$> files)) ∧
  (∀ actions,
     completed (schedule b actions (idle w)) ≡ₚ (λ file, (file, M file)) <$> files →
     (list_to_set (tokens (world (schedule b actions (idle w)))) : gset string) =
       list_to_set (tokens w) ∪ ⋃ ((λ file, list_to_set (M file)) <$> files)) ∧
  (∀ file n,
     (length (registered g) + 3 ≤ n)%nat →
     world (schedule b (Called file :: replicate n (Resumed 0)) (idle w)) =
       (handler b file.1 file.2 w).2).
Proof.
  intros Hg Hkeep _ _. split_and!.
  - intros order Hperm Hscans.
    destruct (transform_all_run b g M order w Hg Hkeep Hscans) as (outs & w' & Hrun & Hlen & Ht).
    exists outs, w'. split_and!; [done|by rewrite Hlen, Hperm|].
    rewrite Ht, add_all_fold_to_set. f_equal. apply union_list_perm. by apply fmap_Permutation.
  - intros actions Hperm.
    destruct (schedule_tokens b g actions (idle w)) as (newly & Hcompleted & Htokens);
      [done|done|by constructor|].
    cbn [idle completed world app] in Hcompleted, Htokens.
    rewrite Htokens, add_all_fold_to_set. f_equal.
    rewrite <-Hcompleted. etrans; [apply union_list_perm, fmap_Permutation, Hperm|].
    by rewrite <-list_fmap_compose.
  - intros file n Hn. by apply (handler_uninterrupted b g).
Qed.

End Order.

(** ** Beyond the single hooks: builds, invariants, edges *)

Section BuildFacts.
Context `{X : Externals}.

(** X1.  When the loader returns and [createGenerator] returns in the
    state the loader left, [buildStart] has called the loader once with [root]
    and the inline configuration, then [createGenerator] once with the
    configuration loaded; it returns, [uno] is the generator built, [context]
    carries that generator next to the accumulator and the registry as they
    stand, and [getConfig] resolves to the configuration loaded. *)
Theorem buildStart_assigns_generator_and_context (b : Bindings) (w : World)
    (config : UserConfig) (g : Generator) (h1 h2 : Heap) :
  loadConfig (root b) (inlineConfig b) (heap w) = (Ok config, h1) →
  createGenerator config h1 = (Ok g, h2) →
  (buildStart b w).1 = Ok tt ∧
  uno (buildStart b w).2 = Some g ∧
  context (buildStart b w).2 = Some (g, config) ∧
  the_context (buildStart b w).2 =
    Some {| ctx_uno := g; ctx_tokens := tokens w; ctx_config := config;
            ctx_cleanup := cleanup w |} ∧
  (∀ c, the_context (buildStart b w).2 = Some c →
        (getConfig c (buildStart b w).2).1 = Ok config) ∧
  log (buildStart b w).2 =
    log w ++ [EvLoadConfig (root b) (inlineConfig b); EvCreateGenerator config] ∧
  heap (buildStart b w).2 = h2.
Proof.
  intros Hload Hcreate. rewrite buildStart_run, Hload. cbn [fst snd]. rewrite Hcreate.
  cbn [fst snd]. split_and!; try done. by intros c [= <-].
Qed.

(** X2.  A throw of the loader or of [createGenerator] is [buildStart]'s
    throw.  After a throw of the loader, [createGenerator] has not been
    called; after either, [uno] and [context] are what they were: a failed
    rebuild leaves the previous generator in use. *)
Theorem buildStart_failure_keeps_generator (b : Bindings) (w : World) (e : JsError) :
  (∀ h1,
     loadConfig (root b) (inlineConfig b) (heap w) = (Throw e, h1) →
     buildStart b w =
     (Throw e, set_heap h1 (logged [EvLoadConfig (root b) (inlineConfig b)] w))) ∧
  (∀ config h1 h2,
     loadConfig (root b) (inlineConfig b) (heap w) = (Ok config, h1) →
     createGenerator config h1 = (Throw e, h2) →
     buildStart b w =
     (Throw e,
      set_heap h2
        (logged [EvLoadConfig (root b) (inlineConfig b); EvCreateGenerator config] w))) ∧
  ((buildStart b w).1 = Throw e →
   uno (buildStart b w).2 = uno w ∧ context (buildStart b w).2 = context w).
Proof.
  split_and!.
  - intros h1 Hload. by rewrite buildStart_run, Hload.
  - intros config h1 h2 Hload Hcreate. rewrite buildStart_run, Hload. cbn [fst snd].
    by rewrite Hcreate.
  - rewrite buildStart_run. destruct (loadConfig _ _ _).1 as [config|e']; [|done].
    by destruct (createGenerator config _).1.
Qed.

(** X3.  [buildStart] resets nothing: the accumulator, the registry and
    the emitted assets are what they were, whether it returns or throws.  So
    tokens collected before a [buildStart] that returns are handed, all of
    them, to the CSS generation of the [generateBundle] that follows. *)
Theorem buildStart_never_resets (b : Bindings) (w : World) :
  tokens (buildStart b w).2 = tokens w ∧
  cleanup (buildStart b w).2 = cleanup w ∧
  emitted (buildStart b w).2 = emitted w ∧
  (generateCSS b = true →
   (buildStart b w).1 = Ok tt →
   css_inputs (log (run b [OpBuildStart; OpGenerateBundle] w)) = css_inputs (log w) ++ [tokens w]).
Proof.
  destruct (buildStart_frame b w) as (Htokens & Hcleanup & Hemitted).
  split_and!; [done..|].
  intros Hon Hok. unfold run. cbn [foldl perform].
  pose proof (perform_css_inputs b OpBuildStart w) as Hquiet. cbn [perform] in Hquiet.
  rewrite generateBundle_css_inputs, Hquiet, Htokens, Hon by done. cbn [andb].
  rewrite bool_decide_eq_true_2; [done|].
  rewrite buildStart_run in Hok |- *. destruct (loadConfig _ _ _).1 as [config|e]; [|done].
  by destruct (createGenerator config _).1.
Qed.

(** *** [uno] and [context] *)

Lemma assigned_together_frame (w w' : World) :
  uno w' = uno w → context w' = context w → assigned_together w → assigned_together w'.
Proof. unfold assigned_together. by intros -> ->. Qed.

Lemma perform_assigned_together (b : Bindings) (op : Operation) (w : World) :
  assigned_together w → assigned_together (perform b op w).2.
Proof.
  intros Hw. destruct op as [|code id| | |fn].
  - cbn [perform]. rewrite buildStart_run.
    destruct (loadConfig _ _ _).1 as [config|e]; [|done].
    by destruct (createGenerator config _).1.
  - rewrite transform_run. cbn [snd].
    destruct (handler_parts b code id w) as (Hu & Hc & _). by eapply assigned_together_frame.
  - cbn [perform]. destruct (generateBundle_parts b w) as (Hu & Hc & _).
    by eapply assigned_together_frame.
  - cbn [perform]. by rewrite invalidate_run.
  - done.
Qed.

(** X4.  In every world a build reaches from an initial one, [uno] and
    [context] are assigned together: either both are unassigned, or [context]
    carries the very generator that [uno] holds. *)
Theorem uno_and_context_assigned_together (b : Bindings) (ops : list Operation) (h : Heap) :
  assigned_together (run b ops (initial h)) ∧
  (∀ g, uno (run b ops (initial h)) = Some g →
        ∃ c, the_context (run b ops (initial h)) = Some c ∧ ctx_uno c = g) ∧
  (uno (run b ops (initial h)) = None → the_context (run b ops (initial h)) = None).
Proof.
  assert (assigned_together (run b ops (initial h))) as Hinv.
  { induction ops as [|op ops IH] using rev_ind; [done|].
    rewrite run_snoc. by apply perform_assigned_together. }
  split_and!; [done|..]; unfold assigned_together in Hinv; unfold the_context;
    destruct (uno (run b ops (initial h))), (context (run b ops (initial h))) as [[g' config]|];
    try done.
  intros g'' [= <-]. by eexists.
Qed.

(** *** What a transform leaves *)

(** X5.  A run of the handler that returns has added to the accumulator,
    behind what the transformers of the run left there, exactly the set that
    the scan of the returned code matched, in the scan's order: a token is
    held afterwards if and only if it was held when the transformers were
    done or was matched.  With nothing matched the accumulator is as the
    transformers left it; with transformers that make no write call on
    [context.tokens] it is what was held before, and behind it the matched
    set.  The registry is as the transformers left it; the emitted assets,
    [uno] and [context] are untouched. *)
Theorem handler_adds_what_the_scan_matched (b : Bindings) (code id : string) (w : World)
    (out : TransformOutput) (w' : World) :
  handler b code id w = (Ok out, w') →
  ∃ g r,
    uno w = Some g ∧
    gen_answer (generate g (InCode (out_code out)) (scan_options b id)
                  (heap (prescan b code id w).2)) = Ok r ∧
    tokens w' = JsSet.add_all (matched r) (tokens (applyTransformers (ms_new code) id w).2) ∧
    (∀ t, t ∈ tokens w' ↔
          t ∈ tokens (applyTransformers (ms_new code) id w).2 ∨ t ∈ matched r) ∧
    (matched r = [] → tokens w' = tokens (applyTransformers (ms_new code) id w).2) ∧
    (Forall keeps_tokens (filter (λ t, accepts id t = true) (registered g)) →
     tokens w' = JsSet.add_all (matched r) (tokens w)) ∧
    cleanup w' = cleanup (applyTransformers (ms_new code) id w).2 ∧
    emitted w' = emitted w ∧ uno w' = uno w ∧ context w' = context w.
Proof.
  intros Hrun.
  destruct (handler_parts b code id w) as (Hu & Hc & He & Hcl & _).
  rewrite Hrun in Hu, Hc, He, Hcl. cbn [snd] in Hu, Hc, He, Hcl.
  pose proof Hrun
    as (g & ms1 & annotations & w1 & ms2 & w2 & r & Hg & Happly & Hcb & Hscan & Hout & Hw')
       %handler_ok_inv.
  assert (w2 = (prescan b code id w).2) as Hw2 by (by rewrite prescan_run, Happly, Hcb).
  assert (tokens w2 = tokens (applyTransformers (ms_new code) id w).2) as Ht.
  { destruct (prescan_parts b code id w) as (_ & _ & _ & Ht & _). by rewrite <-Hw2 in Ht. }
  assert (tokens w' =
          JsSet.add_all (matched r) (tokens (applyTransformers (ms_new code) id w).2)) as Htok.
  { rewrite Hw'. cbn [tokens set_tokens]. by rewrite Ht. }
  exists g, r. rewrite <-Hw2, Hout. cbn [out_code output_of]. split_and!; try done.
  - intros t. rewrite Htok, JsSetFacts.elem_of_add_all. tauto.
  - intros Hnil. by rewrite Htok, Hnil.
  - intros Hkeep. rewrite Htok. f_equal. rewrite (applyTransformers_run g) by done.
    unfold spec_applyTransformers. cbn [snd logged set_log tokens].
    by apply sequential_world_keeps.
Qed.

(** X6.  A run of the handler whose scan matches only tokens that the
    accumulator holds already leaves the accumulator exactly as it was:
    nothing is held twice and nothing moves (the transformers invoked making
    no write call on [context.tokens]).  So transforming a file again, its
    scan matching what it matched before, adds nothing. *)
Theorem handler_adds_nothing_already_held (b : Bindings) (g : Generator) (code id : string)
    (w : World) (found : list string) :
  uno w = Some g →
  Forall keeps_tokens (filter (λ t, accepts id t = true) (registered g)) →
  matched_set b w (code, id) = Ok found →
  found ⊆ tokens w →
  is_ok (handler b code id w).1 = true ∧
  tokens (handler b code id w).2 = tokens w.
Proof.
  intros Hg Hkeep Hscan Hheld.
  destruct (handler_of_matched b w (code, id) found Hscan) as (out & w' & Hrun & Ht).
  cbn [fst snd] in Hrun, Ht. rewrite Hrun. cbn [fst snd is_ok]. split; [done|].
  rewrite Ht, (applyTransformers_run g) by done.
  unfold spec_applyTransformers. cbn [snd logged set_log tokens].
  rewrite sequential_world_keeps by done. by apply JsSetFacts.add_all_included.
Qed.

(** X7.  What a transformer writes to [context.tokens] stays: a token that
    the accumulator holds when the transformers of a run are done is held
    when the run is over, whether it returned or threw, and is among the
    tokens handed to the CSS generation of a [generateBundle] that comes
    next. *)
Theorem tokens_written_by_transformers_reach_the_stylesheet (b : Bindings) (g : Generator)
    (code id : string) (w : World) (t : string) :
  generateCSS b = true →
  uno w = Some g →
  t ∈ tokens (applyTransformers (ms_new code) id w).2 →
  t ∈ tokens (handler b code id w).2 ∧
  ∃ s,
    css_inputs (log (run b [OpTransform code id; OpGenerateBundle] w)) =
      css_inputs (log w) ++ [s] ∧
    t ∈ s.
Proof.
  intros Hon Hg Hin.
  assert (t ∈ tokens (handler b code id w).2) as Hheld.
  { destruct (handler_parts b code id w) as (_ & _ & _ & _ & found & -> & _).
    apply JsSetFacts.elem_of_add_all. by right. }
  split; [done|]. exists (tokens (handler b code id w).2). split; [|done].
  unfold run. cbn [foldl].
  change (perform b OpGenerateBundle (perform b (OpTransform code id) w).2)
    with (generateBundle b (perform b (OpTransform code id) w).2).
  rewrite generateBundle_css_inputs, transform_run. cbn [snd].
  rewrite handler_css_inputs, Hon. cbn [andb].
  destruct (handler_parts b code id w) as (-> & _). by rewrite Hg, bool_decide_eq_true_2.
Qed.

(** X8.  Before [buildStart] has assigned [uno], the transform handler and
    [applyTransformers] throw a [TypeError] on [uno.config] and
    [generateBundle] throws one on [uno.generate], unless [generateCSS] is off,
    in which case it returns; none of them calls anything or changes the
    world. *)
Theorem hooks_before_buildStart (b : Bindings) (code id : string) (w : World)
    (ms : MagicString) :
  uno w = None →
  handler b code id w =
    (Throw (TypeError "Cannot read properties of undefined (reading 'config')"), w) ∧
  applyTransformers ms id w =
    (Throw (TypeError "Cannot read properties of undefined (reading 'config')"), w) ∧
  generateBundle b w =
    (if generateCSS b
     then Throw (TypeError "Cannot read properties of undefined (reading 'generate')")
     else Ok tt, w).
Proof.
  intros Hg. split_and!.
  - by apply handler_unassigned.
  - by apply applyTransformers_unassigned.
  - destruct (generateCSS b) eqn:Hon.
    + by apply generateBundle_unassigned.
    + by apply generateBundle_disabled.
Qed.

(** *** Calls of the generator *)

Lemma generate_calls_app (l1 l2 : list Event) :
  generate_calls (l1 ++ l2) = generate_calls l1 ++ generate_calls l2.
Proof. apply omap_app. Qed.

Lemma generate_calls_transform_calls (evs : list Event) :
  Forall is_transform_call evs → generate_calls evs = [].
Proof. induction 1 as [|[] evs Hev _ IH]; by simpl in *. Qed.

(** X9.  One run of the handler calls [uno.generate] at most once, and only
    to scan: the call, if any, is on a text with the options
    [{ id, minify }] of this file and this plugin; a run without such a call
    has thrown, and a run that returns has made it on the code it returns. *)
Theorem handler_calls_generator_once_to_scan (b : Bindings) (code id : string) (w : World) :
  ∃ l,
    log (handler b code id w).2 = log w ++ l ∧
    (generate_calls l = [] ∧ is_ok (handler b code id w).1 = false ∨
     ∃ text,
       generate_calls l =
         [(InCode text, Some {| go_id := Some id; go_minify := minify b |})]) ∧
    ∀ out, (handler b code id w).1 = Ok out →
      generate_calls l =
        [(InCode (out_code out), Some {| go_id := Some id; go_minify := minify b |})].
Proof.
  pose proof (handler_log b code id w) as Hlog.
  destruct (applyTransformers_parts (ms_new code) id w) as (_ & _ & _ & _ & evs & Hl & Hevs).
  rewrite Hl in Hlog. rewrite handler_phases_run, prescan_run in Hlog |- *.
  destruct (applyTransformers (ms_new code) id w) as [[[ms1 annotations]|e] w1] eqn:Happly.
  - destruct (applyTransformers_ok_assigned _ _ _ _ _ Happly) as [g Hg].
    pose proof (callback_step_parts b id ms1 annotations w1) as (Hu & _).
    destruct (callback_step b id ms1 annotations w1) as [[ms2|e] w2] eqn:Hcb; cbn [snd] in *.
    + eexists. split; [by rewrite Hlog, <-app_assoc|].
      assert (generate_calls
                (evs ++ match onTransform b with
                        | Some _ => [EvOnTransform id ms1 annotations]
                        | None => []
                        end ++ [scan_event b id ms2]) =
              [(InCode (ms_toString ms2), Some {| go_id := Some id; go_minify := minify b |})])
        as Hcalls.
      { rewrite !generate_calls_app, generate_calls_transform_calls by done.
        by destruct (onTransform b). }
      rewrite Hcalls. split; [right; by eexists|].
      destruct (applyTransformers_parts (ms_new code) id w) as (Hu1 & _).
      rewrite Happly in Hu1. cbn [snd] in Hu1.
      rewrite (scan_run b g) by congruence.
      destruct (gen_answer _); [|done]. by intros out [= <-].
    + eexists. split; [by rewrite Hlog, <-app_assoc|]. split; [|done]. left.
      rewrite !generate_calls_app, generate_calls_transform_calls by done.
      by destruct (onTransform b).
  - exists evs. rewrite app_nil_r in Hlog. split; [done|]. split; [|done].
    left. by rewrite generate_calls_transform_calls.
Qed.

(** X10.  [generateBundle] uses no option but [generateCSS] and [fileName]:
    two plugins that agree on these do the same in the same world, whatever
    their [minify], [root], [filter], [config] and [onTransform]; and the only
    generator call it adds is on the accumulator with no options at all, so
    [minify] never reaches the CSS generation. *)
Theorem generateBundle_ignores_other_options (b1 b2 : Bindings) (w : World) :
  generateCSS b1 = generateCSS b2 →
  fileName b1 = fileName b2 →
  generateBundle b1 w = generateBundle b2 w ∧
  ∀ input options,
    (input, options) ∈ generate_calls (log (generateBundle b1 w).2) →
    (input, options) ∈ generate_calls (log w) ∨ (input = InTokens (tokens w) ∧ options = None).
Proof.
  intros Hcss Hname. split.
  - unfold generateBundle. by rewrite Hcss, Hname.
  - intros input options.
    destruct (generateBundle_parts b1 w) as (_ & _ & _ & -> & _).
    rewrite generate_calls_app.
    intros [Hin|Hin]%elem_of_app; [by left|right].
    destruct (generateCSS b1 && bool_decide (is_Some (uno w))); [|by apply elem_of_nil in Hin].
    apply list_elem_of_singleton in Hin. by injection Hin.
Qed.

(** X11.  [generateBundle] does not clear the accumulator: it leaves it as
    the generator's call left it, which is as it was when the generator makes
    no write call on the Set it is handed; and each call emits: two calls in a
    row, the generator returning, emit two assets, the second generated from
    the accumulator as the first call left it. *)
Theorem generateBundle_again_emits_again (b : Bindings) (g : Generator) (w : World)
    (r1 r2 : GenerateResult) :
  generateCSS b = true →
  uno w = Some g →
  gen_answer (generate g (InTokens (tokens w)) None (heap w)) = Ok r1 →
  gen_answer (generate g (InTokens (tokens (generateBundle b w).2)) None
                (heap (generateBundle b w).2)) = Ok r2 →
  tokens (generateBundle b w).2 =
    JsSet.apply_all (gen_writes (generate g (InTokens (tokens w)) None (heap w))) (tokens w) ∧
  (generator_keeps g → tokens (generateBundle b w).2 = tokens w) ∧
  css_inputs (log (run b [OpGenerateBundle; OpGenerateBundle] w)) =
    css_inputs (log w) ++ [tokens w; tokens (generateBundle b w).2] ∧
  emitted (run b [OpGenerateBundle; OpGenerateBundle] w) =
    emitted w ++ [{| asset_source := css r1; asset_fileName := fileName b |};
                  {| asset_source := css r2; asset_fileName := fileName b |}].
Proof.
  intros Hon Hg Hcss1 Hcss2. unfold run. cbn [foldl perform].
  destruct (generateBundle_parts b w) as (Hu & _ & _ & _ & Ht).
  rewrite Hg, Hon in Ht. split_and!.
  - done.
  - intros Hkeep. by rewrite Ht, Hkeep.
  - rewrite !generateBundle_css_inputs, Hon, Hu, Hg. cbn [andb].
    by rewrite bool_decide_eq_true_2, <-app_assoc.
  - rewrite (generateBundle_emitted b g (generateBundle b w).2), Hcss2 by congruence.
    rewrite (generateBundle_emitted b g w), Hcss1 by done. by rewrite <-app_assoc.
Qed.

End BuildFacts.

(** ** Builds, the registry over time, edges *)

Section MoreBuildFacts.
Context `{X : Externals}.

Lemma perform_emitted (b : Bindings) (op : Operation) (w : World) :
  emitted (perform b op w).2 = emitted w ∨
  (op = OpGenerateBundle ∧ generateCSS b = true ∧
   ∃ source, emitted (perform b op w).2 =
               emitted w ++ [{| asset_source := source; asset_fileName := fileName b |}]).
Proof.
  destruct op as [|code id| | |fn].
  - left. apply buildStart_frame.
  - left. rewrite transform_run. cbn [snd]. apply handler_parts.
  - cbn [perform]. destruct (generateCSS b) eqn:Hon; [|left; by rewrite generateBundle_disabled].
    destruct (uno w) as [g|] eqn:Hg; [|left; by rewrite generateBundle_unassigned].
    rewrite (generateBundle_emitted b g) by done.
    destruct (gen_answer _) as [r|e]; [right|left; by rewrite app_nil_r].
    split_and!; [done..|]. by eexists.
  - left. cbn [perform]. by rewrite invalidate_run.
  - by left.
Qed.

(** X12.  Along any sequence of the plugin's operations no emitted asset
    is ever withdrawn; with [generateCSS] off nothing is ever emitted; every
    asset emitted bears the plugin's [fileName]; and there are at most as many
    new assets as [generateBundle] ran. *)
Theorem emitted_along_a_build (b : Bindings) (ops : list Operation) (w : World) :
  emitted w `prefix_of` emitted (run b ops w) ∧
  (generateCSS b = false → emitted (run b ops w) = emitted w) ∧
  (∀ a, a ∈ emitted (run b ops w) → a ∈ emitted w ∨ asset_fileName a = fileName b) ∧
  (length (emitted (run b ops w)) ≤
     length (emitted w) + length (generateBundles ops))%nat.
Proof.
  induction ops as [|op ops (IHprefix & IHoff & IHname & IHcount)] using rev_ind.
  - split_and!; [done|done|by left|cbn; lia].
  - unfold generateBundles in *. rewrite run_snoc, filter_app, length_app.
    destruct (perform_emitted b op (run b ops w)) as [->|(-> & Hon & source & ->)].
    + split_and!; [done|done|done|lia].
    + split_and!.
      * etrans; [done|]. by apply prefix_app_r.
      * by rewrite Hon.
      * intros a [Hin|Hin%list_elem_of_singleton]%elem_of_app; [by apply IHname|right; by subst].
      * rewrite length_app. rewrite filter_cons_True by done. cbn. lia.
Qed.

(** *** Where the tokens come from *)

Lemma perform_log (b : Bindings) (op : Operation) (w : World) :
  ∃ l, log (perform b op w).2 = log w ++ l.
Proof.
  destruct op as [|code id| | |fn].
  - cbn [perform]. destruct (buildStart_log b w) as (l & -> & _). by eexists.
  - rewrite transform_run. cbn [snd]. rewrite handler_log.
    destruct (applyTransformers_parts (ms_new code) id w) as (_ & _ & _ & _ & evs & -> & _).
    rewrite <-app_assoc. by eexists.
  - cbn [perform]. destruct (generateBundle_parts b w) as (_ & _ & _ & -> & _). by eexists.
  - cbn [perform]. rewrite invalidate_run. by eexists.
  - exists []. cbn. by rewrite app_nil_r.
Qed.

Lemma matched_by_a_scan_later (l l' : list Event) (t : string) :
  matched_by_a_scan l t → matched_by_a_scan (l ++ l') t.
Proof.
  intros (config & g & text & options & r & h & h' & Hcreate & Hg & Hscan & Hr & Ht).
  exists config, g, text, options, r, h, h'. split_and!; try done; apply elem_of_app; by left.
Qed.

(** An operation in a world whose generator, transformers included, makes
    no write call on the accumulator. *)
Lemma perform_accounted (b : Bindings) (op : Operation) (w : World) :
  (∀ g, uno w = Some g → Forall keeps_tokens (registered g) ∧ generator_keeps g) →
  accounted w → accounted (perform b op w).2.
Proof.
  intros Hkeep [Huno Htokens].
  assert (∀ w', uno w' = uno w → tokens w' = tokens w → (∃ l, log w' = log w ++ l) →
                accounted w') as Hframe.
  { intros w' Hu Ht [l Hl]. split.
    - intros g Hg. rewrite Hu in Hg. destruct (Huno g Hg) as (config & h & Hin & Hcreate).
      exists config, h. split; [|done]. rewrite Hl. apply elem_of_app. by left.
    - intros t Hin. rewrite Ht in Hin. rewrite Hl. by apply matched_by_a_scan_later, Htokens. }
  destruct op as [|code id| | |fn].
  - cbn [perform]. pose proof (buildStart_frame b w) as (Ht & _ & _).
    rewrite buildStart_run in Ht |- *.
    destruct (loadConfig _ _ _).1 as [config|e];
      [destruct (createGenerator config _).1 as [g|e] eqn:Hc|];
      [|apply Hframe; [done|done|by eexists]..].
    split.
    + intros g' [= <-]. eexists config, _. split; [|done]. cbn. set_solver.
    + intros t Hin. apply (matched_by_a_scan_later _ _ t), Htokens. exact Hin.
  - rewrite transform_run. cbn [snd].
    destruct (handler b code id w) as [[out|e] w'] eqn:Hrun; cbn [snd].
    + destruct (handler_parts b code id w) as (Hu & _). rewrite Hrun in Hu. cbn [snd] in Hu.
      pose proof (handler_log b code id w) as Hlog.
      destruct (applyTransformers_parts (ms_new code) id w) as (_ & _ & _ & _ & evs & Hl & _).
      rewrite Hl, Hrun in Hlog. cbn [snd] in Hlog.
      pose proof Hrun
        as (g & ms1 & annotations & w1 & ms2 & w2 & r & Hg & Happly & Hcb & Hscan & _ & Hw')
           %handler_ok_inv.
      rewrite Happly, Hcb in Hlog.
      assert (tokens w2 = tokens w) as Ht2.
      { destruct (prescan_parts b code id w) as (_ & _ & _ & Ht & _).
        rewrite prescan_run, Happly, Hcb in Ht. cbn [snd] in Ht. rewrite Ht.
        pose proof (applyTransformers_keeps g (ms_new code) id w Hg (proj1 (Hkeep g Hg))) as Hk.
        by rewrite Happly in Hk. }
      split.
      * intros g' Hg'. rewrite Hu in Hg'. destruct (Huno g' Hg') as (config & h & Hin & Hcreate).
        exists config, h. split; [|done]. rewrite Hlog, <-app_assoc. apply elem_of_app.
        by left.
      * intros t Hin. rewrite Hw' in Hin. cbn [tokens set_tokens] in Hin. rewrite Ht2 in Hin.
        apply JsSetFacts.elem_of_add_all in Hin as [Hin|Hin].
        -- destruct (Huno g Hg) as (config & h & Hcfg & Hcreate).
           exists config, g, (ms_toString ms2), (scan_options b id), r, h, (heap w2).
           rewrite Hlog. split_and!; [|done| |done|done].
           ++ rewrite <-app_assoc. apply elem_of_app. by left.
           ++ rewrite !elem_of_app. right. right. by apply list_elem_of_singleton.
        -- rewrite Hlog, <-app_assoc. by apply matched_by_a_scan_later, Htokens.
    + apply Hframe.
      * destruct (handler_parts b code id w) as (Hu & _). by rewrite Hrun in Hu.
      * destruct (handler_parts b code id w) as (_ & _ & _ & _ & found & Ht & Hnone).
        rewrite Hrun in Ht, Hnone. cbn [fst snd is_ok] in Ht, Hnone.
        rewrite (Hnone eq_refl), JsSetFacts.add_all_nil in Ht. rewrite Ht.
        destruct (uno w) as [g|] eqn:Hg.
        -- apply (applyTransformers_keeps g); [done|]. by apply Hkeep.
        -- by rewrite applyTransformers_unassigned.
      * destruct (perform_log b (OpTransform code id) w) as [l Hl].
        rewrite transform_run, Hrun in Hl. by exists l.
  - cbn [perform]. destruct (generateBundle_parts b w) as (Hu & _ & _ & Hl & Ht).
    apply Hframe; [done| |by eexists].
    rewrite Ht. destruct (uno w) as [g|] eqn:Hg; [|done]. destruct (generateCSS b); [|done].
    destruct (Hkeep g eq_refl) as [_ Hgen]. by rewrite Hgen.
  - cbn [perform]. rewrite invalidate_run. apply Hframe; [done|done|by eexists].
  - apply Hframe; [done|done|]. exists []. cbn. by rewrite app_nil_r.
Qed.

(** X13.  Where no generator that [buildStart] can build, its
    transformers included, makes a write call on the accumulator, every token
    in the accumulator of a world reached from an initial one was matched by a
    scan: the log holds a [createGenerator] call that can build a generator,
    and a scan call on a text, such that this generator matches the token in
    this text.  Then nothing else ever enters the accumulator. *)
Theorem every_token_was_matched_by_a_scan (b : Bindings) (ops : list Operation) (h : Heap)
    (t : string) :
  (∀ g, buildable b g → Forall keeps_tokens (registered g) ∧ generator_keeps g) →
  t ∈ tokens (run b ops (initial h)) →
  matched_by_a_scan (log (run b ops (initial h))) t.
Proof.
  intros Hkeep.
  assert (accounted (run b ops (initial h))) as [_ Htokens]; [|by apply Htokens].
  induction ops as [|op ops IH] using rev_ind.
  - split; [done|]. by intros t' ?%elem_of_nil.
  - rewrite run_snoc. apply perform_accounted; [|done].
    intros g [Hg|Hg]%run_uno; [done|by apply Hkeep].
Qed.

(** *** A build from start to end *)

Lemma transform_all_css_inputs (b : Bindings) (files : list (string * string)) (w : World) :
  css_inputs (log (transform_all b files w).2) = css_inputs (log w).
Proof.
  revert w. induction files as [|file files IH]; intros w; [done|].
  cbn [transform_all]. rewrite bind_run.
  pose proof (handler_css_inputs b file.1 file.2 w) as Hh.
  destruct (handler b file.1 file.2 w) as [[out|e] w1]; cbn [snd] in Hh; [|done].
  rewrite bind_run. pose proof (IH w1) as Hrest.
  destruct (transform_all b files w1) as [[outs|e] w2]; cbn [snd mret M_ret] in *; congruence.
Qed.

Lemma transform_all_parts (b : Bindings) (files : list (string * string)) (w : World) :
  uno (transform_all b files w).2 = uno w ∧ emitted (transform_all b files w).2 = emitted w.
Proof.
  revert w. induction files as [|file files IH]; intros w; [done|].
  cbn [transform_all]. rewrite bind_run.
  destruct (handler_parts b file.1 file.2 w) as (Hu & _ & He & _).
  destruct (handler b file.1 file.2 w) as [[out|e] w1]; cbn [snd] in *; [|done].
  rewrite bind_run. destruct (IH w1) as (Hu' & He').
  destruct (transform_all b files w1) as [[outs|e] w2]; cbn [snd mret M_ret] in *;
    split; congruence.
Qed.

(** X14.  A whole build from an initial world: [buildStart], the transform
    of each file in turn, [generateBundle].  When the collaborators return,
    [generateCSS] is on and the transformers of the generator built make no
    write call on [context.tokens], the build returns, makes exactly one
    CSS-generation call, on the tokens that the scans of the files matched (for
    no file: on the empty set), and emits exactly one asset, named [fileName],
    with the CSS of that call. *)
Theorem build_emits_the_css_of_all_matched (b : Bindings) (files : list (string * string))
    (M : string * string → list string) (config : UserConfig) (g : Generator)
    (r : GenerateResult) (h h1 h2 : Heap) :
  generateCSS b = true →
  loadConfig (root b) (inlineConfig b) h = (Ok config, h1) →
  createGenerator config h1 = (Ok g, h2) →
  Forall keeps_tokens (registered g) →
  scans_of b files (buildStart b (initial h)).2 = (λ file, Ok (M file)) <$> files →
  gen_answer
    (generate g (InTokens (foldl (λ acc file, JsSet.add_all (M file) acc) [] files)) None
       (heap (transform_all b files (buildStart b (initial h)).2).2)) = Ok r →
  (build b files (initial h)).1 = Ok tt ∧
  emitted (build b files (initial h)).2 =
    [{| asset_source := css r; asset_fileName := fileName b |}] ∧
  css_inputs (log (build b files (initial h)).2) =
    [foldl (λ acc file, JsSet.add_all (M file) acc) [] files] ∧
  (list_to_set (foldl (λ acc file, JsSet.add_all (M file) acc) [] files) : gset string) =
    ⋃ ((λ file, list_to_set (M file)) <$> files).
Proof.
  intros Hon Hload Hcreate Hkeep Hscans Hcss.
  assert ((buildStart b (initial h)).1 = Ok tt ∧ uno (buildStart b (initial h)).2 = Some g)
    as (Hok & Hg).
  { rewrite buildStart_run. cbn [heap initial]. rewrite Hload. cbn [fst snd].
    by rewrite Hcreate. }
  pose proof (buildStart_frame b (initial h)) as (Htokens & _ & Hemitted).
  pose proof (perform_css_inputs b OpBuildStart (initial h)) as Hquiet0.
  cbn [perform] in Hquiet0. specialize (Hquiet0 ltac:(done)).
  destruct (transform_all_run b g M files (buildStart b (initial h)).2 Hg Hkeep Hscans)
    as (outs & w1 & Hrun & _ & Ht).
  pose proof (transform_all_css_inputs b files (buildStart b (initial h)).2) as Hquiet.
  pose proof (transform_all_parts b files (buildStart b (initial h)).2) as (Hu1 & He1).
  rewrite Hrun in Hquiet, Hu1, He1, Hcss. cbn [snd] in Hquiet, Hu1, He1, Hcss.
  rewrite Htokens in Ht. cbn [tokens initial] in Ht.
  unfold build. rewrite bind_run.
  destruct (buildStart b (initial h)) as [[[]|e] w0]; cbn [fst snd] in *; [|done].
  rewrite bind_run, Hrun.
  assert (uno w1 = Some g) as Hg1 by congruence.
  rewrite (generateBundle_run b g) by done. rewrite Ht, Hcss. cbn [fst snd].
  split_and!; [done| | |].
  - cbn [emitted set_emitted]. by rewrite He1, Hemitted.
  - cbn [log set_emitted set_heap set_tokens]. rewrite log_logged, css_inputs_app.
    by rewrite Hquiet, Hquiet0.
  - rewrite add_all_fold_to_set. set_solver.
Qed.

(** *** The registry over time *)

(** X15.  [invalidate] does not clear the registry and [onInvalidate] does
    not deduplicate: after an [invalidate], two registrations of the same
    callback and another [invalidate], the callbacks registered at first have
    been called twice and the new one twice in the second round (callbacks
    that return whatever the state of the collaborators). *)
Theorem invalidate_keeps_registry_and_duplicates (b : Bindings) (fn : VoidFunction)
    (w : World) :
  Forall (λ c, ∀ h, (call_cleanup c h).1 = Ok tt) (cleanup w) →
  (∀ h, (call_cleanup fn h).1 = Ok tt) →
  cleanup_calls
    (log (run b [OpInvalidate; OpOnInvalidate fn; OpOnInvalidate fn; OpInvalidate] w)) =
  cleanup_calls (log w) ++ cleanup w ++ (cleanup w ++ [fn; fn]).
Proof.
  intros Hall Hfn.
  assert (Forall (λ c, ∀ h, (call_cleanup c h).1 = Ok tt) ((cleanup w ++ [fn]) ++ [fn]))
    as Hall'.
  { rewrite !Forall_app. split_and!; [done|by constructor..]. }
  unfold run. cbn [foldl perform].
  rewrite (invalidate_run w), (cleanup_outcome_all (cleanup w)) by done.
  cbn [fst snd onInvalidate modify]. rewrite invalidate_run.
  cbn [cleanup set_cleanup set_heap logged set_log heap].
  rewrite cleanup_outcome_all by done.
  cbn [fst snd log set_cleanup set_heap logged set_log].
  by rewrite !cleanup_calls_app, !cleanup_calls_fmap, <-!app_assoc.
Qed.

(** *** Files no transformer accepts *)

(** X16.  A file that the identifier filter of every registered
    transformer rejects is left alone: [applyTransformers] returns the buffer
    as it got it and no annotation, calls nothing and changes nothing,
    whatever the transformers would do. *)
Theorem file_rejected_by_every_filter_is_untouched (g : Generator) (code : MagicString)
    (id : string) (w : World) :
  uno w = Some g →
  Forall (λ t, accepts id t = false) (registered g) →
  applyTransformers code id w = (Ok (code, []), w).
Proof. apply applyTransformers_none_accepted. Qed.

(** *** The first throw *)

(** X17.  [applyTransformers] stops at the first transformer that throws:
    the throw is its answer, the calls made are those of the accepted
    transformers before it, each on the buffer and in the world its
    predecessor left, and the call that threw; no transformer after it is
    called.  The world is as those calls left it. *)
Theorem applyTransformers_stops_at_first_throw (g : Generator)
    (before after : list SourceCodeTransformer) (t : SourceCodeTransformer)
    (code buf : MagicString) (id : string) (per : list (list HighlightAnnotation))
    (e : JsError) (w : World) :
  uno w = Some g →
  filter (λ t, accepts id t = true) (registered g) = before ++ t :: after →
  sequential_result before code id w = Ok (buf, per) →
  tr_answer (transform_in t buf id (sequential_world before code id w)) = Throw e →
  applyTransformers code id w =
  (Throw e,
   logged ((λ c, EvTransform c.1 c.2 id) <$> (sequential_calls before code id w ++ [(t, buf)]))
     (absorb (transform_in t buf id (sequential_world before code id w))
        (sequential_world before code id w))) ∧
  log (applyTransformers code id w).2 =
    log w ++
    ((λ c, EvTransform c.1 c.2 id) <$> (sequential_calls before code id w ++ [(t, buf)])).
Proof.
  intros Hg Hinvoked Hbefore Hthrow. rewrite (applyTransformers_run g) by done.
  unfold spec_applyTransformers. rewrite Hinvoked.
  destruct (sequential_stops_at_throw before after t code buf id per e w Hbefore Hthrow)
    as (-> & -> & ->).
  split; [done|]. cbn [snd]. rewrite log_logged.
  destruct (absorb_parts (transform_in t buf id (sequential_world before code id w))
              (sequential_world before code id w)) as (_ & _ & _ & -> & _).
  by destruct (sequential_world_parts before code id w) as (_ & _ & _ & -> & _).
Qed.

(** X18.  The source map the handler returns is the high-resolution map
    of the very buffer whose text it returns as code: the buffer as the
    transformers and the optional [onTransform] left it. *)
Theorem handler_map_is_of_the_buffer_it_returns (b : Bindings) (code id : string) (w : World)
    (out : TransformOutput) (w' : World) :
  handler b code id w = (Ok out, w') →
  ∃ ms1 annotations w1 ms2,
    applyTransformers (ms_new code) id w = (Ok (ms1, annotations), w1) ∧
    (callback_step b id ms1 annotations w1).1 = Ok ms2 ∧
    out_code out = ms_toString ms2 ∧
    out_map out = ms_generateMap ms2 {| hires := true |}.
Proof.
  intros (g & ms1 & annotations & w1 & ms2 & w2 & r & Hg & Happly & Hcb & Hscan & -> & ->)
    %handler_ok_inv.
  exists ms1, annotations, w1, ms2. split_and!; [done|by rewrite Hcb|done..].
Qed.

(** X19.  Each option that is supplied is used as given, whatever else is
    supplied or omitted: the plugin's transform filter is the supplied
    filter; [buildStart] calls the loader with the supplied root, and with the
    inline configuration as given in any case; an asset that [generateBundle]
    emits bears the supplied file name; with [generateCSS: false] supplied
    [generateBundle] does nothing; every scan that a transform adds is called
    with [minify] as given; and a supplied [onTransform] is called with the
    buffer and the annotations that [applyTransformers] returns. *)
Theorem unocss_uses_supplied_options (o : UnoCSSPluginOptions) (w : World) :
  name (unocss (Some o)) = "tsdown-unocss-plugin" ∧
  (∀ f, opt_filter o = Some f → transform_filter (unocss (Some o)) = f) ∧
  (∀ r, opt_root o = Some r →
        ∃ rest, log (plugin_buildStart (unocss (Some o)) w).2 =
                  log w ++ EvLoadConfig r (opt_config o) :: rest) ∧
  (∃ r rest, log (plugin_buildStart (unocss (Some o)) w).2 =
               log w ++ EvLoadConfig r (opt_config o) :: rest) ∧
  (∀ n, opt_fileName o = Some n →
        ∀ a, a ∈ emitted (plugin_generateBundle (unocss (Some o)) w).2 →
             a ∈ emitted w ∨ asset_fileName a = n) ∧
  (opt_generateCSS o = Some false →
   plugin_generateBundle (unocss (Some o)) w = (Ok tt, w)) ∧
  (∀ code id,
     ∃ l, log (transform_handler (unocss (Some o)) code id w).2 = log w ++ l ∧
          ∀ input options, (input, options) ∈ generate_calls l →
            options = Some {| go_id := Some id; go_minify := opt_minify o |}) ∧
  (∀ f, opt_onTransform o = Some f →
        ∀ code id ms1 annotations w1,
          applyTransformers (ms_new code) id w = (Ok (ms1, annotations), w1) →
          EvOnTransform id ms1 annotations ∈
            log (transform_handler (unocss (Some o)) code id w).2).
Proof.
  cbn [unocss transform_filter name plugin_buildStart plugin_generateBundle transform_handler
       from_option Datatypes.id].
  split_and!.
  - done.
  - intros f Hfilter. unfold destructure. cbn [hook_filter]. by rewrite Hfilter.
  - intros r Hroot. destruct (buildStart_log (destructure o) w) as (l & Hl & _).
    exists l. rewrite Hl. unfold destructure. cbn [root inlineConfig]. by rewrite Hroot.
  - destruct (buildStart_log (destructure o) w) as (l & Hl & _). by eexists _, l.
  - intros n Hname a Hin.
    destruct (perform_emitted (destructure o) OpGenerateBundle w)
      as [Hsame|(_ & _ & source & Hadd)]; cbn [perform] in *.
    + left. by rewrite <-Hsame.
    + rewrite Hadd in Hin. apply elem_of_app in Hin as [Hin|Hin%list_elem_of_singleton];
        [by left|right]. subst a. unfold destructure. cbn [asset_fileName fileName].
      by rewrite Hname.
  - intros Hoff. apply generateBundle_disabled. unfold destructure. cbn [generateCSS].
    by rewrite Hoff.
  - intros code id. rewrite handler_log.
    destruct (applyTransformers_parts (ms_new code) id w) as (_ & _ & _ & _ & evs & -> & Hevs).
    eexists. split; [by rewrite <-app_assoc|]. intros input options.
    rewrite generate_calls_app, (generate_calls_transform_calls evs) by done.
    destruct (applyTransformers (ms_new code) id w) as [[[ms1 annotations]|e] w1];
      [|by intros ?%elem_of_nil].
    rewrite generate_calls_app.
    destruct (onTransform (destructure o)),
             (callback_step (destructure o) id ms1 annotations w1) as [[ms2|e] w2];
      cbn; set_solver.
  - intros f Hf code id ms1 annotations w1 Happly. rewrite handler_log, Happly.
    assert (onTransform (destructure o) = Some f) as -> by done.
    set_solver.
Qed.

(** X20.  [invalidate] stops at the first callback that throws: the throw
    is its answer, the callbacks before it have been called in order, then
    the one that threw, and none after it; the registry is unchanged. *)
Theorem invalidate_stops_at_first_throw (before after : list VoidFunction)
    (c : VoidFunction) (e : JsError) (w : World) :
  cleanup w = before ++ c :: after →
  (cleanup_outcome before (heap w)).1.1 = Ok tt →
  (call_cleanup c (cleanup_outcome before (heap w)).2).1 = Throw e →
  invalidate w =
    (Throw e,
     set_heap (call_cleanup c (cleanup_outcome before (heap w)).2).2
       (logged (EvCleanup <$> (before ++ [c])) w)) ∧
  cleanup_calls (log (invalidate w).2) = cleanup_calls (log w) ++ before ++ [c] ∧
  cleanup (invalidate w).2 = before ++ c :: after.
Proof.
  intros Hregistry Hbefore Hthrow.
  rewrite invalidate_run, Hregistry, (cleanup_outcome_stops before after c e) by done.
  cbn [fst snd]. split_and!; [done| |done].
  cbn [log set_heap]. by rewrite log_logged, cleanup_calls_app, cleanup_calls_fmap.
Qed.

End MoreBuildFacts.

(** ** The statements at work on the toy collaborators *)

Import Demo.
#[local] Existing Instance Demo.externals.

(** Of the toy transformers, [Leak] and [Wipe] write to the accumulator. *)
Lemma quiet_transformers_keep_tokens (t : transformer) :
  t ≠ Leak → t ≠ Wipe → keeps_tokens (X := externals) t.
Proof. intros Hleak Hwipe code id ctx h. by destruct t. Qed.

Lemma only_Wipe_removes (t : transformer) : t ≠ Wipe → only_adds (X := externals) t.
Proof. intros Hwipe code id ctx h. destruct t; try done; by repeat constructor. Qed.

(** The toy generator adds its safelist to a Set it is given, and nothing
    else. *)
Lemma toy_generator_only_adds (g : config) : generator_only_adds (X := externals) g.
Proof.
  intros s options h. cbn. induction (cfg_safelist g) as [|x xs IH]; by constructor.
Qed.

Lemma toy_generator_keeps (ts : option (list transformer)) :
  generator_keeps (X := externals) (configured ts).
Proof. by intros s options h. Qed.

(** What [buildStart] can build from an inline configuration is that
    configuration. *)
Lemma toy_buildable (ts : list transformer) (g : config) :
  buildable (with_config ts) g → g = configured (Some ts).
Proof. by intros (h & c & h' & [= <-] & [= <-]). Qed.

Lemma handler_scans_the_text_it_returns_witness :
  ∃ out w',
    handler (with_callback (Append " uno")) "x hover:(a b)" "a.tsx"
      (started (Some [VariantGroup; TsxOnly])) = (Ok out, w') ∧
    out_code out = "x hover:a hover:b uno" ∧
    ∃ ms1 annotations w1 ms2 w2,
      applyTransformers (X := externals) (ms_new "x hover:(a b)") "a.tsx"
        (started (Some [VariantGroup; TsxOnly])) = (Ok (ms1, annotations), w1) ∧
      callback_step (with_callback (Append " uno")) "a.tsx" ms1 annotations w1 = (Ok ms2, w2) ∧
      scan_inputs (log w') =
        scan_inputs (log (started (Some [VariantGroup; TsxOnly]))) ++ [ms_toString ms2] ∧
      out_code out = ms_toString ms2.
Proof.
  eexists _, _. split; [vm_compute; reflexivity|]. split; [reflexivity|].
  apply (handler_scans_the_text_it_returns (X := externals)). reflexivity.
Defined.

Lemma applyTransformers_in_list_order_witness :
  (applyTransformers (X := externals) (ms_new "x hover:(a b)") "notes.md"
     (started (Some [TsxOnly; VariantGroup]))).1 =
    Ok ({| original := "x hover:(a b)"; current := "x hover:a hover:b" |},
        [{| offset := 0; len := 7; className := "hover:a" |};
         {| offset := 8; len := 7; className := "hover:b" |}]) ∧
  log (applyTransformers (X := externals) (ms_new "x hover:(a b)") "notes.md"
         (started (Some [TsxOnly; VariantGroup]))).2 =
    [EvTransform (X := externals) VariantGroup
       {| original := "x hover:(a b)"; current := "x hover:(a b)" |} "notes.md"].
Proof.
  pose proof (applyTransformers_in_list_order (X := externals)
                (configured (Some [TsxOnly; VariantGroup]))
                (ms_new (Externals := externals) "x hover:(a b)") "notes.md"
                (started (Some [TsxOnly; VariantGroup])) eq_refl) as (Hrun & Hlog & _).
  split; [by rewrite Hrun|exact Hlog].
Defined.

Lemma onTransform_once_after_transformers_before_scan_witness :
  ∃ ms1 annotations w1,
    applyTransformers (ms_new "x hover:(a b)") "a.tsx"
      (started (Some [VariantGroup; TsxOnly])) = (Ok (ms1, annotations), w1) ∧
    ms_toString ms1 = "x hover:a hover:b" ∧
    length annotations = 2 ∧
    onTransform_calls
      (log (handler (with_callback (Append " uno")) "x hover:(a b)" "a.tsx"
              (started (Some [VariantGroup; TsxOnly]))).2) =
      onTransform_calls (log (started (Some [VariantGroup; TsxOnly]))) ++
      [("a.tsx", ms1, annotations)] ∧
    ∃ evs after,
      log w1 = log (started (Some [VariantGroup; TsxOnly])) ++ evs ∧
      Forall is_transform_call evs ∧
      log (handler (with_callback (Append " uno")) "x hover:(a b)" "a.tsx"
             (started (Some [VariantGroup; TsxOnly]))).2 =
        log (started (Some [VariantGroup; TsxOnly])) ++ evs ++
        [EvOnTransform "a.tsx" ms1 annotations] ++ after ∧
      after = [scan_event (with_callback (Append " uno")) "a.tsx"
                 {| original := "x hover:(a b)"; current := "x hover:a hover:b uno" |}].
Proof.
  eexists _, _, _. split; [vm_compute; reflexivity|]. split; [reflexivity|]. split; [reflexivity|].
  destruct (onTransform_once_after_transformers_before_scan
              (with_callback (Append " uno")) (Append " uno") "x hover:(a b)" "a.tsx"
              (started (Some [VariantGroup; TsxOnly])) _ _ _ eq_refl eq_refl)
    as (evs & after & Hl1 & Hevs & Hlog & Hafter & Hcalls & _).
  split; [exact Hcalls|]. exists evs, after. split_and!; [exact Hl1|exact Hevs|exact Hlog|].
  rewrite Hafter. reflexivity.
Defined.

Lemma failed_transform_leaves_no_result_and_no_tokens_witness :
  (handler plain "x" "a.tsx" (midway (Some [VariantGroup; Broken]) ["kept"] [])).1 =
    Throw (Thrown "transformer failed") ∧
  (handler (with_callback Reject) "x" "a.tsx" (midway None ["kept"] [])).1 =
    Throw (Thrown "callback failed") ∧
  (handler plain "throw" "a.tsx" (midway None ["kept"] [])).1 = Throw (Thrown "scan failed") ∧
  tokens (handler plain "x" "a.tsx" (midway (Some [VariantGroup; Broken]) ["kept"] [])).2 =
    ["kept"].
Proof.
  pose proof (failed_transform_leaves_no_result_and_no_tokens plain "x" "a.tsx"
                (midway (Some [VariantGroup; Broken]) ["kept"] []))
    as (Htransformer & _ & _ & Hstate).
  pose proof (failed_transform_leaves_no_result_and_no_tokens (with_callback Reject) "x" "a.tsx"
                (midway None ["kept"] [])) as (_ & Hcallback & _).
  pose proof (failed_transform_leaves_no_result_and_no_tokens plain "throw" "a.tsx"
                (midway None ["kept"] [])) as (_ & _ & Hscan & _).
  assert ((handler plain "x" "a.tsx" (midway (Some [VariantGroup; Broken]) ["kept"] [])).1 =
          Throw (Thrown "transformer failed")) as Hthrows.
  { eapply (Htransformer (configured (Some [VariantGroup; Broken])) [VariantGroup] Broken []);
      vm_compute; reflexivity. }
  split_and!.
  - exact Hthrows.
  - eapply Hcallback; [vm_compute; reflexivity|reflexivity|vm_compute; reflexivity].
  - eapply (Hscan (configured None));
      [reflexivity|vm_compute; reflexivity|vm_compute; reflexivity].
  - destruct (Hstate (Thrown "transformer failed")
                (handler plain "x" "a.tsx" (midway (Some [VariantGroup; Broken]) ["kept"] [])).2)
      as (_ & _ & _ & _ & _ & Hkept).
    { rewrite <-Hthrows. apply surjective_pairing. }
    apply (Hkept (configured (Some [VariantGroup; Broken])) eq_refl).
    constructor; [by apply quiet_transformers_keep_tokens|].
    constructor; [by apply quiet_transformers_keep_tokens|constructor].
Defined.

(** A transformer that adds to [context.tokens] before a later one throws:
    the transform fails, and the accumulator is not as it was. *)
Lemma failed_transform_keeps_what_a_transformer_wrote :
  (handler plain "x" "a.tsx" (midway (Some [Leak; Broken]) ["kept"] [])).1 =
    Throw (Thrown "transformer failed") ∧
  tokens (midway (Some [Leak; Broken]) ["kept"] []) = ["kept"] ∧
  tokens (handler plain "x" "a.tsx" (midway (Some [Leak; Broken]) ["kept"] [])).2 =
    ["kept"; "leak"].
Proof. by vm_compute. Qed.

Lemma accumulator_is_union_in_any_order_witness :
  tokens (transform_all plain [file2; file1] (started (Some [VariantGroup]))).2 =
    ["c"; "hover:a"; "hover:b"; "a"; "b"] ∧
  (list_to_set (tokens (transform_all plain [file2; file1] (started (Some [VariantGroup]))).2)
     : gset string) =
    list_to_set (tokens (started (Some [VariantGroup]))) ∪
    ⋃ ((λ file, list_to_set (found_in file)) <$> [file1; file2]) ∧
  tokens (world (schedule plain
                   [Called file1; Called file2; Resumed 1; Resumed 0; Resumed 1; Resumed 0]
                   (idle (started (Some [VariantGroup]))))) =
    ["c"; "hover:a"; "hover:b"; "a"; "b"] ∧
  (list_to_set
     (tokens (world (schedule plain
                       [Called file1; Called file2; Resumed 1; Resumed 0; Resumed 1; Resumed 0]
                       (idle (started (Some [VariantGroup])))))) : gset string) =
    list_to_set (tokens (started (Some [VariantGroup]))) ∪
    ⋃ ((λ file, list_to_set (found_in file)) <$> [file1; file2]).
Proof.
  destruct (accumulator_is_union_in_any_order plain (configured (Some [VariantGroup]))
              (started (Some [VariantGroup])) [file1; file2] found_in)
    as (Hsequential & Hconcurrent & _).
  - reflexivity.
  - constructor; [by apply quiet_transformers_keep_tokens|constructor].
  - apply (bool_decide_unpack _). vm_compute. reflexivity.
  - intros f1 f2 [->|[->|[]%elem_of_nil]%elem_of_cons]%elem_of_cons
                 [->|[->|[]%elem_of_nil]%elem_of_cons]%elem_of_cons Hne;
      try done;
      (let l1 := eval vm_compute in (found_in file1) in change (found_in file1) with l1);
      (let l2 := eval vm_compute in (found_in file2) in change (found_in file2) with l2);
      set_solver.
  - split_and!.
    + vm_compute. reflexivity.
    + destruct (Hsequential [file2; file1]) as (outs & w' & Hrun & _ & Hset);
        [apply perm_swap|vm_compute; reflexivity|].
      rewrite Hrun. exact Hset.
    + vm_compute. reflexivity.
    + apply Hconcurrent.
      assert (completed (schedule plain
                [Called file1; Called file2; Resumed 1; Resumed 0; Resumed 1; Resumed 0]
                (idle (started (Some [VariantGroup])))) =
              [(file2, found_in file2); (file1, found_in file1)]) as ->
        by (vm_compute; reflexivity).
      apply perm_swap.
Defined.

(** Two distinct files whose scans match disjoint sets, the same in either
    order.  With a transformer that adds a class of its own to
    [context.tokens], the accumulator ends with more than the union of the
    two sets.  With one that clears [context.tokens] when it meets the second
    file, the accumulator ends up different between the two orders of whole
    transforms, and between two interleavings that complete the files in the
    same order. *)
Lemma a_writing_transformer_makes_the_order_matter :
  scans_of plain [file1; file2] (started (Some [VariantGroup; Leak])) =
    [Ok ["a"; "b"]; Ok ["c"; "hover:a"; "hover:b"]] ∧
  tokens (transform_all plain [file1; file2] (started (Some [VariantGroup; Leak]))).2 =
    ["leak"; "a"; "b"; "c"; "hover:a"; "hover:b"] ∧
  scans_of plain [file1; file2] (started (Some [VariantGroup; Wipe])) =
    [Ok ["a"; "b"]; Ok ["c"; "hover:a"; "hover:b"]] ∧
  scans_of plain [file2; file1] (started (Some [VariantGroup; Wipe])) =
    [Ok ["c"; "hover:a"; "hover:b"]; Ok ["a"; "b"]] ∧
  tokens (transform_all plain [file1; file2] (started (Some [VariantGroup; Wipe]))).2 =
    ["c"; "hover:a"; "hover:b"] ∧
  tokens (transform_all plain [file2; file1] (started (Some [VariantGroup; Wipe]))).2 =
    ["c"; "hover:a"; "hover:b"; "a"; "b"] ∧
  completed (schedule plain
               [Called file1; Called file2; Resumed 1; Resumed 0; Resumed 1; Resumed 0; Resumed 0]
               (idle (started (Some [VariantGroup; Wipe])))) =
    [(file1, ["a"; "b"]); (file2, ["c"; "hover:a"; "hover:b"])] ∧
  tokens (world (schedule plain
                   [Called file1; Called file2; Resumed 1; Resumed 0; Resumed 1; Resumed 0;
                    Resumed 0]
                   (idle (started (Some [VariantGroup; Wipe]))))) =
    ["a"; "b"; "c"; "hover:a"; "hover:b"] ∧
  completed (schedule plain
               [Called file1; Resumed 0; Resumed 0; Called file2; Resumed 0; Resumed 0; Resumed 0]
               (idle (started (Some [VariantGroup; Wipe])))) =
    [(file1, ["a"; "b"]); (file2, ["c"; "hover:a"; "hover:b"])] ∧
  tokens (world (schedule plain
                   [Called file1; Resumed 0; Resumed 0; Called file2; Resumed 0; Resumed 0;
                    Resumed 0]
                   (idle (started (Some [VariantGroup; Wipe]))))) =
    ["c"; "hover:a"; "hover:b"].
Proof. by vm_compute. Qed.

Lemma generateBundle_emits_iff_generateCSS_witness :
  generateBundle without_css (midway None ["a"; "b"] []) = (Ok tt, midway None ["a"; "b"] []) ∧
  emitted (generateBundle plain (midway None ["a"; "b"] [])).2 =
    [{| asset_source := ".a{}.b{}"; asset_fileName := "uno.css" |}] ∧
  emitted (generateBundle plain (started None)).2 =
    [{| asset_source := ""; asset_fileName := "uno.css" |}].
Proof.
  split_and!.
  - by apply (proj1 (generateBundle_emits_iff_generateCSS without_css (midway None ["a"; "b"] []))).
  - by destruct (proj1 (proj2 (generateBundle_emits_iff_generateCSS plain
                                 (midway None ["a"; "b"] []))) (configured None) eq_refl eq_refl)
      as (_ & -> & _).
  - by destruct (proj1 (proj2 (generateBundle_emits_iff_generateCSS plain (started None)))
                   (configured None) eq_refl eq_refl)
      as (_ & -> & _).
Defined.

Lemma accumulator_idempotent_monotone_read_at_finalize_witness :
  JsSet.add "a" ["a"; "b"] = ["a"; "b"] ∧
  ["a"; "b"] `prefix_of`
    tokens (handler plain "b c" "x.tsx" (midway (Some [Leak]) ["a"; "b"] [])).2 ∧
  ["a"; "b"] `prefix_of`
    tokens (run (with_config [Leak])
              [OpBuildStart; OpTransform "b c" "x.tsx"; OpInvalidate;
               OpTransform "throw" "y.tsx"; OpGenerateBundle]
              (midway (Some [Leak; VariantGroup]) ["a"; "b"] [Flush 1])) ∧
  css_inputs (log (generateBundle plain (midway None ["a"; "b"] [])).2) = [["a"; "b"]].
Proof.
  pose proof accumulator_idempotent_monotone_read_at_finalize
    as (Hadd & _ & _ & Hhandler & Hrun & _ & _ & _ & Hbundle).
  split_and!.
  - apply Hadd. set_solver.
  - apply (Hhandler plain "b c" "x.tsx" (midway (Some [Leak]) ["a"; "b"] [])).
    intros g [= <-]. constructor; [by apply only_Wipe_removes|constructor].
  - apply (Hrun (with_config [Leak]) _ (midway (Some [Leak; VariantGroup]) ["a"; "b"] [Flush 1])).
    intros g [[= <-]| ->%toy_buildable];
      (split; [repeat (constructor; [by apply only_Wipe_removes|]); constructor
              |apply toy_generator_only_adds]).
  - apply (Hbundle plain (midway None ["a"; "b"] [])).
Defined.

(** A transformer that clears [context.tokens], and one that reads it: a
    transform step that removes what was held, and one whose output depends
    on what the accumulator holds. *)
Lemma transformers_remove_and_read_tokens :
  tokens (midway (Some [Wipe]) ["a"] []) = ["a"] ∧
  is_ok (handler plain "b" "two.jsx" (midway (Some [Wipe]) ["a"] [])).1 = true ∧
  tokens (handler plain "b" "two.jsx" (midway (Some [Wipe]) ["a"] [])).2 = ["b"] ∧
  ¬ tokens (midway (Some [Wipe]) ["a"] []) `prefix_of`
      tokens (handler plain "b" "two.jsx" (midway (Some [Wipe]) ["a"] [])).2 ∧
  (∃ out, (handler plain "x" "a.tsx" (midway (Some [Mirror]) ["a"] [])).1 = Ok out ∧
          out_code out = "x a") ∧
  (∃ out, (handler plain "x" "a.tsx" (midway (Some [Mirror]) [] [])).1 = Ok out ∧
          out_code out = "x") ∧
  css_inputs (log (handler plain "x" "a.tsx" (midway (Some [Mirror]) ["a"] [])).2) = [].
Proof.
  split_and!; [by vm_compute..| | | |by vm_compute].
  - intros [k Hk]. vm_compute in Hk. discriminate Hk.
  - eexists. split; vm_compute; reflexivity.
  - eexists. split; vm_compute; reflexivity.
Qed.

Lemma cleanup_registry_append_only_invoked_in_order_witness :
  cleanup (onInvalidate (Flush 3) (midway None [] [Flush 1; Flush 2])).2 =
    [Flush 1; Flush 2; Flush 3] ∧
  [Flush 1] `prefix_of`
    cleanup (run plain [OpTransform "a" "x.tsx"; OpInvalidate] (midway (Some [Hook]) [] [Flush 1])) ∧
  cleanup_calls (log (invalidate (midway None [] [Flush 1; Flush 2])).2) = [Flush 1; Flush 2] ∧
  cleanup_calls (log (invalidate (midway None [] [Flush 1; Crash; Flush 2])).2) =
    [Flush 1; Crash].
Proof.
  split_and!.
  - by rewrite (proj1 cleanup_registry_append_only_invoked_in_order).
  - apply (proj1 (proj2 (proj2 cleanup_registry_append_only_invoked_in_order)) plain).
  - destruct (proj2 (proj2 (proj2 cleanup_registry_append_only_invoked_in_order))
                (midway None [] [Flush 1; Flush 2]))
      as (_ & called & _ & _ & Hcalls & Hall & _).
    by rewrite Hcalls, (Hall eq_refl).
  - destruct (proj2 (proj2 (proj2 cleanup_registry_append_only_invoked_in_order))
                (midway None [] [Flush 1; Crash; Flush 2]))
      as (_ & called & _ & _ & Hcalls & _ & Hstops).
    destruct (Hstops (Thrown "cleanup failed") eq_refl)
      as (before & c & after & Hregistry & -> & Hbefore & Hthrow).
    rewrite Hcalls. cbn [app cleanup_calls omap list_omap].
    destruct before as [|c1 [|c2 before]]; cbn in Hregistry.
    + injection Hregistry as <- _. discriminate Hthrow.
    + by injection Hregistry as <- <- _.
    + injection Hregistry as <- <- Hrest. discriminate Hbefore.
Defined.

(** A callback that throws: the callbacks registered after it are not
    invoked by that call of [invalidate]. *)
Lemma invalidate_does_not_reach_callbacks_after_a_throw :
  cleanup (midway None [] [Flush 1; Crash; Flush 2]) = [Flush 1; Crash; Flush 2] ∧
  (invalidate (midway None [] [Flush 1; Crash; Flush 2])).1 = Throw (Thrown "cleanup failed") ∧
  cleanup_calls (log (invalidate (midway None [] [Flush 1; Crash; Flush 2])).2) =
    [Flush 1; Crash].
Proof. by vm_compute. Qed.

Lemma handler_identity_without_transformers_witness :
  (∃ out,
     (handler plain "a b a" "x.tsx" (midway (Some []) ["b"] [])).1 = Ok out ∧
     out_code out = "a b a") ∧
  scan_inputs (log (handler plain "a b a" "x.tsx" (midway (Some []) ["b"] [])).2) = ["a b a"] ∧
  tokens (handler plain "a b a" "x.tsx" (midway (Some []) ["b"] [])).2 = ["b"; "a"].
Proof.
  destruct (handler_identity_without_transformers plain (configured (Some [])) "a b a" "x.tsx"
              (midway (Some []) ["b"] []) (λ s, eq_refl) eq_refl (or_intror eq_refl) eq_refl)
    as (_ & Hscan & Hout & Htokens & _).
  split_and!; [exact Hout|exact Hscan|exact Htokens].
Defined.

Lemma buildStart_assigns_generator_and_context_witness :
  uno (buildStart (with_config [VariantGroup]) fresh).2 =
    Some (configured (Some [VariantGroup])) ∧
  the_context (buildStart (with_config [VariantGroup]) (midway None ["a"] [Flush 1])).2 =
    Some {| ctx_uno := configured (Some [VariantGroup]); ctx_tokens := ["a"];
            ctx_config := configured (Some [VariantGroup]); ctx_cleanup := [Flush 1] |} ∧
  log (buildStart (with_config [VariantGroup]) fresh).2 =
    [EvLoadConfig "/work" (Some (configured (Some [VariantGroup])));
     EvCreateGenerator (configured (Some [VariantGroup]))].
Proof.
  destruct (buildStart_assigns_generator_and_context (with_config [VariantGroup]) fresh
              (configured (Some [VariantGroup])) (configured (Some [VariantGroup])) [] []
              eq_refl eq_refl)
    as (_ & Huno & _ & _ & _ & Hlog & _).
  destruct (buildStart_assigns_generator_and_context (with_config [VariantGroup])
              (midway None ["a"] [Flush 1])
              (configured (Some [VariantGroup])) (configured (Some [VariantGroup])) [] []
              eq_refl eq_refl)
    as (_ & _ & _ & Hcontext & _).
  split_and!; [exact Huno|exact Hcontext|exact Hlog].
Defined.

Lemma buildStart_failure_keeps_generator_witness :
  buildStart (strict_at "/elsewhere" None)
    (set_uno (X := strict) (configured (Some [TsxOnly])) (initial (X := strict) [])) =
    (Throw (Thrown "no configuration"),
     set_heap (X := strict) []
       (logged (X := strict) [EvLoadConfig (X := strict) "/elsewhere" (Some (configured None))]
          (set_uno (X := strict) (configured (Some [TsxOnly])) (initial (X := strict) [])))) ∧
  uno (buildStart (strict_at "/work" (Some [Broken]))
         (set_uno (X := strict) (configured (Some [TsxOnly])) (initial (X := strict) []))).2 =
    Some (configured (Some [TsxOnly])).
Proof.
  split.
  - by apply (proj1 (buildStart_failure_keeps_generator (X := strict)
                       (strict_at "/elsewhere" None) _ (Thrown "no configuration"))).
  - by apply (proj2 (proj2 (buildStart_failure_keeps_generator (X := strict)
                              (strict_at "/work" (Some [Broken]))
                              (set_uno (X := strict) (configured (Some [TsxOnly]))
                                 (initial (X := strict) []))
                              (Thrown "bad transformer")))).
Defined.

Lemma buildStart_never_resets_witness :
  tokens (buildStart plain (midway None ["a"; "b"] [Flush 1])).2 = ["a"; "b"] ∧
  css_inputs (log (run plain [OpBuildStart; OpGenerateBundle] (midway None ["a"; "b"] [Flush 1]))) =
    [["a"; "b"]].
Proof.
  destruct (buildStart_never_resets plain (midway None ["a"; "b"] [Flush 1]))
    as (Htokens & _ & _ & Hcss).
  split; [exact Htokens|]. by apply Hcss.
Defined.

Lemma handler_adds_what_the_scan_matched_witness :
  tokens (applyTransformers (ms_new "b c") "x.tsx" (midway (Some [Leak]) ["a"; "b"] [])).2 =
    ["a"; "b"; "leak"] ∧
  tokens (handler plain "b c" "x.tsx" (midway (Some [Leak]) ["a"; "b"] [])).2 =
    ["a"; "b"; "leak"; "c"] ∧
  ∃ r,
    matched r = ["b"; "c"] ∧
    tokens (handler plain "b c" "x.tsx" (midway (Some [Leak]) ["a"; "b"] [])).2 =
      JsSet.add_all (matched r)
        (tokens (applyTransformers (ms_new "b c") "x.tsx"
                   (midway (Some [Leak]) ["a"; "b"] [])).2).
Proof.
  split; [vm_compute; reflexivity|]. split; [vm_compute; reflexivity|].
  destruct (handler_adds_what_the_scan_matched plain "b c" "x.tsx"
              (midway (Some [Leak]) ["a"; "b"] [])
              (output_of (ms_new "b c"))
              (handler plain "b c" "x.tsx" (midway (Some [Leak]) ["a"; "b"] [])).2)
    as (g & r & Hg & Hscan & Htokens & _); [vm_compute; reflexivity|].
  exists r. split; [|exact Htokens].
  injection Hg as <-. vm_compute in Hscan. by injection Hscan as <-.
Defined.

Lemma handler_adds_nothing_already_held_witness :
  is_ok (handler plain "b c" "x.tsx" (midway (Some [TsxOnly]) ["a"; "b"; "c"] [])).1 = true ∧
  tokens (handler plain "b c" "x.tsx" (midway (Some [TsxOnly]) ["a"; "b"; "c"] [])).2 =
    ["a"; "b"; "c"].
Proof.
  apply (handler_adds_nothing_already_held plain (configured (Some [TsxOnly])) "b c" "x.tsx"
           (midway (Some [TsxOnly]) ["a"; "b"; "c"] []) ["b"; "c"]).
  - reflexivity.
  - constructor; [by apply quiet_transformers_keep_tokens|constructor].
  - vm_compute. reflexivity.
  - set_solver.
Defined.

Lemma tokens_written_by_transformers_reach_the_stylesheet_witness :
  "leak" ∈ tokens (handler plain "b" "x.tsx" (started (Some [Leak]))).2 ∧
  ∃ s,
    css_inputs (log (run plain [OpTransform "b" "x.tsx"; OpGenerateBundle]
                       (started (Some [Leak])))) = [s] ∧
    "leak" ∈ s.
Proof.
  apply (tokens_written_by_transformers_reach_the_stylesheet plain (configured (Some [Leak]))
           "b" "x.tsx" (started (Some [Leak])) "leak").
  - reflexivity.
  - reflexivity.
  - vm_compute. apply list_elem_of_here.
Defined.

Lemma hooks_before_buildStart_witness :
  generateBundle plain fresh =
    (Throw (TypeError "Cannot read properties of undefined (reading 'generate')"), fresh) ∧
  generateBundle without_css fresh = (Ok tt, fresh).
Proof.
  split.
  - by destruct (hooks_before_buildStart plain "" "" fresh (ms_new "") eq_refl) as (_ & _ & ->).
  - by destruct (hooks_before_buildStart without_css "" "" fresh (ms_new "") eq_refl)
      as (_ & _ & ->).
Defined.

Lemma generateBundle_ignores_other_options_witness :
  generateBundle (destructure options_supplied) (midway None ["a"] []) =
  generateBundle (destructure options_same_asset) (midway None ["a"] []).
Proof.
  by destruct (generateBundle_ignores_other_options (destructure options_supplied)
                 (destructure options_same_asset) (midway None ["a"] []) eq_refl eq_refl)
    as [Hsame _].
Defined.

Lemma generateBundle_again_emits_again_witness :
  tokens (generateBundle plain (set_tokens ["a"] (started_with (safelisted ["safe"])))).2 =
    ["a"; "safe"] ∧
  css_inputs (log (run plain [OpGenerateBundle; OpGenerateBundle]
                     (set_tokens ["a"] (started_with (safelisted ["safe"]))))) =
    [["a"]; ["a"; "safe"]] ∧
  emitted (run plain [OpGenerateBundle; OpGenerateBundle]
             (set_tokens ["a"] (started_with (safelisted ["safe"])))) =
    [{| asset_source := ".a{}.safe{}"; asset_fileName := "uno.css" |};
     {| asset_source := ".a{}.safe{}"; asset_fileName := "uno.css" |}] ∧
  emitted (run plain [OpGenerateBundle; OpGenerateBundle] (midway None ["a"] [])) =
    [{| asset_source := ".a{}"; asset_fileName := "uno.css" |};
     {| asset_source := ".a{}"; asset_fileName := "uno.css" |}].
Proof.
  destruct (generateBundle_again_emits_again plain (safelisted ["safe"])
              (set_tokens ["a"] (started_with (safelisted ["safe"])))
              {| css := ".a{}.safe{}"; matched := ["a"; "safe"] |}
              {| css := ".a{}.safe{}"; matched := ["a"; "safe"] |}
              eq_refl eq_refl eq_refl eq_refl) as (Htokens & _ & Hcss & Hemitted).
  destruct (generateBundle_again_emits_again plain (configured None) (midway None ["a"] [])
              {| css := ".a{}"; matched := ["a"] |} {| css := ".a{}"; matched := ["a"] |}
              eq_refl eq_refl eq_refl eq_refl) as (_ & _ & _ & Hplain).
  split_and!; [exact Htokens|exact Hcss|exact Hemitted|exact Hplain].
Defined.

Lemma emitted_along_a_build_witness :
  emitted (run without_css [OpBuildStart; OpTransform "a" "x.tsx"; OpGenerateBundle] fresh) = [].
Proof.
  by apply (proj1 (proj2 (emitted_along_a_build without_css
                            [OpBuildStart; OpTransform "a" "x.tsx"; OpGenerateBundle] fresh))).
Defined.

Lemma every_token_was_matched_by_a_scan_witness :
  "hover:b" ∈ tokens (run (with_config [VariantGroup])
                        [OpBuildStart; OpTransform "hover:(a b)" "x.tsx"] fresh) ∧
  matched_by_a_scan
    (log (run (with_config [VariantGroup])
            [OpBuildStart; OpTransform "hover:(a b)" "x.tsx"] fresh)) "hover:b".
Proof.
  assert ("hover:b" ∈ tokens (run (with_config [VariantGroup])
                                [OpBuildStart; OpTransform "hover:(a b)" "x.tsx"] fresh)) as Hin.
  { vm_compute. apply list_elem_of_further, list_elem_of_here. }
  split; [exact Hin|].
  apply (every_token_was_matched_by_a_scan (with_config [VariantGroup])
           [OpBuildStart; OpTransform "hover:(a b)" "x.tsx"] []); [|exact Hin].
  intros g ->%toy_buildable. split; [|apply toy_generator_keeps].
  constructor; [by apply quiet_transformers_keep_tokens|constructor].
Defined.

Lemma build_emits_the_css_of_all_matched_witness :
  emitted (build (with_config [VariantGroup]) [file1; file2] fresh).2 =
    [{| asset_source := ".a{}.b{}.c{}.hover:a{}.hover:b{}"; asset_fileName := "uno.css" |}] ∧
  emitted (build (with_config [VariantGroup]) [] fresh).2 =
    [{| asset_source := ""; asset_fileName := "uno.css" |}].
Proof.
  split.
  - edestruct (build_emits_the_css_of_all_matched (with_config [VariantGroup]) [file1; file2]
                 found_in (configured (Some [VariantGroup])) (configured (Some [VariantGroup])))
      as (_ & Hemitted & _);
      [reflexivity|reflexivity|reflexivity| |vm_compute; reflexivity|vm_compute; reflexivity|].
    + constructor; [by apply quiet_transformers_keep_tokens|constructor].
    + exact Hemitted.
  - edestruct (build_emits_the_css_of_all_matched (with_config [VariantGroup]) []
                 found_in (configured (Some [VariantGroup])) (configured (Some [VariantGroup])))
      as (_ & Hemitted & _);
      [reflexivity|reflexivity|reflexivity| |vm_compute; reflexivity|vm_compute; reflexivity|].
    + constructor; [by apply quiet_transformers_keep_tokens|constructor].
    + exact Hemitted.
Defined.

Lemma invalidate_keeps_registry_and_duplicates_witness :
  cleanup_calls
    (log (run plain [OpInvalidate; OpOnInvalidate (Flush 2); OpOnInvalidate (Flush 2); OpInvalidate]
            (midway None [] [Flush 1]))) =
  [Flush 1; Flush 1; Flush 2; Flush 2].
Proof.
  apply (invalidate_keeps_registry_and_duplicates plain (Flush 2) (midway None [] [Flush 1])).
  - constructor; [by intros h|constructor].
  - by intros h.
Defined.

Lemma file_rejected_by_every_filter_is_untouched_witness :
  applyTransformers (ms_new "hover:(a b)") "notes.md" (started (Some [TsxOnly; Wipe])) =
  (Ok (ms_new "hover:(a b)", []), started (Some [TsxOnly; Wipe])).
Proof.
  apply (file_rejected_by_every_filter_is_untouched (X := externals)
           (configured (Some [TsxOnly; Wipe]))).
  - reflexivity.
  - constructor; [reflexivity|]. constructor; [reflexivity|constructor].
Defined.

Lemma applyTransformers_stops_at_first_throw_witness :
  (applyTransformers (ms_new "hover:(a b)") "a.tsx"
     (started (Some [VariantGroup; Broken; TsxOnly]))).1 = Throw (Thrown "transformer failed") ∧
  log (applyTransformers (ms_new "hover:(a b)") "a.tsx"
         (started (Some [VariantGroup; Broken; TsxOnly]))).2 =
    [EvTransform VariantGroup {| original := "hover:(a b)"; current := "hover:(a b)" |} "a.tsx";
     EvTransform Broken {| original := "hover:(a b)"; current := "hover:a hover:b" |} "a.tsx"].
Proof.
  destruct (applyTransformers_stops_at_first_throw (X := externals)
              (configured (Some [VariantGroup; Broken; TsxOnly]))
              [VariantGroup] [TsxOnly] Broken (ms_new "hover:(a b)")
              {| original := "hover:(a b)"; current := "hover:a hover:b" |} "a.tsx"
              [[{| offset := 0; len := 7; className := "hover:a" |};
                {| offset := 8; len := 7; className := "hover:b" |}]]
              (Thrown "transformer failed")
              (started (Some [VariantGroup; Broken; TsxOnly])))
    as (Hrun & Hlog); [reflexivity|reflexivity|reflexivity|reflexivity|].
  split; [by rewrite Hrun|exact Hlog].
Defined.

Lemma handler_map_is_of_the_buffer_it_returns_witness :
  ∃ out w',
    handler (with_callback (Append " x")) "hover:(a b)" "a.tsx" (started (Some [VariantGroup])) =
      (Ok out, w') ∧
    out_map out = ("hover:(a b)", "hover:a hover:b x") ∧
    ∃ ms1 annotations w1 ms2,
      applyTransformers (ms_new "hover:(a b)") "a.tsx" (started (Some [VariantGroup])) =
        (Ok (ms1, annotations), w1) ∧
      (callback_step (with_callback (Append " x")) "a.tsx" ms1 annotations w1).1 = Ok ms2 ∧
      out_code out = ms_toString ms2 ∧
      out_map out = ms_generateMap ms2 {| hires := true |}.
Proof.
  eexists _, _. split; [vm_compute; reflexivity|]. split; [reflexivity|].
  eapply (handler_map_is_of_the_buffer_it_returns (with_callback (Append " x")) "hover:(a b)"
            "a.tsx" (started (Some [VariantGroup]))). vm_compute. reflexivity.
Defined.

Lemma unocss_uses_supplied_options_witness :
  transform_filter (unocss (Some options_supplied)) =
    {| filter_id := Some (PGlob "**/*.vue"); filter_moduleType := None; filter_code := None |} ∧
  (∃ rest, log (plugin_buildStart (unocss (Some options_supplied)) fresh).2 =
             log fresh ++ EvLoadConfig "/app" None :: rest) ∧
  plugin_generateBundle (unocss (Some options_without_css)) (midway None ["a"] []) =
    (Ok tt, midway None ["a"] []).
Proof.
  destruct (unocss_uses_supplied_options options_supplied fresh)
    as (_ & Hfilter & Hroot & _).
  destruct (unocss_uses_supplied_options options_without_css (midway None ["a"] []))
    as (_ & _ & _ & _ & _ & Hdisabled & _).
  split_and!; [by apply Hfilter|by apply Hroot|by apply Hdisabled].
Defined.

Lemma invalidate_stops_at_first_throw_witness :
  (invalidate (midway None [] [Flush 1; Fuse; Fuse; Flush 2])).1 = Throw (Thrown "fuse blown") ∧
  cleanup_calls (log (invalidate (midway None [] [Flush 1; Fuse; Fuse; Flush 2])).2) =
    [Flush 1; Fuse; Fuse] ∧
  cleanup (invalidate (midway None [] [Flush 1; Fuse; Fuse; Flush 2])).2 =
    [Flush 1; Fuse; Fuse; Flush 2].
Proof.
  destruct (invalidate_stops_at_first_throw (X := externals) [Flush 1; Fuse] [Flush 2] Fuse
              (Thrown "fuse blown")
              (midway None [] [Flush 1; Fuse; Fuse; Flush 2]) eq_refl eq_refl eq_refl)
    as (Hrun & Hcalls & Hcleanup).
  split_and!; [by rewrite Hrun|exact Hcalls|exact Hcleanup].
Defined.

(** *** Edges *)

(** "hover:(a b)" is never scanned as such: the scan sees the expansion, and
    both expanded classes reach the accumulator. *)
Example expanded_classes_are_collected :
  scan_inputs (log (handler plain "hover:(a b)" "a.tsx" (started (Some [VariantGroup]))).2) =
    ["hover:a hover:b"] ∧
  tokens (handler plain "hover:(a b)" "a.tsx" (started (Some [VariantGroup]))).2 =
    ["hover:a"; "hover:b"].
Proof. by vm_compute. Qed.

(** A transform before [buildStart] fails on [uno.config]. *)
Example handler_before_buildStart :
  handler plain "a" "x.tsx" fresh =
  (Throw (TypeError "Cannot read properties of undefined (reading 'config')"), fresh).
Proof. reflexivity. Qed.

(** The same files, two completion orders: the same set, in another
    insertion order. *)
Example completion_order_shows_in_insertion_order :
  tokens (world (schedule plain
                   [Called file1; Called file2; Resumed 0; Resumed 0; Resumed 0; Resumed 0]
                   (idle (started (Some [VariantGroup]))))) =
    ["a"; "b"; "c"; "hover:a"; "hover:b"] ∧
  tokens (world (schedule plain
                   [Called file1; Called file2; Resumed 1; Resumed 0; Resumed 1; Resumed 0]
                   (idle (started (Some [VariantGroup]))))) =
    ["c"; "hover:a"; "hover:b"; "a"; "b"].
Proof. by vm_compute. Qed.

(** A callback's answer can depend on what the collaborators did before: the
    second [invalidate] throws where the first returned. *)
Example invalidate_twice_differs :
  (invalidate (midway None [] [Fuse])).1 = Ok tt ∧
  (invalidate (invalidate (midway None [] [Fuse])).2).1 = Throw (Thrown "fuse blown").
Proof. by vm_compute. Qed.

(** A transformer that registers a cleanup callback: [invalidate] calls it
    afterwards. *)
Example callback_registered_by_a_transformer_is_called :
  cleanup_calls
    (log (run plain [OpTransform "a" "x.tsx"; OpInvalidate] (midway (Some [Hook]) [] [Flush 1]))) =
  [Flush 1; Flush 0].
Proof. by vm_compute. Qed.
